(** * Verification of the cleaning and alignment pipeline (src/clean_data.py)

    The four parsers ([clean_cpi_data], [clean_energy_data],
    [clean_labor_data], [clean_news_data]) and the merge step
    ([merge_all_data]) are embedded as Rocq functions.  The pandas and
    numpy operations they call (pivot, pct_change, resample, join,
    label slicing, sort_index, interpolate) are written out as list
    programs over a column-major data frame.  Of src/run_analysis.py the
    selection of the columns and of the strongest lag are embedded
    (module [Analysis]), of src/get_data.py the loops of the two news
    collectors (module [Fetch]).

    Conventions of the embedding:
    - a cell is [option Q]: [None] is pandas' missing marker (NaN), and
      [Some q] a finite number.  pandas computes in binary64, the
      embedding in exact rationals: the two agree on the rows, the
      columns and the cells that are missing, and on the value of a
      computed cell up to the rounding of binary64, exactly where the
      operations involved are exact in binary64 (whole numbers of
      moderate size, quotients that come out whole).  An infinite cell,
      as a quotient by zero gives, has no counterpart in the embedding;
    - a month-start timestamp is the integer [12 * year + (month - 1)];
    - a Python exception is a value of type [exn]; a function that can
      raise returns [result]. *)

From Stdlib Require Import List Bool Arith ZArith QArith Qabs Lia Lqa.
From Stdlib Require Import Ascii String.
From Stdlib Require Import Sorted Permutation.
Import ListNotations.

Set Implicit Arguments.

Close Scope Q_scope.
Open Scope nat_scope.
Open Scope list_scope.

(* ================================================================== *)
(** ** Cells and columns *)
(* ================================================================== *)

Definition cell := option Q.

Definition notna (c : cell) : bool :=
  match c with Some _ => true | None => false end.

(** Equality of cells up to the value of the rational. *)
Definition cell_eq (a b : cell) : Prop :=
  match a, b with
  | Some x, Some y => (x == y)%Q
  | None, None => True
  | _, _ => False
  end.

Definition Qnat (n : nat) : Q := inject_Z (Z.of_nat n).

(* ================================================================== *)
(** ** [interpolate(method='linear', limit_direction='both')]

    pandas hands each column to [numpy.interp] with the row positions
    [0, 1, 2, ...] as abscissae (method 'linear' ignores the index):
    the missing positions are evaluated on the polyline through the
    valid ones.  [numpy.interp] returns the first ordinate to the left of
    the first valid position and the last ordinate to the right of the
    last one.  With [limit=None] and direction 'both' no filled cell is
    put back to missing; a column without any valid cell is returned
    unchanged. *)
(* ================================================================== *)

Module Interp.

(** First valid cell of [col], whose head sits at position [i]. *)
Fixpoint first_valid_from (i : nat) (col : list cell) : option (nat * Q) :=
  match col with
  | [] => None
  | Some v :: _ => Some (i, v)
  | None :: tl => first_valid_from (S i) tl
  end.

(** Last valid cell of [col], whose head sits at position [i]. *)
Fixpoint last_valid_from (i : nat) (col : list cell) : option (nat * Q) :=
  match col with
  | [] => None
  | c :: tl =>
      match last_valid_from (S i) tl with
      | Some r => Some r
      | None => match c with Some v => Some (i, v) | None => None end
      end
  end.

Definition first_valid (col : list cell) := first_valid_from 0 col.
Definition last_valid (col : list cell) := last_valid_from 0 col.

(** [numpy.interp] between two neighbouring valid points
    [(j, a)] and [(k, b)]: [slope * (x - xp[j]) + fp[j]] with
    [slope = (fp[k] - fp[j]) / (xp[k] - xp[j])], the three operations
    taken exactly where numpy rounds each of them to binary64. *)
Definition np_interp_between (j : nat) (a : Q) (k : nat) (b : Q) (x : nat) : Q :=
  (((b - a) / (Qnat k - Qnat j)) * (Qnat x - Qnat j) + a)%Q.

(** One pass over the column: [prev] is the last valid point already
    passed, [i] the position of the head of [col]. *)
Fixpoint interp_fill (prev : option (nat * Q)) (i : nat) (col : list cell)
  : list cell :=
  match col with
  | [] => []
  | Some v :: tl => Some v :: interp_fill (Some (i, v)) (S i) tl
  | None :: tl =>
      (match prev, first_valid_from (S i) tl with
       | Some (j, a), Some (k, b) => Some (np_interp_between j a k b i)
       | None, Some (_, b) => Some b
       | Some (_, a), None => Some a
       | None, None => None
       end) :: interp_fill prev (S i) tl
  end.

Definition interpolate (col : list cell) : list cell := interp_fill None 0 col.

(** What the specification describes for the edges: the straight line
    through the two nearest observations, prolonged beyond them. *)
Definition extrapolate_line (j : nat) (a : Q) (k : nat) (b : Q) (x : nat) : Q :=
  (a + ((b - a) / (Qnat k - Qnat j)) * (Qnat x - Qnat j))%Q.

(** First two valid points of a column. *)
Definition first_two_valid (col : list cell) : option ((nat * Q) * (nat * Q)) :=
  match first_valid col with
  | Some (j, a) =>
      match first_valid_from (S j) (skipn (S j) col) with
      | Some (k, b) => Some ((j, a), (k, b))
      | None => None
      end
  | None => None
  end.

End Interp.

(* ================================================================== *)
(** ** Python exceptions and results *)
(* ================================================================== *)

Inductive exn : Type :=
| AttributeError
| KeyError
| ValueError.

Inductive result (A : Type) : Type :=
| Ok (a : A)
| Raise (e : exn).

Arguments Ok {A} a.
Arguments Raise {A} e.

Definition bind {A B : Type} (r : result A) (k : A -> result B) : result B :=
  match r with
  | Ok a => k a
  | Raise e => Raise e
  end.

Notation "x <- r ;; k" := (bind r (fun x => k))
  (at level 61, r at next level, right associativity).

(** What a file of the raw directory can turn out to be when it is
    opened and decoded: absent ([FileNotFoundError]); present, but its
    bytes are not UTF-8 text ([UnicodeDecodeError], a [ValueError]);
    text that the decoder refuses ([json.JSONDecodeError], a
    [ValueError], or the error [read_csv] raises); or decoded. *)
Inductive raw_file (A : Type) : Type :=
| NotFound
| Unreadable
| Undecodable
| Loaded (a : A).

Arguments NotFound {A}.
Arguments Unreadable {A}.
Arguments Undecodable {A}.
Arguments Loaded {A} a.

(* ================================================================== *)
(** ** Sorting *)
(* ================================================================== *)

Section Sorting.
Variable A : Type.
Variable leb : A -> A -> bool.

Fixpoint insert_sorted (x : A) (l : list A) : list A :=
  match l with
  | [] => [x]
  | y :: tl => if leb x y then x :: l else y :: insert_sorted x tl
  end.

(** Stable insertion sort. *)
Fixpoint isort (l : list A) : list A :=
  match l with
  | [] => []
  | x :: tl => insert_sorted x (isort tl)
  end.
End Sorting.

(* ================================================================== *)
(** ** Months and the analysis window *)
(* ================================================================== *)

(** A month-start timestamp. *)
Definition Month := Z.

Definition ym (y m : Z) : Month := (12 * y + (m - 1))%Z.

Record date : Type := mkDate { d_year : Z; d_month : Z; d_day : Z }.

Definition month_of (d : date) : Month := ym (d_year d) (d_month d).

(** [START_DATE = '2016-01-01'], [END_DATE = '2025-12-31']. *)
Definition START_DATE : date := mkDate 2016 1 1.
Definition END_DATE : date := mkDate 2025 12 31.

(** A month-start timestamp lies in the label slice
    [START_DATE:END_DATE] when its month does. *)
Definition in_window (k : Month) : bool :=
  (month_of START_DATE <=? k)%Z && (k <=? month_of END_DATE)%Z.

(** Sorted union without duplicates, the index of an outer join. *)
Definition sort_unique (l : list Month) : list Month :=
  isort Z.leb (nodup Z.eq_dec l).

(* ================================================================== *)
(** ** Data frames *)
(* ================================================================== *)

Record DataFrame : Type := mkDF {
  index : list Month;
  columns : list (string * list cell)
}.

Definition names (df : DataFrame) : list string := map fst (columns df).

(** [pd.DataFrame()] *)
Definition empty_frame : DataFrame := mkDF [] [].

(** [df.empty]: some axis has length zero. *)
Definition df_empty (df : DataFrame) : bool :=
  match index df, columns df with
  | [], _ => true
  | _, [] => true
  | _, _ => false
  end.

(** Every column is as long as the index. *)
Definition wf_frame (df : DataFrame) : Prop :=
  Forall (fun c => List.length (snd c) = List.length (index df)) (columns df).

(** Row selection by position, [-1] (here [None]) giving a missing cell,
    as pandas' [take] with an indexer. *)
Definition take (pos : list (option nat)) (col : list cell) : list cell :=
  map (fun p => match p with
                | Some i => nth i col None
                | None => None
                end) pos.

Definition take_col (pos : list (option nat)) (c : string * list cell)
  : string * list cell :=
  (fst c, take pos (snd c)).

(** Positions of the key [k] in an index whose head sits at [i]. *)
Fixpoint positions_from (i : nat) (k : Month) (idx : list Month) : list nat :=
  match idx with
  | [] => []
  | x :: tl =>
      if Z.eqb x k then i :: positions_from (S i) k tl
      else positions_from (S i) k tl
  end.

(** The rows of one side that an outer join pairs with key [k]: every
    row carrying [k], or a single missing row. *)
Definition indexer (k : Month) (idx : list Month) : list (option nat) :=
  match positions_from 0 k idx with
  | [] => [None]
  | l => map Some l
  end.

Definition overlap (a b : list string) : bool :=
  existsb (fun x => existsb (String.eqb x) b) a.

(** [left.join(right, how='outer')] on the index: the keys of the result
    are the sorted union of both indexes; under each key the matching
    rows of both sides are paired; the columns are those of the left
    followed by those of the right; a shared column name is refused. *)
Definition join_outer (L R : DataFrame) : result DataFrame :=
  if overlap (names L) (names R) then Raise ValueError
  else
    let keys := sort_unique (index L ++ index R) in
    let plan :=
      flat_map (fun k =>
                  map (fun lr => (k, lr))
                      (list_prod (indexer k (index L)) (indexer k (index R))))
               keys in
    let lpos := map (fun p => fst (snd p)) plan in
    let rpos := map (fun p => snd (snd p)) plan in
    Ok (mkDF (map fst plan)
             (map (take_col lpos) (columns L) ++ map (take_col rpos) (columns R))).

(** Positions of the rows kept by a predicate on the key. *)
Fixpoint where_from (i : nat) (p : Month -> bool) (idx : list Month)
  : list (option nat) :=
  match idx with
  | [] => []
  | x :: tl =>
      if p x then Some i :: where_from (S i) p tl else where_from (S i) p tl
  end.

(** [df[START_DATE:END_DATE]].  The frames sliced by the pipeline have a
    sorted index, on which the label slice keeps exactly the rows of the
    window. *)
Definition slice_window (df : DataFrame) : DataFrame :=
  mkDF (filter in_window (index df))
       (map (take_col (where_from 0 in_window (index df))) (columns df)).

(** [df.sort_index()]: rows permuted into ascending key order. *)
Definition argsort (idx : list Month) : list (option nat) :=
  map (fun p => Some (fst p))
      (isort (fun a b : nat * Month => Z.leb (snd a) (snd b))
             (combine (seq 0 (List.length idx)) idx)).

Definition sort_index (df : DataFrame) : DataFrame :=
  mkDF (isort Z.leb (index df))
       (map (take_col (argsort (index df))) (columns df)).

(** [df.interpolate(method='linear', limit_direction='both')] *)
Definition interpolate_frame (df : DataFrame) : DataFrame :=
  mkDF (index df)
       (map (fun c => (fst c, Interp.interpolate (snd c))) (columns df)).

(** Cell of column [c] in the first row whose key is [k]. *)
Definition col_values (c : string) (df : DataFrame) : option (list cell) :=
  option_map snd (find (fun nc => String.eqb (fst nc) c) (columns df)).

Definition cell_at (df : DataFrame) (k : Month) (c : string) : option cell :=
  match col_values c df, positions_from 0 k (index df) with
  | Some vals, i :: _ => Some (nth i vals None)
  | _, _ => None
  end.

(* ================================================================== *)
(** ** Python strings

    Strings are byte strings; the text handled here is ASCII, on which
    the functions below agree with Python's [str] methods. *)
(* ================================================================== *)

Module PyStr.

Definition code (c : ascii) : N := N_of_ascii c.

Definition is_upper (c : ascii) : bool := (65 <=? code c)%N && (code c <=? 90)%N.
Definition is_lower (c : ascii) : bool := (97 <=? code c)%N && (code c <=? 122)%N.
Definition is_alpha (c : ascii) : bool := is_upper c || is_lower c.

Definition lower_char (c : ascii) : ascii :=
  if is_upper c then ascii_of_N (code c + 32) else c.
Definition upper_char (c : ascii) : ascii :=
  if is_lower c then ascii_of_N (code c - 32) else c.

Fixpoint smap (f : ascii -> ascii) (s : string) : string :=
  match s with
  | EmptyString => EmptyString
  | String c tl => String (f c) (smap f tl)
  end.

(** [s.lower()], [s.upper()] *)
Definition lower (s : string) : string := smap lower_char s.
Definition upper (s : string) : string := smap upper_char s.

(** [s.title()]: the first letter of every run of letters in upper
    case, the others in lower case. *)
Fixpoint title_from (in_word : bool) (s : string) : string :=
  match s with
  | EmptyString => EmptyString
  | String c tl =>
      String (if in_word then lower_char c else upper_char c)
             (title_from (is_alpha c) tl)
  end.
Definition title (s : string) : string := title_from false s.

(** [s.replace(a, b)] for single characters. *)
Definition replace_char (a b : ascii) (s : string) : string :=
  smap (fun c => if Ascii.eqb c a then b else c) s.

(** [pat in s] *)
Fixpoint contains (pat s : string) : bool :=
  String.prefix pat s ||
  match s with
  | EmptyString => false
  | String _ tl => contains pat tl
  end.

(** Characters removed by [strip()]. *)
Definition is_space (c : ascii) : bool :=
  ((9 <=? code c)%N && (code c <=? 13)%N) ||
  ((28 <=? code c)%N && (code c <=? 32)%N).

Fixpoint lstrip (s : string) : string :=
  match s with
  | EmptyString => EmptyString
  | String c tl => if is_space c then lstrip tl else s
  end.

(** [not s.strip()] *)
Definition is_blank (s : string) : bool :=
  match lstrip s with EmptyString => true | _ => false end.

Fixpoint rstrip (s : string) : string :=
  match s with
  | EmptyString => EmptyString
  | String c tl =>
      match rstrip tl with
      | EmptyString => if is_space c then EmptyString else String c EmptyString
      | r => String c r
      end
  end.

Definition strip (s : string) : string := rstrip (lstrip s).

(** The blanks that [float] skips around a literal: the characters from
    tab to carriage return and the space.  [str.strip] takes off the
    separators 28 to 31 as well, [float] refuses a text with one of
    them. *)
Definition is_c_space (c : ascii) : bool :=
  ((9 <=? code c)%N && (code c <=? 13)%N) || (code c =? 32)%N.

Fixpoint lstrip_c (s : string) : string :=
  match s with
  | EmptyString => EmptyString
  | String c tl => if is_c_space c then lstrip_c tl else s
  end.

Fixpoint rstrip_c (s : string) : string :=
  match s with
  | EmptyString => EmptyString
  | String c tl =>
      match rstrip_c tl with
      | EmptyString => if is_c_space c then EmptyString else String c EmptyString
      | r => String c r
      end
  end.

Definition float_strip (s : string) : string := rstrip_c (lstrip_c s).

(** [s.split(sep)] for a single character. *)
Fixpoint split_on (sep : ascii) (s : string) : list string :=
  match s with
  | EmptyString => [EmptyString]
  | String c tl =>
      if Ascii.eqb c sep then EmptyString :: split_on sep tl
      else match split_on sep tl with
           | [] => [String c EmptyString]
           | h :: r => String c h :: r
           end
  end.

(** [s[1:]] *)
Definition tail (s : string) : string :=
  match s with
  | EmptyString => EmptyString
  | String _ tl => tl
  end.

Definition digit_of (c : ascii) : option Z :=
  if (48 <=? code c)%N && (code c <=? 57)%N
  then Some (Z.of_N (code c) - 48)%Z else None.

Fixpoint digits_val (acc : Z) (s : string) : option Z :=
  match s with
  | EmptyString => Some acc
  | String c tl =>
      match digit_of c with
      | Some d => digits_val (10 * acc + d)%Z tl
      | None => None
      end
  end.

(** Value of a non-empty string of decimal digits. *)
Definition number (s : string) : option Z :=
  match s with
  | EmptyString => None
  | _ => digits_val 0 s
  end.

(** [float(s)] on a decimal literal: surrounding blanks, an optional
    sign, digits with at most one point and at least one digit; the
    value is the exact decimal where Python rounds to binary64.
    Literals with an exponent or with underscores between digits and
    the words [inf], [infinity] and [nan] are numbers for Python and
    are left out of the model, which answers [None] on them; on the
    texts marked by [surely_not_float] the answer [None] stands for the
    [ValueError] of Python. *)
Definition unsigned_float (s : string) : option Q :=
  match split_on "." s with
  | [i] => option_map inject_Z (number i)
  | [i; f] =>
      match i, f with
      | EmptyString, EmptyString => None
      | _, _ =>
          match digits_val 0 i, digits_val 0 f with
          | Some a, Some b =>
              Some (inject_Z (a * 10 ^ Z.of_nat (String.length f) + b)
                    / inject_Z (10 ^ Z.of_nat (String.length f)))%Q
          | _, _ => None
          end
      end
  | _ => None
  end.

Definition float (s : string) : option Q :=
  match float_strip s with
  | String "-" r => option_map Qopp (unsigned_float r)
  | String "+" r => unsigned_float r
  | r => unsigned_float r
  end.

End PyStr.

(* ================================================================== *)
(** ** [pd.to_datetime]

    The date strings met by the parsers are either built by the parsers
    themselves, as year-month-day separated by hyphens, or are the row
    headers of the scraped price tables, a month name and a year.  The
    model reads these two shapes and no other: pandas reads more (a
    month name and a year separated by a blank, other orders and
    separators), so that [None] says that the string is not of the two
    shapes, which for a string of another shape may be a date for
    pandas ([NaT] under [errors='coerce'], an exception otherwise, when
    it is none).  The predicate [legible] marks the scraped tables on
    which the two readers agree.  Years are those representable in full
    as nanosecond timestamps, the only unit of pandas 1 and 2; pandas 3
    reads later years in a coarser unit. *)
(* ================================================================== *)

Module Dates.

Definition valid_year (y : Z) : bool := (1678 <=? y)%Z && (y <=? 2261)%Z.

Definition leap (y : Z) : bool :=
  ((y mod 4 =? 0) && negb (y mod 100 =? 0) || (y mod 400 =? 0))%Z.

Definition days_in_month (y m : Z) : Z :=
  if (m =? 2)%Z then (if leap y then 29 else 28)%Z
  else if ((m =? 4) || (m =? 6) || (m =? 9) || (m =? 11))%Z then 30%Z
  else 31%Z.

(** A field of one or two digits. *)
Definition short_number (s : string) : option Z :=
  if (String.length s <=? 2)%nat then PyStr.number s else None.

(** A year of four digits. *)
Definition year_number (s : string) : option Z :=
  if (String.length s =? 4)%nat then
    match PyStr.number s with
    | Some y => if valid_year y then Some y else None
    | None => None
    end
  else None.

Definition parse_ymd (s : string) : option date :=
  match PyStr.split_on "-" s with
  | [ys; ms; ds] =>
      match year_number ys, short_number ms, short_number ds with
      | Some y, Some m, Some d =>
          if ((1 <=? m) && (m <=? 12) && (1 <=? d) && (d <=? days_in_month y m))%Z
          then Some (mkDate y m d) else None
      | _, _, _ => None
      end
  | _ => None
  end.

Definition month_abbrevs : list (string * Z) :=
  [("jan", 1); ("feb", 2); ("mar", 3); ("apr", 4); ("may", 5); ("jun", 6);
   ("jul", 7); ("aug", 8); ("sep", 9); ("oct", 10); ("nov", 11); ("dec", 12)]%Z%string.

Definition month_named (s : string) : option Z :=
  option_map snd
    (find (fun p => String.eqb (fst p) (PyStr.lower s)) month_abbrevs).

(** A header such as [Oct-2023] or [2023-Oct]: the first of that month. *)
Definition parse_month_year (s : string) : option date :=
  match PyStr.split_on "-" s with
  | [a; b] =>
      match month_named a, year_number b, year_number a, month_named b with
      | Some m, Some y, _, _ => Some (mkDate y m 1)
      | _, _, Some y, Some m => Some (mkDate y m 1)
      | _, _, _, _ => None
      end
  | _ => None
  end.

Definition to_datetime (s : string) : option date :=
  match parse_ymd s with
  | Some d => Some d
  | None => parse_month_year s
  end.

(** [str(n)] for a year of four digits. *)
Definition digit_char (d : Z) : ascii := ascii_of_N (Z.to_N d + 48).

Definition str_year (y : Z) : string :=
  String (digit_char (y / 1000))
    (String (digit_char ((y / 100) mod 10))
       (String (digit_char ((y / 10) mod 10))
          (String (digit_char (y mod 10)) EmptyString))).

End Dates.

(* ================================================================== *)
(** ** Arithmetic on cells

    Arithmetic with a missing operand is missing.  A quotient by zero is
    an infinity in pandas ([0 / 0] is NaN), which is not a missing cell
    and not a rational: the embedding has no value for it and writes
    [None], so that columns with a zero divisor are outside of what the
    embedding describes.  Sums, products and quotients are exact where
    pandas rounds to binary64. *)
(* ================================================================== *)

Definition cell_div (a b : cell) : cell :=
  match a, b with
  | Some x, Some y => if Qeq_bool y 0 then None else Some (x / y)%Q
  | _, _ => None
  end.

Definition cell_sub (a b : cell) : cell :=
  match a, b with
  | Some x, Some y => Some (x - y)%Q
  | _, _ => None
  end.

Definition cell_mul (a b : cell) : cell :=
  match a, b with
  | Some x, Some y => Some (x * y)%Q
  | _, _ => None
  end.

Definition cell_of_Z (z : Z) : cell := Some (inject_Z z).

(** [col.ffill()] *)
Fixpoint ffill_from (prev : cell) (col : list cell) : list cell :=
  match col with
  | [] => []
  | Some v :: tl => Some v :: ffill_from (Some v) tl
  | None :: tl => prev :: ffill_from prev tl
  end.

Definition ffill (col : list cell) : list cell := ffill_from None col.

(** [col.shift(n)] for [n >= 0] *)
Definition shift (n : nat) (col : list cell) : list cell :=
  firstn (List.length col) (repeat None n ++ col).

Fixpoint zip_with (f : cell -> cell -> cell) (a b : list cell) : list cell :=
  match a, b with
  | x :: a', y :: b' => f x y :: zip_with f a' b'
  | _, _ => []
  end.

(** [col.pct_change(periods=n)]: [data / data.shift(n) - 1], where
    [data] is the column itself or, with the fill method 'pad' (the
    default of pandas 1 and 2), the column filled forward. *)
Definition padded (pad : bool) (col : list cell) : list cell :=
  if pad then ffill col else col.

Definition pct_change (pad : bool) (n : nat) (col : list cell) : list cell :=
  let data := padded pad col in
  zip_with (fun x p => cell_sub (cell_div x p) (cell_of_Z 1)) data (shift n data).

(** The value a function returns to [merge_all_data]. *)
Inductive pyval : Type :=
| PyNone
| Frame (df : DataFrame).

(** A parser result without data: [None] or an empty frame. *)
Definition no_data (d : pyval) : bool :=
  match d with
  | PyNone => true
  | Frame df => df_empty df
  end.

(* ================================================================== *)
(** ** Source A: [clean_cpi_data] *)
(* ================================================================== *)

Module CPI.

Record item : Type := mkItem { year : string; period : string; value : string }.
Record series : Type := mkSeries { seriesID : string; data : list item }.

(** The decoded JSON document, as far as the parser looks into it. *)
Inductive payload : Type :=
| NoResults                    (* no key 'Results' *)
| NoSeries                     (* 'Results' without the key 'series' *)
| Series (l : list series).

Definition series_map : list (string * string) :=
  [("CUUR0000SA0", "CPI_Total"); ("CUUR0000SAF1", "CPI_Food");
   ("CUUR0000SA0E", "CPI_Energy"); ("CUUR0000SAH1", "CPI_Shelter")]%string.

(** [series_map.get(series_id, series_id)] *)
Definition col_name (series_id : string) : string :=
  match find (fun p => String.eqb (fst p) series_id) series_map with
  | Some p => snd p
  | None => series_id
  end.

(** ['M01' <= period <= 'M12'], the order of Python strings. *)
Definition month_code (p : string) : bool :=
  String.leb "M01" p && String.leb p "M12".

Record record : Type := mkRecord { r_date : string; r_type : string; r_value : Q }.

Definition date_str (it : item) : string :=
  (year it ++ "-" ++ PyStr.tail (period it) ++ "-01")%string.

(** The inner loop: the records of one series.  [float(value)] raises
    [ValueError] on a string that is not a number. *)
Fixpoint series_records (name : string) (items : list item) : result (list record) :=
  match items with
  | [] => Ok []
  | it :: tl =>
      if month_code (period it) then
        match PyStr.float (value it) with
        | Some v =>
            rest <- series_records name tl ;;
            Ok (mkRecord (date_str it) name v :: rest)
        | None => Raise ValueError
        end
      else series_records name tl
  end.

Fixpoint all_records (l : list series) : result (list record) :=
  match l with
  | [] => Ok []
  | s :: tl =>
      here <- series_records (col_name (seriesID s)) (data s) ;;
      rest <- all_records tl ;;
      Ok (here ++ rest)
  end.

Definition sort_unique_str (l : list string) : list string :=
  isort String.leb (nodup string_dec l).

Definition same_key (a b : record) : bool :=
  String.eqb (r_date a) (r_date b) && String.eqb (r_type a) (r_type b).

Fixpoint has_duplicate_key (l : list record) : bool :=
  match l with
  | [] => false
  | r :: tl => existsb (same_key r) tl || has_duplicate_key tl
  end.

Definition pivot_cell (recs : list record) (t d : string) : cell :=
  option_map r_value
    (find (fun r => String.eqb (r_date r) d && String.eqb (r_type r) t) recs).

(** [pd.DataFrame(all_records).pivot(index='date', columns='type',
    values='value')]: a frame built from no record has no column
    'date' ([KeyError]); two records with the same date and type cannot
    be reshaped ([ValueError]); otherwise the sorted dates label the
    rows and the sorted types the columns. *)
Definition pivot (recs : list record)
  : result (list string * list (string * list cell)) :=
  match recs with
  | [] => Raise KeyError
  | _ =>
      if has_duplicate_key recs then Raise ValueError
      else
        let dates := sort_unique_str (map r_date recs) in
        let types := sort_unique_str (map r_type recs) in
        Ok (dates, map (fun t => (t, map (pivot_cell recs t) dates)) types)
  end.

(** [pd.to_datetime(df_pivot.index)] raises when a label is not a date. *)
Fixpoint to_datetime_index (labels : list string) : result (list Month) :=
  match labels with
  | [] => Ok []
  | s :: tl =>
      match Dates.to_datetime s with
      | Some d =>
          rest <- to_datetime_index tl ;;
          Ok (month_of d :: rest)
      | None => Raise ValueError
      end
  end.

(** [df[name] = vals]: an existing column is replaced in place, a new
    one is appended. *)
Definition set_column (name : string) (vals : list cell)
  (cols : list (string * list cell)) : list (string * list cell) :=
  if existsb (fun c => String.eqb (fst c) name) cols
  then map (fun c => if String.eqb (fst c) name then (name, vals) else c) cols
  else cols ++ [(name, vals)].

Definition get_column (name : string) (cols : list (string * list cell))
  : option (list cell) :=
  option_map snd (find (fun c => String.eqb (fst c) name) cols).

Definition times100 (col : list cell) : list cell :=
  map (fun c => cell_mul c (cell_of_Z 100)) col.

Section Fill.
(** The default fill method of [pct_change]: 'pad' in pandas 1 and 2,
    none in pandas 3. *)
Variable pad : bool.

(** [df_pivot[col].pct_change(periods=12) * 100] *)
Definition yoy (col : list cell) : list cell :=
  times100 (pct_change pad 12 col).

(** The loop over the columns the pivot table had before the loop. *)
Definition add_yoy (original : list string) (cols : list (string * list cell))
  : list (string * list cell) :=
  fold_left
    (fun acc col =>
       match get_column col acc with
       | Some vals => set_column (col ++ "_YoY")%string (yoy vals) acc
       | None => acc
       end)
    original cols.

Definition clean_cpi_data (f : raw_file payload) : result pyval :=
  match f with
  | NotFound => Ok PyNone
  | Unreadable => Raise ValueError
  | Undecodable => Raise ValueError
  | Loaded NoResults => Ok PyNone
  | Loaded NoSeries => Ok PyNone
  | Loaded (Series l) =>
      recs <- all_records l ;;
      pv <- pivot recs ;;
      idx <- to_datetime_index (fst pv) ;;
      let df_pivot := sort_index (mkDF idx (snd pv)) in
      Ok (Frame (mkDF (index df_pivot)
                      (add_yoy (names df_pivot) (columns df_pivot))))
  end.
End Fill.

End CPI.

(* ================================================================== *)
(** ** Resampling to month starts *)
(* ================================================================== *)

Definition Qsum (l : list Q) : Q := fold_right Qplus (inject_Z 0) l.

(** Mean of the values of a bucket; an empty bucket is missing.  The
    sum and the quotient are exact where pandas rounds to binary64. *)
Definition mean (l : list Q) : cell :=
  match l with
  | [] => None
  | _ => Some (Qsum l / Qnat (List.length l))%Q
  end.

(** The consecutive months from [lo] to [hi]. *)
Definition month_range (lo hi : Month) : list Month :=
  map (fun i => (lo + Z.of_nat i)%Z) (seq 0 (Z.to_nat (hi - lo + 1))).

Definition min_month (m : Month) (l : list Month) : Month := fold_right Z.min m l.
Definition max_month (m : Month) (l : list Month) : Month := fold_right Z.max m l.

(** The buckets of [resample('MS')]: every month from the earliest to
    the latest observation. *)
Definition buckets (months : list Month) : list Month :=
  match months with
  | [] => []
  | m :: tl => month_range (min_month m tl) (max_month m tl)
  end.

Definition bucket_values (pts : list (Month * Q)) (k : Month) : list Q :=
  map snd (filter (fun p => Z.eqb (fst p) k) pts).

(** [df.resample('MS').mean()] of a one-column frame of observations. *)
Definition resample_mean (name : string) (pts : list (Month * Q)) : DataFrame :=
  let idx := buckets (map fst pts) in
  mkDF idx [(name, map (fun k => mean (bucket_values pts k)) idx)].

(** The accumulation shared by the energy and the labor parser:
    [combined_df = df if combined_df.empty else combined_df.join(df, how='outer')]. *)
Definition combine_with (combined df : DataFrame) : result DataFrame :=
  if df_empty combined then Ok df else join_outer combined df.

(* ================================================================== *)
(** ** Source B: [clean_energy_data]

    A raw file is the table the scraper wrote: a list of rows, each a
    list of the non-empty cell texts.  Every token being a string, the
    [isinstance] guards of the parser always pass. *)
(* ================================================================== *)

Module Energy.

(** The pairs after the header: a date fragment and a price.  A blank
    token or a price that [float] refuses skips the pair; a last token
    without partner ends the row. *)
Fixpoint parse_pairs (year_str : string) (data_pairs : list string)
  : list (option date * Q) :=
  match data_pairs with
  | date_part :: price_str :: rest =>
      if PyStr.is_blank date_part || PyStr.is_blank price_str
      then parse_pairs year_str rest
      else
        match PyStr.float price_str with
        | Some val =>
            let full_date_str :=
              (year_str ++ "-" ++ PyStr.replace_char "/" "-" date_part)%string in
            (Dates.to_datetime full_date_str, val) :: parse_pairs year_str rest
        | None => parse_pairs year_str rest
        end
  | _ => []
  end.

(** One row: the year is read from the header; a row that is empty or
    whose header is not a date gives nothing. *)
Definition parse_row (row : list string) : list (option date * Q) :=
  match row with
  | [] => []
  | header_date :: data_pairs =>
      match Dates.to_datetime header_date with
      | None => []
      | Some d => parse_pairs (Dates.str_year (d_year d)) data_pairs
      end
  end.

Definition parsed_data (raw_list : list (list string)) : list (option date * Q) :=
  flat_map parse_row raw_list.

(** [dropna(subset=['date'])] and [set_index('date')] *)
Fixpoint dated (l : list (option date * Q)) : list (date * Q) :=
  match l with
  | [] => []
  | (Some d, v) :: tl => (d, v) :: dated tl
  | (None, _) :: tl => dated tl
  end.

Definition monthly (name : string) (raw_list : list (list string))
  : option DataFrame :=
  match parsed_data raw_list with
  | [] => None
  | parsed =>
      Some (resample_mean name
              (map (fun p => (month_of (fst p), snd p)) (dated parsed)))
  end.

Record sources : Type := mkSources {
  gasoline : raw_file (list (list string));
  diesel : raw_file (list (list string));
  crude_wti : raw_file (list (list string))
}.

Definition files (s : sources) : list (string * raw_file (list (list string))) :=
  [("Gas_Price", gasoline s); ("Diesel_Price", diesel s);
   ("Oil_Price", crude_wti s)]%string.

(** One turn of the loop over the files: [FileNotFoundError] and
    [json.JSONDecodeError] are caught and the file is passed over; a
    file that is not UTF-8 text raises [UnicodeDecodeError], which
    neither handler catches. *)
Definition add_file (combined_df : DataFrame)
  (f : string * raw_file (list (list string))) : result DataFrame :=
  match snd f with
  | NotFound => Ok combined_df
  | Unreadable => Raise ValueError
  | Undecodable => Ok combined_df
  | Loaded raw_list =>
      match monthly (fst f) raw_list with
      | None => Ok combined_df
      | Some df_monthly => combine_with combined_df df_monthly
      end
  end.

Fixpoint add_files (combined_df : DataFrame)
  (l : list (string * raw_file (list (list string)))) : result DataFrame :=
  match l with
  | [] => Ok combined_df
  | f :: tl =>
      next <- add_file combined_df f ;;
      add_files next tl
  end.

Definition clean_energy_data (s : sources) : result DataFrame :=
  combined_df <- add_files empty_frame (files s) ;;
  if df_empty combined_df then Ok empty_frame
  else Ok (sort_index (slice_window combined_df)).

End Energy.

(* ================================================================== *)
(** ** Source C: [clean_labor_data]

    A raw file is the table [read_csv] returns, with the column names
    already stripped: the years of the column 'Year' and, for every
    other column, the entries as [to_numeric(errors='coerce')] reads
    them.  A file that cannot be read ([Unreadable]), or that
    [read_csv] refuses or that has no column 'Year' ([Undecodable]),
    raises inside the [try] block, where [except Exception] catches
    it. *)
(* ================================================================== *)

Module Labor.

Record matrix : Type := mkMatrix {
  value_cols : list string;
  year_rows : list (Z * list cell)
}.

Definition month_map : list (string * Z) :=
  [("Jan", 1); ("Feb", 2); ("Mar", 3); ("Apr", 4); ("May", 5); ("Jun", 6);
   ("Jul", 7); ("Aug", 8); ("Sep", 9); ("Oct", 10); ("Nov", 11); ("Dec", 12)]%Z%string.

Definition month_num (name : string) : option Z :=
  option_map snd (find (fun p => String.eqb (fst p) name) month_map).

(** [melt(id_vars=["Year"])]: column after column, and in each one row
    after row. *)
Definition melt (m : matrix) : list (Z * string * cell) :=
  flat_map
    (fun jc => map (fun r => (fst r, snd jc, nth (fst jc) (snd r) None))
                   (year_rows m))
    (combine (seq 0 (List.length (value_cols m))) (value_cols m)).

(** The rows with a month name, dated; a year that gives no timestamp
    raises. *)
Fixpoint dated (l : list (Z * string * cell)) : result (list (Month * cell)) :=
  match l with
  | [] => Ok []
  | (y, name, rate) :: tl =>
      match month_num name with
      | None => dated tl
      | Some mm =>
          if Dates.valid_year y then
            rest <- dated tl ;;
            Ok ((ym y mm, rate) :: rest)
          else Raise ValueError
      end
  end.

(** [sort_values('date').set_index('date')] and the renaming of the
    column.  The default sort of pandas (quicksort) fixes no order
    among rows of the same date; the embedding keeps them in the order
    of the melted table.  The rows have distinct dates when the file
    has one row per year and one column per month name. *)
Definition df_clean (name : string) (rows : list (Month * cell)) : DataFrame :=
  let sorted :=
    isort (fun a b : Month * cell => Z.leb (fst a) (fst b)) rows in
  mkDF (map fst sorted) [(name, map snd sorted)].

Record sources : Type := mkSources {
  total : raw_file matrix;
  men : raw_file matrix;
  women : raw_file matrix
}.

Definition files (s : sources) : list (string * raw_file matrix) :=
  [("Unemp_Total", total s); ("Unemp_Men", men s); ("Unemp_Women", women s)]%string.

(** One turn of the loop: any exception leaves [combined_df] as it was. *)
Definition add_file (combined_df : DataFrame) (f : string * raw_file matrix)
  : DataFrame :=
  match snd f with
  | NotFound => combined_df
  | Unreadable => combined_df
  | Undecodable => combined_df
  | Loaded m =>
      match dated (melt m) with
      | Raise _ => combined_df
      | Ok rows =>
          match combine_with combined_df (df_clean (fst f) rows) with
          | Ok next => next
          | Raise _ => combined_df
          end
      end
  end.

Definition clean_labor_data (s : sources) : DataFrame :=
  let combined_df := fold_left add_file (files s) empty_frame in
  if df_empty combined_df then combined_df
  else sort_index (slice_window combined_df).

End Labor.

(* ================================================================== *)
(** ** Source D: [clean_news_data]

    An article carries the timestamp that [pd.to_datetime] with
    [errors='coerce'] reads from its date field, the time zone dropped:
    a calendar date and the seconds since midnight, or nothing when the
    field is not a date.  Headline and snippet are texts or null.  The
    articles are records as the collector of src/get_data.py writes
    them, each with the keys 'headline' and 'snippet': on a list in
    which no record has one of these keys the code raises [KeyError] at
    [df['headline']] or [df['snippet']], which the embedding, where the
    parser is a total function, does not describe ([has_text] marks
    lists for which the two columns exist for certain). *)
(* ================================================================== *)

Module News.

Record stamp : Type := mkStamp { s_date : date; s_secs : Z }.

Record article : Type := mkArticle {
  pub : option stamp;
  headline : option string;
  snippet : option string
}.

Definition date_key (d : date) : Z := (32 * month_of d + d_day d)%Z.

(** [(date >= START_DATE) & (date <= END_DATE)], both bounds at
    midnight. *)
Definition in_period (t : stamp) : bool :=
  let k := date_key (s_date t) in
  ((date_key START_DATE <=? k) &&
   ((k <? date_key END_DATE) || ((k =? date_key END_DATE) && (s_secs t <=? 0))))%Z.

Definition fillna (s : option string) : string :=
  match s with Some x => x | None => EmptyString end.

(** [(headline.fillna('') + " " + snippet.fillna('')).str.lower()] *)
Definition full_text (a : article) : string :=
  PyStr.lower (fillna (headline a) ++ " " ++ fillna (snippet a))%string.

Definition keywords : list string :=
  ["inflation"; "recession"; "crisis"; "high price"; "layoff"; "unemployment"]%string.

(** [f"News_Count_{kw.title().replace(' ', '_')}"] *)
Definition count_col (kw : string) : string :=
  ("News_Count_" ++ PyStr.replace_char " " "_" (PyStr.title kw))%string.

(** [str.contains(kw, case=False, regex=False).astype(int)]: pandas
    looks for [kw.upper()] in the upper-cased text. *)
Definition indicator (kw : string) (text : string) : Z :=
  if PyStr.contains (PyStr.upper kw) (PyStr.upper text) then 1%Z else 0%Z.

Definition Zsum (l : list Z) : Z := fold_right Z.add 0%Z l.

(** The articles that survive [dropna] and the period filter, with
    their month. *)
Fixpoint kept (l : list article) : list (Month * article) :=
  match l with
  | [] => []
  | a :: tl =>
      match pub a with
      | Some t =>
          if in_period t then (month_of (s_date t), a) :: kept tl else kept tl
      | None => kept tl
      end
  end.

(** Sum of the indicator of [kw] over the articles of month [k]. *)
Definition month_count (rows : list (Month * article)) (kw : string) (k : Month) : Z :=
  Zsum (map (fun r => indicator kw (full_text (snd r)))
            (filter (fun r => Z.eqb (fst r) k) rows)).

(** [df[news_cols].resample('MS').sum()] and the total column. *)
Definition monthly_counts (rows : list (Month * article)) : DataFrame :=
  let idx := buckets (map fst rows) in
  mkDF idx
    (map (fun kw => (count_col kw, map (fun k => cell_of_Z (month_count rows kw k)) idx))
         keywords
     ++ [("News_Total_Counting"%string,
          map (fun k => cell_of_Z (Zsum (map (fun kw => month_count rows kw k) keywords)))
              idx)]).

(** The JSON chunks found in the raw directory, directly or after the
    archive was unpacked; [None] when there is neither chunk nor
    archive.  A chunk that cannot be read, or is not a list, adds
    nothing. *)
Definition source : Type := option (list (raw_file (list article))).

Definition all_articles (chunks : list (raw_file (list article))) : list article :=
  flat_map (fun f => match f with Loaded l => l | _ => [] end) chunks.

Definition clean_news_data (src : source) : DataFrame :=
  match src with
  | None => empty_frame
  | Some chunks =>
      match all_articles chunks with
      | [] => empty_frame
      | articles => monthly_counts (kept articles)
      end
  end.

End News.

(* ================================================================== *)
(** ** [merge_all_data] *)
(* ================================================================== *)

Module Merge.

(** How a run of [merge_all_data] ends. *)
Inductive outcome : Type :=
| Crashed (e : exn)            (* an exception leaves the function *)
| NoDataError                  (* "Error: No data available to merge." and return *)
| Saved (final_df : DataFrame).  (* final_dataset.csv is written *)

(** [[d for d in [df1, df2, df3, df4] if not d.empty]]: [None] has no
    attribute [empty]. *)
Fixpoint non_empty (l : list pyval) : result (list DataFrame) :=
  match l with
  | [] => Ok []
  | PyNone :: _ => Raise AttributeError
  | Frame df :: tl =>
      rest <- non_empty tl ;;
      Ok (if df_empty df then rest else df :: rest)
  end.

Fixpoint join_all (final_df : DataFrame) (rest : list DataFrame) : result DataFrame :=
  match rest with
  | [] => Ok final_df
  | df :: tl =>
      joined <- join_outer final_df df ;;
      join_all joined tl
  end.

(** The function after the four parsers have returned. *)
Definition merge_frames (dfs : list pyval) : outcome :=
  match non_empty dfs with
  | Raise e => Crashed e
  | Ok [] => NoDataError
  | Ok (first :: rest) =>
      match join_all first rest with
      | Raise e => Crashed e
      | Ok final_df => Saved (interpolate_frame (slice_window final_df))
      end
  end.

Record raw_dir : Type := mkRaw {
  cpi : raw_file CPI.payload;
  energy : Energy.sources;
  labor : Labor.sources;
  news : News.source
}.

Section Fill.
Variable pad : bool.

Definition merge_all_data (raw : raw_dir) : outcome :=
  match CPI.clean_cpi_data pad (cpi raw) with
  | Raise e => Crashed e
  | Ok df1 =>
      match Energy.clean_energy_data (energy raw) with
      | Raise e => Crashed e
      | Ok df2 =>
          merge_frames [df1; Frame df2;
                        Frame (Labor.clean_labor_data (labor raw));
                        Frame (News.clean_news_data (news raw))]
      end
  end.
End Fill.

End Merge.

(* ================================================================== *)
(** ** Sample inputs *)
(* ================================================================== *)

Module Sample.

Open Scope string_scope.

Definition no_energy : Energy.sources := Energy.mkSources NotFound NotFound NotFound.
Definition no_labor : Labor.sources := Labor.mkSources NotFound NotFound NotFound.

(** Two months of one price index, one week of gasoline prices. *)
Definition small_cpi : raw_file CPI.payload :=
  Loaded (CPI.Series
            [CPI.mkSeries "CUUR0000SA0"
               [CPI.mkItem "2016" "M03" "102.0"; CPI.mkItem "2016" "M13" "101.0";
                CPI.mkItem "2016" "M01" "100.0"]]).

Definition small_energy : Energy.sources :=
  Energy.mkSources (Loaded [["Feb-2016"; "02/01"; "2.0"]]) NotFound NotFound.

Definition small_raw : Merge.raw_dir :=
  Merge.mkRaw small_cpi small_energy no_labor None.

(** Nothing in the raw directory. *)
Definition empty_raw : Merge.raw_dir :=
  Merge.mkRaw NotFound no_energy no_labor None.

(** The price index is missing, the gasoline prices are there. *)
Definition raw_without_cpi : Merge.raw_dir :=
  Merge.mkRaw NotFound small_energy no_labor None.

(** A payload with annual and semi-annual records only. *)
Definition annual_only : list CPI.series :=
  [CPI.mkSeries "CUUR0000SA0"
     [CPI.mkItem "2016" "M13" "240.0"; CPI.mkItem "2016" "S01" "238.8";
      CPI.mkItem "2016" "S02" "241.2"]].

(** The row of the scraped gasoline table. *)
Definition ragged_row : list string :=
  ["Oct-2023"; "10/02"; "3.801"; "10/09"; "3.750"].

(** One price index from January 2016 to February 2017, the record of
    June 2016 left out. *)
Definition gapped_series : list CPI.series :=
  [CPI.mkSeries "CUUR0000SA0"
     [CPI.mkItem "2017" "M02" "300"; CPI.mkItem "2017" "M01" "250";
      CPI.mkItem "2016" "M12" "120"; CPI.mkItem "2016" "M11" "120";
      CPI.mkItem "2016" "M10" "120"; CPI.mkItem "2016" "M09" "120";
      CPI.mkItem "2016" "M08" "120"; CPI.mkItem "2016" "M07" "120";
      CPI.mkItem "2016" "M05" "120"; CPI.mkItem "2016" "M04" "120";
      CPI.mkItem "2016" "M03" "120"; CPI.mkItem "2016" "M02" "200";
      CPI.mkItem "2016" "M01" "100"]].

(** The scenario of the specification: thirteen months in a row. *)
Definition thirteen_months : list CPI.series :=
  [CPI.mkSeries "CUUR0000SA0"
     [CPI.mkItem "2017" "M01" "102.0";
      CPI.mkItem "2016" "M12" "101.0"; CPI.mkItem "2016" "M11" "101.0";
      CPI.mkItem "2016" "M10" "101.0"; CPI.mkItem "2016" "M09" "101.0";
      CPI.mkItem "2016" "M08" "101.0"; CPI.mkItem "2016" "M07" "101.0";
      CPI.mkItem "2016" "M06" "101.0"; CPI.mkItem "2016" "M05" "101.0";
      CPI.mkItem "2016" "M04" "101.0"; CPI.mkItem "2016" "M03" "101.0";
      CPI.mkItem "2016" "M02" "101.0"; CPI.mkItem "2016" "M01" "100.0"]].

(** An article of March 2020 with the keyword in capitals. *)
Definition loud_article : News.article :=
  News.mkArticle (Some (News.mkStamp (mkDate 2020 3 15) 18000))
                 (Some "INFLATION concerns") None.


(** Two monthly tables that share March 2016. *)
Definition table_a : DataFrame :=
  mkDF [ym 2016 1; ym 2016 3] [("a", [Some (inject_Z 1); Some (inject_Z 3)])].
Definition table_b : DataFrame :=
  mkDF [ym 2016 2; ym 2016 3] [("b", [Some (inject_Z 5); None])].

(** A labor matrix with two rows for the year 2016. *)
Definition repeated_year : Labor.sources :=
  Labor.mkSources
    (Loaded (Labor.mkMatrix ["Jan"; "Feb"; "Annual"]
               [(2016%Z, [Some (inject_Z 4); Some (inject_Z 5); None]);
                (2016%Z, [Some (inject_Z 6); Some (inject_Z 7); None])]))
    NotFound NotFound.

(** A labor matrix with one row per year. *)
Definition two_years : Labor.sources :=
  Labor.mkSources
    (Loaded (Labor.mkMatrix ["Jan"; "Feb"; "Annual"]
               [(2017%Z, [Some (inject_Z 4); Some (inject_Z 5); None]);
                (2016%Z, [Some (inject_Z 6); Some (inject_Z 7); None])]))
    NotFound NotFound.

(** A payload whose value for October 2025 is a dash. *)
Definition dash_value : list CPI.series :=
  [CPI.mkSeries "CUUR0000SA0"
     [CPI.mkItem "2025" "M10" "-"; CPI.mkItem "2025" "M09" "324.8"]].

(** A payload that lists the same month of the same series twice. *)
Definition listed_twice : list CPI.series :=
  [CPI.mkSeries "CUUR0000SA0"
     [CPI.mkItem "2016" "M02" "238.0"; CPI.mkItem "2016" "M01" "237.1"];
   CPI.mkSeries "CUUR0000SA0" [CPI.mkItem "2016" "M01" "237.1"]].

(** A column with a gap of three rows between two observations. *)
Definition gap_column : list cell :=
  [None; Some (inject_Z 10); None; None; None; Some (inject_Z 18); None].

(** A column with a gap at either end. *)
Definition edge_column : list cell :=
  [None; Some (inject_Z 1); Some (inject_Z 2); None].

End Sample.

(* ================================================================== *)
(** ** The wording of the specification for the keyword indicator *)
(* ================================================================== *)




(* ================================================================== *)
(** ** The wording of the specification for the year-over-year rate *)
(* ================================================================== *)

(** Following the specification:
    [(value[i] - value[i-12]) / value[i-12] * 100]. *)
Definition spec_yoy (v p : Q) : cell :=
  cell_mul (cell_div (Some (v - p)%Q) (Some p)) (cell_of_Z 100).

(** Every row is the month after the row above. *)
Fixpoint consecutive (idx : list Month) : bool :=
  match idx with
  | a :: tl =>
      match tl with
      | b :: _ => (b =? a + 1)%Z && consecutive tl
      | [] => true
      end
  | [] => true
  end.


(* ================================================================== *)
(** ** Predicates on the columns of the price-index table *)
(* ================================================================== *)

(** Name [a] is neither [b] nor [b] followed by the suffix. *)
Definition clear_of (suffix : string) (a b : string) : Prop :=
  a <> b /\ a <> (b ++ suffix)%string.

(** Column [c] has its rate next to it. *)
Definition rated (pad : bool) (cols : list (string * list cell)) (c : string) : Prop :=
  exists vals,
    CPI.get_column c cols = Some vals /\
    CPI.get_column (c ++ "_YoY")%string cols = Some (CPI.yoy pad vals).


(* ================================================================== *)
(** ** A frame as a family of functions of the month *)
(* ================================================================== *)

(** The row of key [k] in an index without duplicates. *)
Definition position (k : Month) (idx : list Month) : option nat :=
  hd None (indexer k idx).

(** The cell of a column under key [k]; missing when the key is not in
    the index. *)
Definition lookup_in (idx : list Month) (vals : list cell) (k : Month) : cell :=
  match position k idx with
  | Some i => nth i vals None
  | None => None
  end.

(** The columns of a frame, each as a function of the month. *)
Definition sources (df : DataFrame) : list (string * (Month -> cell)) :=
  map (fun c => (fst c, lookup_in (index df) (snd c))) (columns df).

(** The columns that functions of the month give over an index. *)
Definition render (keys : list Month) (s : list (string * (Month -> cell)))
  : list (string * list cell) :=
  map (fun nf => (fst nf, map (snd nf) keys)) s.

(** What the inputs of the merge step are taken to be: frames that are
    not empty, whose columns are as long as the index, and whose index
    is strictly increasing. *)
Definition monthly_table (df : DataFrame) : Prop :=
  df_empty df = false /\ wf_frame df /\ StronglySorted Z.lt (index df).


(** Frame [df] shows the functions [s] over a strictly increasing index
    outside of which they are missing. *)
Definition canonical (df : DataFrame) (s : list (string * (Month -> cell))) : Prop :=
  StronglySorted Z.lt (index df) /\
  columns df = render (index df) s /\
  (forall nf k, In nf s -> ~ In k (index df) -> snd nf k = None).


(* ================================================================== *)
(** ** Shapes of the raw inputs *)
(* ================================================================== *)

(** A matrix with one row per year and one column per name. *)
Definition tidy_matrix (m : Labor.matrix) : Prop :=
  NoDup (Labor.value_cols m) /\ NoDup (map fst (Labor.year_rows m)).

Definition tidy_file (f : raw_file Labor.matrix) : Prop :=
  match f with
  | Loaded m => tidy_matrix m
  | _ => True
  end.

(** The months of a melted matrix: for every column with a month name,
    that month of every year. *)
Definition column_months (m : Labor.matrix) (name : string) : list Month :=
  match Labor.month_num name with
  | Some mm => map (fun r => ym (fst r) mm) (Labor.year_rows m)
  | None => []
  end.

(** Every period code that passes the month filter has three
    characters, as in 'M01' .. 'M12'. *)
Definition plain_month_codes (l : list CPI.series) : Prop :=
  forall s it,
    In s l -> In it (CPI.data s) ->
    CPI.month_code (CPI.period it) = true ->
    String.length (CPI.period it) = 3.


(** A series without the records whose period code is no month code. *)
Definition only_month_items (s : CPI.series) : CPI.series :=
  CPI.mkSeries (CPI.seriesID s)
               (filter (fun it => CPI.month_code (CPI.period it)) (CPI.data s)).


(** The prices of a raw energy file that carry a date, each under its
    month: what [resample('MS')] is given. *)
Definition price_points (raw_list : list (list string)) : list (Month * Q) :=
  map (fun p => (month_of (fst p), snd p))
      (Energy.dated (Energy.parsed_data raw_list)).




(** The articles of month [k] among the kept ones. *)
Definition articles_of_month (rows : list (Month * News.article)) (k : Month)
  : list (Month * News.article) :=
  filter (fun r => Z.eqb (fst r) k) rows.


(* ================================================================== *)
(** ** The accumulation of the energy and the labor parser, file by file *)
(* ================================================================== *)

(** The table a raw file adds to [combined_df], if it adds one. *)
Definition energy_table (f : string * raw_file (list (list string)))
  : option DataFrame :=
  match snd f with
  | Loaded raw_list => Energy.monthly (fst f) raw_list
  | _ => None
  end.

Definition labor_table (f : string * raw_file Labor.matrix) : option DataFrame :=
  match snd f with
  | Loaded m =>
      match Labor.dated (Labor.melt m) with
      | Ok rows => Some (Labor.df_clean (fst f) rows)
      | Raise _ => None
      end
  | _ => None
  end.

Definition table_names (o : option DataFrame) : list string :=
  match o with
  | Some t => names t
  | None => []
  end.

(** The loop of both parsers, seen on the tables of the files. *)
Fixpoint accumulate (combined : DataFrame) (ts : list (option DataFrame))
  : result DataFrame :=
  match ts with
  | [] => Ok combined
  | None :: tl => accumulate combined tl
  | Some t :: tl =>
      next <- combine_with combined t ;;
      accumulate next tl
  end.

(** Every year of the matrix can be made a timestamp. *)
Definition valid_years (m : Labor.matrix) : Prop :=
  Forall (fun r => Dates.valid_year (fst r) = true) (Labor.year_rows m).


(** The column names the energy, labor and news parsers can write. *)
Definition fixed_columns : list string :=
  ["Gas_Price"; "Diesel_Price"; "Oil_Price";
   "Unemp_Total"; "Unemp_Men"; "Unemp_Women";
   "News_Count_Inflation"; "News_Count_Recession"; "News_Count_Crisis";
   "News_Count_High_Price"; "News_Count_Layoff"; "News_Count_Unemployment";
   "News_Total_Counting"]%string.


(* ================================================================== *)
(** ** [run_analysis.py]: what is chosen from the saved dataset

    The correlations themselves are floating-point statistics and are
    taken as given; the choices the functions make with them and with
    the column names are embedded. *)
(* ================================================================== *)

Module Analysis.

(** [target_cols] of [analyze_basic_stats]. *)
Definition target_cols : list string :=
  ["Gas_Price"; "Diesel_Price"; "Oil_Price";
   "CPI_Total_YoY"; "CPI_Food_YoY"; "CPI_Energy_YoY"; "CPI_Shelter_YoY";
   "Unemp_Total"; "Unemp_Men"; "Unemp_Women";
   "News_Total_Counting"; "News_Count_Recession"; "News_Count_Layoff";
   "News_Count_Crisis"; "News_Count_HighPrice"; "News_Count_Unemployment"]%string.

(** [cols = [c for c in target_cols if c in df.columns]] *)
Definition cols (df_columns : list string) : list string :=
  filter (fun c => existsb (String.eqb c) df_columns) target_cols.

(** [abs(corr) > abs(best_corr)]: false when [corr] is NaN. *)
Definition stronger (corr : cell) (best_corr : Q) : bool :=
  match corr with
  | Some x => negb (Qle_bool (Qabs x) (Qabs best_corr))
  | None => false
  end.

(** The loop of [analyze_causal_chain] over the lags, from lag [lag]
    on, given the correlation found for each lag: it returns
    [(best_lag, best_corr)]. *)
Fixpoint best_from (lag : nat) (corrs : list cell) (best_lag : nat) (best_corr : Q)
  : nat * Q :=
  match corrs with
  | [] => (best_lag, best_corr)
  | corr :: tl =>
      match corr with
      | Some x =>
          if stronger corr best_corr then best_from (S lag) tl lag x
          else best_from (S lag) tl best_lag best_corr
      | None => best_from (S lag) tl best_lag best_corr
      end
  end.

(** [best_lag = 0], [best_corr = 0], then the loop. *)
Definition strongest (corrs : list cell) : nat * Q :=
  best_from 0 corrs 0 (inject_Z 0).

End Analysis.

(** The CPI file holds series of the series map only. *)
Definition mapped_series (l : list CPI.series) : Prop :=
  Forall (fun s => In (CPI.seriesID s) (map fst CPI.series_map)) l.


(* ================================================================== *)
(** ** [get_data.py]: the loops of the two news collectors

    The requests themselves are not embedded: the answers of the server
    are an input.  A date is its day number ([date.toordinal()]), so
    that adding a [timedelta] of [n] days adds [n]. *)
(* ================================================================== *)

Module Fetch.

(** [range(lo, hi)] *)
Definition py_range (lo hi : Z) : list Z :=
  map (fun i => (lo + Z.of_nat i)%Z) (seq 0 (Z.to_nat (hi - lo))).




(** What [get_source_d_sentiment] keeps of a document. *)
Record article : Type := mkArticle {
  date : option string;
  headline : option string;
  snippet : option string;
  lead_paragraph : option string
}.

(** The answer to one request, as the code tells the answers apart. *)
Inductive response : Type :=
| Docs (docs : list article)   (* status 200; the documents appended *)
| RateLimit                    (* status 429 *)
| Forbidden                    (* status 403 *)
| Failed.                      (* another status, or an exception *)

(** How a run of [get_source_d_sentiment] ends; [saved] is what is
    written to source_d_nyt_text_raw.json, if anything is. *)
Inductive ending : Type :=
| FutureReached                               (* the [return] in the month loop *)
| EndOfArchive (saved : option (list article))  (* the [return] after a 403 *)
| Completed (saved : option (list article))     (* the final save *)
| Waiting.                                    (* still retrying: no answer left *)

(** [if all_articles: json.dump(all_articles, f)] *)
Definition save (all_articles : list article) : option (list article) :=
  match all_articles with
  | [] => None
  | _ => Some all_articles
  end.

(** The [while True] loop for one month, over the answers the server
    gives to the successive requests: the articles collected so far, or
    the end of the run. *)
Fixpoint fetch_month (answers : list response) (all_articles : list article)
  : ending + list article :=
  match answers with
  | [] => inl Waiting
  | Docs docs :: _ => inr (all_articles ++ docs)
  | RateLimit :: tl => fetch_month tl all_articles
  | Forbidden :: _ => inl (EndOfArchive (save all_articles))
  | Failed :: _ => inr all_articles
  end.

Section Run.
(** The answers of the server to the requests for a year and month. *)
Variable server : Z -> Z -> list response.
Variables current_year current_month : Z.

Fixpoint month_loop (year : Z) (months : list Z) (all_articles : list article)
  : ending + list article :=
  match months with
  | [] => inr all_articles
  | month :: tl =>
      if ((year >? current_year)
          || ((year =? current_year) && (month >? current_month)))%Z
      then inl FutureReached
      else
        match fetch_month (server year month) all_articles with
        | inl e => inl e
        | inr next => month_loop year tl next
        end
  end.

Fixpoint year_loop (years : list Z) (all_articles : list article) : ending :=
  match years with
  | [] => Completed (save all_articles)
  | year :: tl =>
      match month_loop year (py_range 1 13) all_articles with
      | inl e => e
      | inr next => year_loop tl next
      end
  end.

(** The function, called with an API key. *)
Definition get_source_d_sentiment : ending :=
  year_loop (py_range 2016 (current_year + 1)) [].
End Run.

End Fetch.


(* ================================================================== *)
(** ** Where the readers of the embedding and those of Python agree

    [PyStr.float] reads decimal literals and [Dates.to_datetime] two
    shapes of dates; Python's [float] and pandas' [to_datetime] read
    more (exponents, [inf], 'Feb 2016').  The predicates below mark
    texts on which no such difference can arise. *)
(* ================================================================== *)

Definition is_digit (c : ascii) : bool :=
  match PyStr.digit_of c with Some _ => true | None => false end.

(** A character that occurs in some text [float] accepts, or that is
    not ASCII. *)
Definition literal_char (c : ascii) : bool :=
  is_digit c || PyStr.is_alpha c
  || Ascii.eqb c "+" || Ascii.eqb c "-" || Ascii.eqb c "." || Ascii.eqb c "_"
  || PyStr.is_space c || (128 <=? PyStr.code c)%N.

Fixpoint has_foreign (s : string) : bool :=
  match s with
  | EmptyString => false
  | String c tl => negb (literal_char c) || has_foreign tl
  end.

(** Only ASCII characters, none of them a digit or a letter. *)
Fixpoint bare (s : string) : bool :=
  match s with
  | EmptyString => true
  | String c tl =>
      (PyStr.code c <? 128)%N && negb (is_digit c) && negb (PyStr.is_alpha c)
      && bare tl
  end.

(** A text that Python's [float] is certain to refuse with
    [ValueError]: it holds a character no literal can hold ("N/A",
    "3,8", "(p)"), or it has neither digit nor letter ("-", ""). *)
Definition surely_not_float (s : string) : bool := has_foreign s || bare s.

(** The pairs of a row on which the embedding and the code agree: a
    pair is skipped by both (a blank token, a price that [float] is
    certain to refuse), or the price is a decimal literal and the date
    is one the embedding reads. *)
Fixpoint legible_pairs (year_str : string) (data_pairs : list string) : bool :=
  match data_pairs with
  | date_part :: price_str :: rest =>
      (PyStr.is_blank date_part || PyStr.is_blank price_str ||
       match PyStr.float price_str with
       | Some _ =>
           match Dates.to_datetime
                   (year_str ++ "-" ++ PyStr.replace_char "/" "-" date_part) with
           | Some _ => true
           | None => false
           end
       | None => surely_not_float price_str
       end)
      && legible_pairs year_str rest
  | _ => true
  end.

Definition legible_row (row : list string) : bool :=
  match row with
  | [] => true
  | header_date :: data_pairs =>
      match Dates.to_datetime header_date with
      | Some d => legible_pairs (Dates.str_year (d_year d)) data_pairs
      | None => false
      end
  end.

(** A scraped price table whose headers, dates and prices are all of
    the shapes the embedding reads. *)
Definition legible (raw_list : list (list string)) : bool :=
  forallb legible_row raw_list.



(* ================================================================== *)
(** * Properties *)
(* ================================================================== *)

Unset Implicit Arguments.

(** ** Interpolation *)

Lemma all_missing_or_valid (col : list cell) :
  (forall x, In x col -> x = None) \/ (exists v, In (Some v) col).
Proof.
  induction col as [|[v|] tl IH].
  - left; intros x [].
  - right; exists v; now left.
  - destruct IH as [IH|[v Hv]].
    + left; intros x [<-|Hx]; auto.
    + right; exists v; now right.
Qed.

Lemma first_valid_from_found (col : list cell) :
  forall i, (exists v, In (Some v) col) ->
            exists k b, Interp.first_valid_from i col = Some (k, b).
Proof.
  induction col as [|[v|] tl IH]; intros i [w Hw].
  - destruct Hw.
  - simpl; eauto.
  - simpl. apply IH. destruct Hw as [Hw|Hw]; [discriminate|eauto].
Qed.

Lemma interp_fill_complete (col : list cell) :
  forall prev i,
    prev <> None \/ (exists v, In (Some v) col) ->
    Forall (fun x => notna x = true) (Interp.interp_fill prev i col).
Proof.
  induction col as [|[v|] tl IH]; intros prev i H; simpl.
  - constructor.
  - constructor; [reflexivity|]. apply IH. left; discriminate.
  - constructor.
    + destruct prev as [[j a]|].
      * destruct (Interp.first_valid_from (S i) tl) as [[k b]|]; reflexivity.
      * destruct H as [H|[w Hw]]; [congruence|].
        destruct Hw as [Hw|Hw]; [discriminate|].
        destruct (first_valid_from_found tl (S i)) as (k & b & ->); eauto.
    + apply IH. destruct H as [H|[w [Hw|Hw]]]; [now left|discriminate|right; eauto].
Qed.

Lemma interp_fill_all_missing (col : list cell) :
  forall i, (forall x, In x col -> x = None) ->
            Interp.interp_fill None i col = col.
Proof.
  induction col as [|[v|] tl IH]; intros i H; simpl.
  - reflexivity.
  - specialize (H (Some v) (or_introl eq_refl)); discriminate.
  - assert (Hn : Interp.first_valid_from (S i) tl = None).
    { clear IH. revert i. induction tl as [|[w|] tl' IH']; intros i; simpl.
      - reflexivity.
      - specialize (H (Some w) (or_intror (or_introl eq_refl))); discriminate.
      - apply IH'. intros x [<-|Hx]; [reflexivity|]. apply H. right; now right. }
    rewrite Hn. f_equal. apply IH. intros x Hx; apply H; now right.
Qed.

Lemma interp_fill_length (col : list cell) :
  forall prev i, List.length (Interp.interp_fill prev i col) = List.length col.
Proof.
  induction col as [|[v|] tl IH]; intros prev i; simpl; auto.
Qed.

(** A column with an observation comes out of the interpolation without
    any missing cell. *)
Lemma interpolate_complete (col : list cell) :
  (exists v, In (Some v) col) ->
  Forall (fun x => notna x = true) (Interp.interpolate col).
Proof.
  intros H. apply interp_fill_complete. now right.
Qed.


(** Leading cells. *)
Lemma interp_fill_leading (col : list cell) :
  forall i0 i j a,
    Interp.first_valid_from i0 col = Some (j, a) ->
    i0 + i < j ->
    nth_error (Interp.interp_fill None i0 col) i = Some (Some a).
Proof.
  induction col as [|[v|] tl IH]; intros i0 i j a Hf Hlt; simpl in *.
  - discriminate.
  - injection Hf as <- <-. lia.
  - destruct i as [|i'].
    + simpl. now rewrite Hf.
    + simpl. apply IH with (j := j); [exact Hf|lia].
Qed.

Lemma last_valid_from_ge (col : list cell) :
  forall i0 k b, Interp.last_valid_from i0 col = Some (k, b) -> i0 <= k < i0 + List.length col.
Proof.
  induction col as [|c tl IH]; intros i0 k b H; simpl in *.
  - discriminate.
  - destruct (Interp.last_valid_from (S i0) tl) as [[k' b']|] eqn:E.
    + injection H as <- <-. apply IH in E. lia.
    + destruct c as [v|]; [|discriminate]. injection H as <- <-. lia.
Qed.

Lemma last_valid_from_none (col : list cell) :
  forall i0, Interp.last_valid_from i0 col = None -> forall i1, Interp.first_valid_from i1 col = None.
Proof.
  induction col as [|c tl IH]; intros i0 H i1; simpl in *.
  - reflexivity.
  - destruct (Interp.last_valid_from (S i0) tl) as [r|] eqn:E; [discriminate|].
    destruct c as [v|]; [discriminate|]. eapply IH; eauto.
Qed.

Lemma interp_fill_after_last (col : list cell) :
  forall i0 i k b,
    Interp.last_valid_from i0 col = None ->
    i < List.length col ->
    nth_error (Interp.interp_fill (Some (k, b)) i0 col) i = Some (Some b).
Proof.
  induction col as [|c tl IH]; intros i0 i k b H Hlt; simpl in *.
  - lia.
  - destruct (Interp.last_valid_from (S i0) tl) as [r|] eqn:E; [discriminate|].
    destruct c as [v|]; [discriminate|].
    rewrite (last_valid_from_none _ _ E (S i0)).
    destruct i as [|i']; simpl; [reflexivity|].
    apply IH; [exact E|lia].
Qed.

(** Trailing cells. *)
Lemma interp_fill_trailing (col : list cell) :
  forall prev i0 i k b,
    Interp.last_valid_from i0 col = Some (k, b) ->
    k < i0 + i -> i < List.length col ->
    nth_error (Interp.interp_fill prev i0 col) i = Some (Some b).
Proof.
  induction col as [|c tl IH]; intros prev i0 i k b H Hk Hlt; simpl in *.
  - lia.
  - destruct (Interp.last_valid_from (S i0) tl) as [[k' b']|] eqn:E.
    + injection H as <- <-. pose proof (last_valid_from_ge _ _ _ _ E) as Hge.
      destruct i as [|i']; [lia|].
      destruct c as [v|]; simpl; apply IH with (k := k'); auto; lia.
    + destruct c as [v|]; [|discriminate]. injection H as <- <-.
      destruct i as [|i']; [lia|]. simpl.
      apply interp_fill_after_last; [exact E|lia].
Qed.

Lemma merge_frames_saved (dfs : list pyval) (final_df : DataFrame) :
  Merge.merge_frames dfs = Merge.Saved final_df ->
  exists joined, final_df = interpolate_frame (slice_window joined).
Proof.
  unfold Merge.merge_frames.
  destruct (Merge.non_empty dfs) as [[|first rest]|e]; try discriminate.
  destruct (Merge.join_all first rest) as [joined|e]; try discriminate.
  intros H; injection H as <-. now exists joined.
Qed.

Lemma merge_all_data_saved (pad : bool) (raw : Merge.raw_dir) (final_df : DataFrame) :
  Merge.merge_all_data pad raw = Merge.Saved final_df ->
  exists joined, final_df = interpolate_frame (slice_window joined).
Proof.
  unfold Merge.merge_all_data.
  destruct (CPI.clean_cpi_data pad (Merge.cpi raw)) as [df1|e]; try discriminate.
  destruct (Energy.clean_energy_data (Merge.energy raw)) as [df2|e]; try discriminate.
  apply merge_frames_saved.
Qed.

Lemma interp_fill_observed (col : list cell) :
  forall prev i0 i v,
    nth_error col i = Some (Some v) ->
    nth_error (Interp.interp_fill prev i0 col) i = Some (Some v).
Proof.
  induction col as [|[w|] tl IH]; intros prev i0 [|i] v H; simpl in *;
    try discriminate; auto.
Qed.

Lemma where_from_length (p : Month -> bool) (idx : list Month) :
  forall i, List.length (where_from i p idx) = List.length (filter p idx).
Proof.
  induction idx as [|x tl IH]; intros i; simpl; [reflexivity|].
  destruct (p x); simpl; now rewrite IH.
Qed.

Lemma take_length (pos : list (option nat)) (col : list cell) :
  List.length (take pos col) = List.length pos.
Proof. unfold take. apply length_map. Qed.

Lemma names_take (pos : list (option nat)) (cols : list (string * list cell)) :
  map fst (map (take_col pos) cols) = map fst cols.
Proof. rewrite map_map. reflexivity. Qed.



(** C2, as the code has it.  A missing cell before the first
    observation of a column takes the value of the first observation,
    and a missing cell after the last observation takes the value of the
    last one: the edges are filled with the nearest value, flat, not
    with a prolonged slope. *)
Theorem edges_take_nearest_value :
  forall (col : list cell) (i : nat),
    (forall j a, Interp.first_valid col = Some (j, a) -> i < j ->
                 nth_error (Interp.interpolate col) i = Some (Some a)) /\
    (forall k b, Interp.last_valid col = Some (k, b) -> k < i < List.length col ->
                 nth_error (Interp.interpolate col) i = Some (Some b)).
Proof.
  intros col i. split.
  - intros j a Hf Hlt. apply interp_fill_leading with (j := j); auto.
  - intros k b Hl [Hk Hlen]. apply interp_fill_trailing with (k := k); auto.
Qed.

Lemma edges_take_nearest_value_witness :
  nth_error (Interp.interpolate Sample.edge_column) 0 = Some (Some (inject_Z 1)) /\
  nth_error (Interp.interpolate Sample.edge_column) 3 = Some (Some (inject_Z 2)).
Proof.
  split.
  - apply (proj1 (edges_take_nearest_value Sample.edge_column 0) 1 (inject_Z 1)).
    + reflexivity.
    + lia.
  - apply (proj2 (edges_take_nearest_value Sample.edge_column 3) 2 (inject_Z 2)).
    + reflexivity.
    + simpl. lia.
Defined.

(** C2, as the specification words it, fails: in the column
    [NaN, 1, 2, NaN] the two observations rise by one per row, so the
    prolonged line gives 0 in the first row and 3 in the last, while the
    interpolation writes 1 and 2. *)
Lemma edges_not_extrapolated :
  Interp.first_two_valid Sample.edge_column
    = Some ((1, inject_Z 1), (2, inject_Z 2)) /\
  (Interp.extrapolate_line 1 (inject_Z 1) 2 (inject_Z 2) 0 == inject_Z 0)%Q /\
  (Interp.extrapolate_line 1 (inject_Z 1) 2 (inject_Z 2) 3 == inject_Z 3)%Q /\
  Interp.interpolate Sample.edge_column
    = [Some (inject_Z 1); Some (inject_Z 1); Some (inject_Z 2); Some (inject_Z 2)] /\
  ~ (inject_Z 1 == inject_Z 0)%Q /\
  ~ (inject_Z 2 == inject_Z 3)%Q.
Proof.
  repeat split; try reflexivity; intros H; vm_compute in H; discriminate.
Qed.

(** ** The merge step when sources are absent *)

Lemma non_empty_all_no_data (l : list pyval) :
  Forall (fun d => no_data d = true) l ->
  Merge.non_empty l = Ok [] \/ Merge.non_empty l = Raise AttributeError.
Proof.
  induction 1 as [|d tl Hd _ IH]; simpl.
  - now left.
  - destruct d as [|df]; [now right|].
    simpl in Hd. rewrite Hd.
    destruct IH as [-> | ->]; simpl; auto.
Qed.

(** C6.  A missing price-index file, or a document without the nesting
    'Results' / 'series', makes [clean_cpi_data] return [None]; the
    merge step then asks [None] for its attribute [empty] and the run
    ends on an exception, whatever the other sources hold: they are not
    merged. *)
Theorem missing_cpi_stops_the_run :
  forall (pad : bool) (e : Energy.sources) (l : Labor.sources) (n : News.source),
    (CPI.clean_cpi_data pad NotFound = Ok PyNone /\
     CPI.clean_cpi_data pad (Loaded CPI.NoResults) = Ok PyNone /\
     CPI.clean_cpi_data pad (Loaded CPI.NoSeries) = Ok PyNone) /\
    (exists x, Merge.merge_all_data pad (Merge.mkRaw NotFound e l n) = Merge.Crashed x) /\
    (exists x, Merge.merge_all_data pad (Merge.mkRaw (Loaded CPI.NoResults) e l n)
               = Merge.Crashed x) /\
    (exists x, Merge.merge_all_data pad (Merge.mkRaw (Loaded CPI.NoSeries) e l n)
               = Merge.Crashed x) /\
    Merge.merge_all_data pad Sample.raw_without_cpi = Merge.Crashed AttributeError.
Proof.
  intros pad e l n.
  assert (Hcrash : forall f, CPI.clean_cpi_data pad f = Ok PyNone ->
            exists x, Merge.merge_all_data pad (Merge.mkRaw f e l n) = Merge.Crashed x).
  { intros f Hf. unfold Merge.merge_all_data. simpl. rewrite Hf.
    destruct (Energy.clean_energy_data e) as [df2|x]; eexists; reflexivity. }
  split; [split; [|split]; reflexivity|].
  split; [now apply Hcrash|].
  split; [now apply Hcrash|].
  split; [now apply Hcrash|].
  reflexivity.
Qed.

(** C10.  A document with the expected nesting but without any record
    whose period code lies between 'M01' and 'M12' does not give "no
    data": the pivot of the empty record list raises [KeyError], which
    nothing catches. *)
Theorem no_month_record_raises :
  forall (pad : bool) (l : list CPI.series),
    Forall (fun s => Forall (fun it => CPI.month_code (CPI.period it) = false)
                            (CPI.data s)) l ->
    CPI.clean_cpi_data pad (Loaded (CPI.Series l)) = Raise KeyError /\
    CPI.clean_cpi_data pad (Loaded (CPI.Series l)) <> Ok PyNone /\
    (forall e ls n,
        Merge.merge_all_data pad (Merge.mkRaw (Loaded (CPI.Series l)) e ls n)
        = Merge.Crashed KeyError).
Proof.
  intros pad l H.
  assert (Hrecs : CPI.all_records l = Ok []).
  { induction H as [|s tl Hs _ IH]; simpl; [reflexivity|].
    assert (Hser : forall name, CPI.series_records name (CPI.data s) = Ok []).
    { intros name. induction Hs as [|it its Hit _ IHs]; simpl; [reflexivity|].
      now rewrite Hit. }
    rewrite Hser, IH. reflexivity. }
  assert (Hrun : CPI.clean_cpi_data pad (Loaded (CPI.Series l)) = Raise KeyError).
  { unfold CPI.clean_cpi_data. rewrite Hrecs. reflexivity. }
  split; [exact Hrun|]. split.
  - rewrite Hrun. discriminate.
  - intros e ls n. unfold Merge.merge_all_data. simpl Merge.cpi. now rewrite Hrun.
Qed.

Lemma no_month_record_raises_witness :
  CPI.clean_cpi_data true (Loaded (CPI.Series Sample.annual_only)) = Raise KeyError.
Proof.
  apply (no_month_record_raises true Sample.annual_only).
  repeat constructor.
Defined.

(** ** The scraped price tables *)

(** C7.  The row ["Oct-2023", "10/02", "3.801", "10/09", "3.750"] gives
    the two points (2023-10-02, 3.801) and (2023-10-09, 3.750); a token
    left without partner at the end of the row adds nothing; the monthly
    table built from the row has the single month October 2023 with the
    mean 3.7755 of the two prices. *)
Theorem ragged_row_scenario :
  Energy.parse_row Sample.ragged_row
    = [(Some (mkDate 2023 10 2), (3801 # 1000)%Q);
       (Some (mkDate 2023 10 9), (3750 # 1000)%Q)] /\
  Energy.parse_row (Sample.ragged_row ++ ["10/16"%string])
    = Energy.parse_row Sample.ragged_row /\
  exists q,
    Energy.clean_energy_data
      (Energy.mkSources (Loaded [Sample.ragged_row]) NotFound NotFound)
    = Ok (mkDF [ym 2023 10] [("Gas_Price"%string, [Some q])]) /\
    (q == 37755 # 10000)%Q.
Proof.
  split; [vm_compute; reflexivity|].
  split; [vm_compute; reflexivity|].
  eexists. split; [vm_compute; reflexivity|].
  vm_compute. reflexivity.
Qed.

(** ** Keyword counting *)

Section StringFacts.
Open Scope string_scope.

Lemma append_assoc (a b c : string) : (a ++ b) ++ c = a ++ (b ++ c).
Proof. induction a as [|x a IH]; simpl; [reflexivity|now rewrite IH]. Qed.

Lemma append_nil_r (a : string) : a ++ "" = a.
Proof. induction a as [|x a IH]; simpl; [reflexivity|now rewrite IH]. Qed.










End StringFacts.



(** ** Sorting facts *)

Section IsortFacts.
Variable A : Type.
Variable leb : A -> A -> bool.
Hypothesis leb_total : forall a b, leb a b = true \/ leb b a = true.
Hypothesis leb_trans : forall a b c, leb a b = true -> leb b c = true -> leb a c = true.

Local Abbreviation le := (fun a b : A => leb a b = true).

Lemma insert_sorted_perm (x : A) (l : list A) :
  Permutation (insert_sorted leb x l) (x :: l).
Proof.
  induction l as [|y tl IH]; simpl.
  - apply Permutation_refl.
  - destruct (leb x y).
    + apply Permutation_refl.
    + apply perm_trans with (y :: x :: tl); [now constructor|apply perm_swap].
Qed.

Lemma isort_perm (l : list A) : Permutation (isort leb l) l.
Proof.
  induction l as [|x tl IH]; simpl.
  - constructor.
  - apply perm_trans with (x :: isort leb tl).
    + apply insert_sorted_perm.
    + now constructor.
Qed.

Lemma insert_sorted_sorted (x : A) (l : list A) :
  StronglySorted le l -> StronglySorted le (insert_sorted leb x l).
Proof.
  induction 1 as [|y tl Hs IH Hy]; simpl.
  - repeat constructor.
  - destruct (leb x y) eqn:E.
    + constructor; [now constructor|].
      constructor; [exact E|].
      rewrite Forall_forall in *. intros z Hz. eapply leb_trans; eauto.
    + constructor; [exact IH|].
      rewrite Forall_forall in *. intros z Hz.
      apply (Permutation_in _ (insert_sorted_perm x tl)) in Hz.
      destruct Hz as [<-|Hz]; [|now apply Hy].
      destruct (leb_total x y) as [H|H]; [congruence|exact H].
Qed.

Lemma isort_sorted (l : list A) : StronglySorted le (isort leb l).
Proof.
  induction l as [|x tl IH]; simpl; [constructor|now apply insert_sorted_sorted].
Qed.

Lemma isort_length (l : list A) : List.length (isort leb l) = List.length l.
Proof. apply Permutation_length, isort_perm. Qed.

End IsortFacts.

Lemma Zleb_total (a b : Z) : Z.leb a b = true \/ Z.leb b a = true.
Proof. destruct (Z.leb_spec a b); [now left|right; apply Z.leb_le; lia]. Qed.

Lemma Zleb_trans (a b c : Z) : Z.leb a b = true -> Z.leb b c = true -> Z.leb a c = true.
Proof. rewrite !Z.leb_le. lia. Qed.

(** A sorted list without duplicates is strictly increasing. *)
Lemma sorted_nodup_strict (l : list Z) :
  StronglySorted (fun a b => Z.leb a b = true) l -> NoDup l -> StronglySorted Z.lt l.
Proof.
  induction 1 as [|x tl Hs IH Hx]; intros Hnd; constructor.
  - apply IH. now inversion Hnd.
  - inversion Hnd as [|? ? Hnotin _]; subst.
    rewrite Forall_forall in *. intros y Hy. specialize (Hx y Hy).
    apply Z.leb_le in Hx. assert (x <> y) by (intros ->; contradiction). lia.
Qed.

Lemma strict_nodup (l : list Z) : StronglySorted Z.lt l -> NoDup l.
Proof.
  induction 1 as [|x tl Hs IH Hx]; constructor; auto.
  intros Hin. rewrite Forall_forall in Hx. specialize (Hx x Hin). lia.
Qed.

Lemma sort_unique_strict (l : list Month) : StronglySorted Z.lt (sort_unique l).
Proof.
  unfold sort_unique. apply sorted_nodup_strict.
  - apply isort_sorted; [apply Zleb_total|apply Zleb_trans].
  - apply (Permutation_NoDup (l := nodup Z.eq_dec l)).
    + apply Permutation_sym, isort_perm.
    + apply NoDup_nodup.
Qed.

Lemma sort_unique_in (l : list Month) (k : Month) : In k (sort_unique l) <-> In k l.
Proof.
  unfold sort_unique. split; intros H.
  - apply (nodup_In Z.eq_dec). eapply Permutation_in; [apply isort_perm|exact H].
  - apply (nodup_In Z.eq_dec) in H.
    eapply Permutation_in; [apply Permutation_sym, isort_perm|exact H].
Qed.

(** Strictly increasing lists with the same elements are equal. *)
Lemma strict_same_elements (l1 : list Z) :
  forall l2, StronglySorted Z.lt l1 -> StronglySorted Z.lt l2 ->
             (forall k, In k l1 <-> In k l2) -> l1 = l2.
Proof.
  induction l1 as [|x t1 IH]; intros [|y t2] H1 H2 Hiff.
  - reflexivity.
  - exfalso. apply (proj2 (Hiff y)). now left.
  - exfalso. apply (proj1 (Hiff x)). now left.
  - apply StronglySorted_inv in H1. destruct H1 as [H1 Hx].
    apply StronglySorted_inv in H2. destruct H2 as [H2 Hy].
    rewrite Forall_forall in Hx, Hy.
    assert (x = y).
    { destruct (proj1 (Hiff x) (or_introl eq_refl)) as [E|Hin]; [now symmetry|].
      destruct (proj2 (Hiff y) (or_introl eq_refl)) as [E|Hin']; [exact E|].
      specialize (Hx _ Hin'). specialize (Hy _ Hin). lia. }
    subst y. f_equal. apply IH; auto.
    intros k. split; intros Hk.
    + destruct (proj1 (Hiff k) (or_intror Hk)) as [E|Hin]; [|exact Hin].
      subst k. specialize (Hx _ Hk). lia.
    + destruct (proj2 (Hiff k) (or_intror Hk)) as [E|Hin]; [|exact Hin].
      subst k. specialize (Hy _ Hk). lia.
Qed.

Lemma isort_strict_id (l : list Z) : StronglySorted Z.lt l -> isort Z.leb l = l.
Proof.
  induction 1 as [|x tl Hs IH Hx]; simpl; [reflexivity|].
  rewrite IH. destruct tl as [|y tl']; simpl; [reflexivity|].
  inversion Hx as [|? ? Hxy _]; subst.
  destruct (Z.leb_spec x y); [reflexivity|lia].
Qed.

(** ** Year-over-year rates, column by column *)

Lemma zip_with_nth_error (f : cell -> cell -> cell) (a : list cell) :
  forall b i x y,
    nth_error a i = Some x -> nth_error b i = Some y ->
    nth_error (zip_with f a b) i = Some (f x y).
Proof.
  induction a as [|a0 a IH]; intros [|b0 b] [|i] x y Ha Hb; simpl in *;
    try discriminate.
  - congruence.
  - now apply IH.
Qed.

Lemma zip_with_length (f : cell -> cell -> cell) (a : list cell) :
  forall b, List.length a = List.length b ->
            List.length (zip_with f a b) = List.length a.
Proof.
  induction a as [|a0 a IH]; intros [|b0 b] H; simpl in *; try discriminate; auto.
Qed.

Lemma shift_length (n : nat) (col : list cell) :
  List.length (shift n col) = List.length col.
Proof.
  unfold shift. rewrite length_firstn, length_app. unfold cell. lia.
Qed.

Lemma shift_head (n : nat) (col : list cell) (i : nat) :
  i < n -> i < List.length col -> nth_error (shift n col) i = Some None.
Proof.
  intros Hn Hl. unfold shift. rewrite nth_error_firstn.
  destruct (Nat.ltb_spec i (List.length col)); [|lia].
  rewrite nth_error_app1 by (rewrite repeat_length; lia).
  now apply nth_error_repeat.
Qed.

Lemma shift_tail (n : nat) (col : list cell) (i : nat) :
  i + n < List.length col -> nth_error (shift n col) (i + n) = nth_error col i.
Proof.
  intros Hl. unfold shift. rewrite nth_error_firstn.
  destruct (Nat.ltb_spec (i + n) (List.length col)); [|lia].
  rewrite nth_error_app2 by (rewrite repeat_length; lia).
  rewrite repeat_length. f_equal. lia.
Qed.

Lemma ffill_from_length (col : list cell) :
  forall prev, List.length (ffill_from prev col) = List.length col.
Proof.
  induction col as [|[v|] tl IH]; intros prev; simpl; auto.
Qed.

(** Filling forward leaves the observed cells as they are. *)
Lemma ffill_from_observed (col : list cell) :
  forall prev i v,
    nth_error col i = Some (Some v) ->
    nth_error (ffill_from prev col) i = Some (Some v).
Proof.
  induction col as [|[w|] tl IH]; intros prev [|i] v H; simpl in *;
    try discriminate; auto.
Qed.

Section YearOverYear.
Variable pad : bool.

Lemma padded_length (col : list cell) :
  List.length (padded pad col) = List.length col.
Proof. unfold padded, ffill. destruct pad; [apply ffill_from_length|reflexivity]. Qed.

Lemma padded_observed (col : list cell) (i : nat) (v : Q) :
  nth_error col i = Some (Some v) -> nth_error (padded pad col) i = Some (Some v).
Proof.
  unfold padded, ffill. destruct pad; [apply ffill_from_observed|auto].
Qed.

Lemma yoy_length (col : list cell) :
  List.length (CPI.yoy pad col) = List.length col.
Proof.
  unfold CPI.yoy, CPI.times100, pct_change.
  rewrite length_map, zip_with_length; [apply padded_length|].
  now rewrite shift_length.
Qed.

(** The first twelve rows of the rate are missing. *)
Lemma yoy_first_rows (col : list cell) (i : nat) :
  i < 12 -> i < List.length col -> nth_error (CPI.yoy pad col) i = Some None.
Proof.
  intros H12 Hl. unfold CPI.yoy, CPI.times100, pct_change.
  rewrite nth_error_map.
  destruct (nth_error (padded pad col) i) as [x|] eqn:Ex.
  - rewrite (zip_with_nth_error _ _ _ _ _ _ Ex
               (shift_head 12 (padded pad col) i H12
                  ltac:(rewrite padded_length; lia))).
    destruct x; reflexivity.
  - apply nth_error_None in Ex. rewrite padded_length in Ex. lia.
Qed.

End YearOverYear.

Lemma consecutive_nth (idx : list Month) :
  forall i n m m',
    consecutive idx = true ->
    nth_error idx i = Some m -> nth_error idx (i + n) = Some m' ->
    m' = (m + Z.of_nat n)%Z.
Proof.
  induction idx as [|a tl IH]; intros i n m m' Hc Hi Hn.
  - destruct i; discriminate.
  - destruct i as [|i].
    + simpl in Hi. injection Hi as <-.
      destruct n as [|n]; simpl in Hn.
      * injection Hn as <-. lia.
      * simpl in Hc. destruct tl as [|b tl']; [destruct n; discriminate|].
        apply andb_true_iff in Hc. destruct Hc as [Hb Hc].
        apply Z.eqb_eq in Hb.
        rewrite (IH 0 n b m' Hc eq_refl Hn). lia.
    + simpl in Hi, Hn. apply IH with (i := i); auto.
      simpl in Hc. destruct tl as [|b tl']; [destruct i; discriminate|].
      apply andb_true_iff in Hc. tauto.
Qed.

(** ** The order of strings *)

Section StringOrder.
Open Scope string_scope.

Lemma str_length_append (a b : string) :
  String.length (a ++ b) = String.length a + String.length b.
Proof. induction a as [|x a IH]; simpl; [reflexivity|now rewrite IH]. Qed.

Lemma append_inj_l (t : string) (a : string) :
  forall b, a ++ t = b ++ t -> a = b.
Proof.
  induction a as [|x a IH]; intros [|y b] H; simpl in H.
  - reflexivity.
  - apply (f_equal String.length) in H. simpl in H.
    rewrite str_length_append in H. lia.
  - apply (f_equal String.length) in H. simpl in H.
    rewrite str_length_append in H. lia.
  - injection H as -> H. f_equal. now apply IH.
Qed.

Lemma append_neq_self (a t : string) : t <> "" -> a ++ t <> a.
Proof.
  intros Ht H. apply (f_equal String.length) in H.
  rewrite str_length_append in H. destruct t; [congruence|simpl in H; lia].
Qed.

Lemma str_leb_trans (a : string) :
  forall b c, String.leb a b = true -> String.leb b c = true -> String.leb a c = true.
Proof.
  unfold String.leb.
  induction a as [|x a IH]; intros [|y b] [|z c]; simpl; try easy.
  unfold Ascii.compare.
  destruct (N.compare_spec (N_of_ascii x) (N_of_ascii y));
    destruct (N.compare_spec (N_of_ascii y) (N_of_ascii z));
    destruct (N.compare_spec (N_of_ascii x) (N_of_ascii z));
    try easy; try lia.
  apply IH.
Qed.

Lemma str_leb_refl (a : string) : String.leb a a = true.
Proof.
  destruct (String.leb_total a a); assumption.
Qed.

Lemma str_leb_append (a t : string) : String.leb a (a ++ t) = true.
Proof.
  unfold String.leb. induction a as [|x a IH]; simpl.
  - destruct t; reflexivity.
  - unfold Ascii.compare. rewrite N.compare_refl. exact IH.
Qed.

End StringOrder.

(** In a sorted list of distinct names none is a later name followed by
    the suffix. *)
Lemma sorted_names_clear (suffix : string) (l : list string) :
  suffix <> EmptyString ->
  StronglySorted (fun a b => String.leb a b = true) l -> NoDup l ->
  StronglySorted (clear_of suffix) l.
Proof.
  intros Hs. induction 1 as [|x tl Hsorted IH Hx]; intros Hnd; constructor.
  - apply IH. now inversion Hnd.
  - inversion Hnd as [|? ? Hnotin _]; subst.
    rewrite Forall_forall in *. intros y Hy. split.
    + intros ->. contradiction.
    + intros ->. specialize (Hx y Hy).
      pose proof (String.leb_antisym _ _ Hx (str_leb_append y suffix)) as E.
      now apply (append_neq_self y suffix Hs).
Qed.

(** ** Column assignment *)

Lemma get_set_same (name : string) (vals : list cell) (cols : list (string * list cell)) :
  CPI.get_column name (CPI.set_column name vals cols) = Some vals.
Proof.
  unfold CPI.get_column, CPI.set_column.
  destruct (existsb (fun c => String.eqb (fst c) name) cols) eqn:E.
  - induction cols as [|[n v] tl IH]; simpl in *; [discriminate|].
    destruct (String.eqb n name) eqn:En; simpl.
    + now rewrite String.eqb_refl.
    + rewrite En. apply IH. exact E.
  - induction cols as [|[n v] tl IH]; simpl in *.
    + now rewrite String.eqb_refl.
    + apply orb_false_iff in E. destruct E as [En E]. rewrite En. now apply IH.
Qed.

Lemma get_set_other (name other : string) (vals : list cell)
  (cols : list (string * list cell)) :
  other <> name ->
  CPI.get_column other (CPI.set_column name vals cols) = CPI.get_column other cols.
Proof.
  intros Hne. unfold CPI.get_column, CPI.set_column.
  assert (Hno : String.eqb name other = false).
  { apply String.eqb_neq. congruence. }
  destruct (existsb (fun c => String.eqb (fst c) name) cols).
  - induction cols as [|[n v] tl IH]; simpl; [reflexivity|].
    destruct (String.eqb n name) eqn:En; simpl.
    + rewrite Hno. apply String.eqb_eq in En. subst n. rewrite Hno. exact IH.
    + destruct (String.eqb n other); [reflexivity|exact IH].
  - induction cols as [|[n v] tl IH]; simpl.
    + now rewrite Hno.
    + destruct (String.eqb n other); [reflexivity|exact IH].
Qed.

Lemma set_column_lengths (n : nat) (name : string) (vals : list cell)
  (cols : list (string * list cell)) :
  List.length vals = n ->
  Forall (fun c => List.length (snd c) = n) cols ->
  Forall (fun c => List.length (snd c) = n) (CPI.set_column name vals cols).
Proof.
  intros Hv Hc. unfold CPI.set_column.
  destruct (existsb _ cols).
  - rewrite Forall_forall in *. intros c Hin. apply in_map_iff in Hin.
    destruct Hin as [c0 [<- Hin]]. destruct (String.eqb (fst c0) name); simpl; auto.
  - apply Forall_app. split; [exact Hc|]. now repeat constructor.
Qed.

Lemma get_column_in (name : string) (cols : list (string * list cell)) (vals : list cell) :
  CPI.get_column name cols = Some vals -> In (name, vals) cols.
Proof.
  unfold CPI.get_column. intros H.
  destruct (find (fun c => String.eqb (fst c) name) cols) as [[n v]|] eqn:E;
    [|discriminate].
  simpl in H. injection H as ->. apply find_some in E. destruct E as [Hin En].
  simpl in En. apply String.eqb_eq in En. now subst n.
Qed.

Lemma get_column_found (name : string) (cols : list (string * list cell)) :
  In name (map fst cols) -> exists vals, CPI.get_column name cols = Some vals.
Proof.
  unfold CPI.get_column. induction cols as [|[n v] tl IH]; simpl; intros H.
  - destruct H.
  - destruct (String.eqb n name) eqn:En; [eexists; reflexivity|].
    destruct H as [H|H]; [apply String.eqb_neq in En; contradiction|auto].
Qed.

Lemma get_column_name_in (name : string) (cols : list (string * list cell))
  (vals : list cell) :
  CPI.get_column name cols = Some vals -> In name (map fst cols).
Proof.
  intros H. apply get_column_in in H.
  change name with (fst (name, vals)). now apply in_map.
Qed.

(** ** The loop that adds the rates *)

Section AddYoy.
Variable pad : bool.

Lemma add_yoy_rated (todo : list string) :
  forall (done : list string) (cols : list (string * list cell)),
    (forall c, In c todo -> In c (map fst cols)) ->
    (forall c, In c done -> rated pad cols c) ->
    (forall c c', In c done -> In c' todo -> clear_of "_YoY" c c') ->
    StronglySorted (clear_of "_YoY") todo ->
    forall c, In c (done ++ todo) -> rated pad (CPI.add_yoy pad todo cols) c.
Proof.
  induction todo as [|c' todo IH]; intros done cols Hnames Hdone Hclear Hsorted c Hc.
  - rewrite app_nil_r in Hc. simpl. now apply Hdone.
  - unfold CPI.add_yoy. simpl.
    destruct (get_column_found c' cols (Hnames c' (or_introl eq_refl))) as [vals' Hv'].
    rewrite Hv'.
    apply StronglySorted_inv in Hsorted. destruct Hsorted as [Hsorted Hhead].
    rewrite Forall_forall in Hhead.
    apply (IH (done ++ [c'])).
    + intros x Hx. specialize (Hnames x (or_intror Hx)).
      destruct (get_column_found x cols Hnames) as [vx Hvx].
      destruct (string_dec x (c' ++ "_YoY")) as [->|Hne].
      * eapply get_column_name_in. apply get_set_same.
      * apply get_column_name_in with (vals := vx).
        rewrite get_set_other; assumption.
    + intros x Hx. apply in_app_or in Hx. destruct Hx as [Hx|[<-|[]]].
      * destruct (Hdone x Hx) as (vx & Hvx & Hrx).
        destruct (Hclear x c' Hx (or_introl eq_refl)) as [Hne1 Hne2].
        exists vx. split.
        -- rewrite get_set_other; assumption.
        -- rewrite get_set_other; [assumption|].
           intros E. apply append_inj_l in E. contradiction.
      * exists vals'. split.
        -- rewrite get_set_other; [assumption|].
           intros E. symmetry in E. revert E. apply append_neq_self. discriminate.
        -- apply get_set_same.
    + intros x y Hx Hy. apply in_app_or in Hx. destruct Hx as [Hx|[<-|[]]].
      * apply Hclear; [assumption|now right].
      * now apply Hhead.
    + exact Hsorted.
    + rewrite <- app_assoc. exact Hc.
Qed.

Lemma add_yoy_lengths (n : nat) (todo : list string) :
  forall cols,
    Forall (fun c => List.length (snd c) = n) cols ->
    Forall (fun c => List.length (snd c) = n) (CPI.add_yoy pad todo cols).
Proof.
  induction todo as [|c' todo IH]; intros cols H; [exact H|].
  unfold CPI.add_yoy. simpl.
  destruct (CPI.get_column c' cols) as [vals|] eqn:E; [|now apply IH].
  apply IH. apply set_column_lengths; [|exact H].
  rewrite yoy_length. apply get_column_in in E.
  rewrite Forall_forall in H. exact (H _ E).
Qed.

End AddYoy.

(** ** The pivot table *)

Lemma sort_unique_str_in (l : list string) (c : string) :
  In c (CPI.sort_unique_str l) <-> In c l.
Proof.
  unfold CPI.sort_unique_str. split; intros H.
  - apply (nodup_In string_dec).
    eapply Permutation_in; [apply isort_perm|exact H].
  - apply (nodup_In string_dec) in H.
    eapply Permutation_in; [apply Permutation_sym, isort_perm|exact H].
Qed.

Lemma sort_unique_str_clear (l : list string) :
  StronglySorted (clear_of "_YoY") (CPI.sort_unique_str l).
Proof.
  unfold CPI.sort_unique_str. apply sorted_names_clear.
  - discriminate.
  - apply isort_sorted; [apply String.leb_total|apply str_leb_trans].
  - apply (Permutation_NoDup (l := nodup string_dec l)).
    + apply Permutation_sym, isort_perm.
    + apply NoDup_nodup.
Qed.

Lemma pivot_shape (recs : list CPI.record) (dates : list string)
  (cols : list (string * list cell)) :
  CPI.pivot recs = Ok (dates, cols) ->
  map fst cols = CPI.sort_unique_str (map CPI.r_type recs) /\
  dates = CPI.sort_unique_str (map CPI.r_date recs) /\
  Forall (fun c => List.length (snd c) = List.length dates) cols.
Proof.
  unfold CPI.pivot. destruct recs as [|r recs]; [discriminate|].
  destruct (CPI.has_duplicate_key (r :: recs)); [discriminate|].
  intros H. injection H as <- <-. split; [|split].
  - rewrite map_map. simpl. apply map_id.
  - reflexivity.
  - apply Forall_forall. intros c Hc. apply in_map_iff in Hc.
    destruct Hc as [t [<- _]]. simpl. now rewrite length_map.
Qed.

Lemma to_datetime_index_length (labels : list string) :
  forall idx, CPI.to_datetime_index labels = Ok idx ->
              List.length idx = List.length labels.
Proof.
  induction labels as [|s tl IH]; simpl; intros idx H.
  - injection H as <-. reflexivity.
  - destruct (Dates.to_datetime s) as [d|]; [|discriminate].
    destruct (CPI.to_datetime_index tl) as [rest|e]; [|discriminate].
    simpl in H. injection H as <-. simpl. f_equal. now apply IH.
Qed.

Lemma argsort_length (idx : list Month) :
  List.length (argsort idx) = List.length idx.
Proof.
  unfold argsort. rewrite length_map, isort_length, length_combine, length_seq.
  apply Nat.min_id.
Qed.

(** What [clean_cpi_data] returns for a document with series. *)
Lemma clean_cpi_data_frame (pad : bool) (l : list CPI.series)
  (recs : list CPI.record) (df : DataFrame) :
  CPI.all_records l = Ok recs ->
  CPI.clean_cpi_data pad (Loaded (CPI.Series l)) = Ok (Frame df) ->
  exists dates cols idx,
    CPI.pivot recs = Ok (dates, cols) /\
    CPI.to_datetime_index dates = Ok idx /\
    index df = isort Z.leb idx /\
    columns df = CPI.add_yoy pad (map fst cols) (map (take_col (argsort idx)) cols).
Proof.
  intros Hrecs. unfold CPI.clean_cpi_data. rewrite Hrecs. simpl.
  destruct (CPI.pivot recs) as [[dates cols]|e]; [|discriminate]. simpl.
  destruct (CPI.to_datetime_index dates) as [idx|e] eqn:Hidx; [|discriminate]. simpl.
  intros H. injection H as <-. exists dates, cols, idx.
  unfold names. simpl. rewrite names_take. repeat split; auto.
Qed.

(** X27.  For every series with a month record the table returned by
    [clean_cpi_data] holds the column of the series and the column of
    its rate, both as long as the index; the first twelve rows of the
    rate are missing, not zero; and the twelfth row above a row is the
    same month of the year before when the index has a row for every
    month. *)
Theorem yoy_column_shape :
  forall (pad : bool) (l : list CPI.series) (recs : list CPI.record) (df : DataFrame),
    CPI.all_records l = Ok recs ->
    CPI.clean_cpi_data pad (Loaded (CPI.Series l)) = Ok (Frame df) ->
    forall c : string,
      In c (map CPI.r_type recs) ->
      exists vals yvals : list cell,
        CPI.get_column c (columns df) = Some vals /\
        CPI.get_column (c ++ "_YoY")%string (columns df) = Some yvals /\
        List.length vals = List.length (index df) /\
        List.length yvals = List.length (index df) /\
        (forall i, i < 12 -> i < List.length (index df) -> nth_error yvals i = Some None) /\
        (consecutive (index df) = true ->
         forall i m m',
           nth_error (index df) i = Some m ->
           nth_error (index df) (i + 12) = Some m' ->
           m' = (m + 12)%Z).
Proof.
  intros pad l recs df Hrecs Hrun c Hc.
  destruct (clean_cpi_data_frame pad l recs df Hrecs Hrun)
    as (dates & cols & idx & Hpivot & Hidx & Hindex & Hcols).
  destruct (pivot_shape recs dates cols Hpivot) as (Hnames & _ & Hlen).
  apply to_datetime_index_length in Hidx.
  assert (Hn : List.length (index df) = List.length idx).
  { rewrite Hindex. apply isort_length. }
  assert (Hrated : rated pad (columns df) c).
  { rewrite Hcols. apply (add_yoy_rated pad (map fst cols) []).
    - intros x Hx. now rewrite names_take.
    - intros x [].
    - intros x y [].
    - rewrite Hnames. apply sort_unique_str_clear.
    - simpl. rewrite Hnames. now apply sort_unique_str_in. }
  assert (Hall : Forall (fun x => List.length (snd x) = List.length idx) (columns df)).
  { rewrite Hcols. apply add_yoy_lengths. apply Forall_forall.
    intros x Hx. apply in_map_iff in Hx. destruct Hx as [x0 [<- _]].
    simpl. rewrite take_length. apply argsort_length. }
  destruct Hrated as (vals & Hvals & Hyoy).
  assert (Hvl : List.length vals = List.length (index df)).
  { rewrite Hn. rewrite Forall_forall in Hall.
    exact (Hall _ (get_column_in _ _ _ Hvals)). }
  exists vals, (CPI.yoy pad vals).
  split; [exact Hvals|]. split; [exact Hyoy|]. split; [exact Hvl|].
  split; [now rewrite yoy_length|]. split.
  - intros i H12 Hi. apply yoy_first_rows; [exact H12|]. now rewrite Hvl.
  - intros Hcons i m m' Hm Hm'.
    apply (consecutive_nth (index df) i 12 m m' Hcons Hm Hm').
Qed.

Lemma yoy_column_shape_witness :
  exists (recs : list CPI.record) (df : DataFrame),
    CPI.all_records Sample.thirteen_months = Ok recs /\
    CPI.clean_cpi_data true (Loaded (CPI.Series Sample.thirteen_months)) = Ok (Frame df) /\
    In "CPI_Total"%string (map CPI.r_type recs) /\
    exists vals yvals : list cell,
      CPI.get_column "CPI_Total" (columns df) = Some vals /\
      CPI.get_column ("CPI_Total" ++ "_YoY")%string (columns df) = Some yvals /\
      List.length vals = List.length (index df) /\
      List.length yvals = List.length (index df) /\
      (forall i, i < 12 -> i < List.length (index df) -> nth_error yvals i = Some None) /\
      (consecutive (index df) = true ->
       forall i m m',
         nth_error (index df) i = Some m ->
         nth_error (index df) (i + 12) = Some m' ->
         m' = (m + 12)%Z).
Proof.
  eexists. eexists.
  split; [vm_compute; reflexivity|].
  split; [vm_compute; reflexivity|].
  split; [vm_compute; auto|].
  apply (yoy_column_shape true Sample.thirteen_months _ _
           ltac:(vm_compute; reflexivity) ltac:(vm_compute; reflexivity)
           "CPI_Total"%string).
  vm_compute. auto.
Defined.

(** C3.  The rate of [clean_cpi_data] is taken against the twelfth row
    above, which is not the same month of the year before as soon as a
    month has no record.  Without the record of June 2016 the row of
    February 2017 is the thirteenth row, and its rate is taken against
    the first row, January 2016 (200 percent), not against February
    2016 (50 percent, the year-over-year rate); the row of January 2017
    is the twelfth row and its rate is missing although January 2016 is
    observed.  This holds with either fill method of [pct_change]; the
    quotients of the example are whole numbers. *)
Theorem yoy_counts_rows_not_months :
  (exists (df : DataFrame) (q : Q),
      CPI.clean_cpi_data true (Loaded (CPI.Series Sample.gapped_series)) = Ok (Frame df) /\
      cell_at df (ym 2016 1) "CPI_Total" = Some (Some (inject_Z 100)) /\
      cell_at df (ym 2016 2) "CPI_Total" = Some (Some (inject_Z 200)) /\
      cell_at df (ym 2017 1) "CPI_Total" = Some (Some (inject_Z 250)) /\
      cell_at df (ym 2017 2) "CPI_Total" = Some (Some (inject_Z 300)) /\
      cell_at df (ym 2017 1) "CPI_Total_YoY" = Some None /\
      cell_at df (ym 2017 2) "CPI_Total_YoY" = Some (Some q) /\
      (q == inject_Z 200)%Q /\
      cell_eq (spec_yoy (inject_Z 300) (inject_Z 200)) (Some (inject_Z 50)) /\
      ~ (q == inject_Z 50)%Q) /\
  (exists (df : DataFrame) (q : Q),
      CPI.clean_cpi_data false (Loaded (CPI.Series Sample.gapped_series)) = Ok (Frame df) /\
      cell_at df (ym 2016 1) "CPI_Total" = Some (Some (inject_Z 100)) /\
      cell_at df (ym 2016 2) "CPI_Total" = Some (Some (inject_Z 200)) /\
      cell_at df (ym 2017 1) "CPI_Total" = Some (Some (inject_Z 250)) /\
      cell_at df (ym 2017 2) "CPI_Total" = Some (Some (inject_Z 300)) /\
      cell_at df (ym 2017 1) "CPI_Total_YoY" = Some None /\
      cell_at df (ym 2017 2) "CPI_Total_YoY" = Some (Some q) /\
      (q == inject_Z 200)%Q /\
      cell_eq (spec_yoy (inject_Z 300) (inject_Z 200)) (Some (inject_Z 50)) /\
      ~ (q == inject_Z 50)%Q).
Proof.
  split; eexists; eexists;
    (split; [vm_compute; reflexivity|]);
    (split; [vm_compute; reflexivity|]);
    (split; [vm_compute; reflexivity|]);
    (split; [vm_compute; reflexivity|]);
    (split; [vm_compute; reflexivity|]);
    (split; [vm_compute; reflexivity|]);
    (split; [vm_compute; reflexivity|]);
    (split; [vm_compute; reflexivity|]);
    (split; [vm_compute; reflexivity|]);
    intros H; vm_compute in H; discriminate.
Qed.

(** ** Outer joins of frames with unique keys *)

Lemma positions_from_notin (k : Month) (idx : list Month) :
  forall i, ~ In k idx -> positions_from i k idx = [].
Proof.
  induction idx as [|x tl IH]; intros i H; simpl; [reflexivity|].
  destruct (Z.eqb_spec x k) as [->|Hne].
  - exfalso. apply H. now left.
  - apply IH. intros Hin. apply H. now right.
Qed.

Lemma positions_from_nodup (k : Month) (idx : list Month) :
  forall i, NoDup idx -> In k idx ->
            exists p, positions_from i k idx = [i + p] /\ nth_error idx p = Some k.
Proof.
  induction idx as [|x tl IH]; intros i Hnd Hin; [destruct Hin|].
  inversion Hnd as [|? ? Hnotin Hnd']; subst. simpl.
  destruct (Z.eqb_spec x k) as [->|Hne].
  - exists 0. rewrite positions_from_notin by assumption.
    split; [f_equal; lia|reflexivity].
  - destruct Hin as [Hin|Hin]; [contradiction|].
    destruct (IH (S i) Hnd' Hin) as (p & Hp & Hnth).
    exists (S p). split; [rewrite Hp; f_equal; lia|exact Hnth].
Qed.

Lemma indexer_unique (k : Month) (idx : list Month) :
  NoDup idx -> indexer k idx = [position k idx].
Proof.
  intros Hnd. unfold position, indexer.
  destruct (in_dec Z.eq_dec k idx) as [Hin|Hout].
  - destruct (positions_from_nodup k idx 0 Hnd Hin) as (p & -> & _). reflexivity.
  - now rewrite positions_from_notin.
Qed.

Lemma position_found (k : Month) (idx : list Month) :
  NoDup idx -> In k idx ->
  exists p, position k idx = Some p /\ nth_error idx p = Some k.
Proof.
  intros Hnd Hin. unfold position, indexer.
  destruct (positions_from_nodup k idx 0 Hnd Hin) as (p & -> & Hp).
  exists p. split; [reflexivity|exact Hp].
Qed.

Lemma position_notin (k : Month) (idx : list Month) :
  ~ In k idx -> position k idx = None.
Proof.
  intros H. unfold position, indexer. now rewrite positions_from_notin.
Qed.

Lemma lookup_in_notin (idx : list Month) (vals : list cell) (k : Month) :
  ~ In k idx -> lookup_in idx vals k = None.
Proof. intros H. unfold lookup_in. now rewrite position_notin. Qed.

Lemma lookup_in_render (keys : list Month) (f : Month -> cell) (k : Month) :
  NoDup keys -> In k keys -> lookup_in keys (map f keys) k = f k.
Proof.
  intros Hnd Hin. unfold lookup_in.
  destruct (position_found k keys Hnd Hin) as (p & -> & Hp).
  apply nth_error_nth. rewrite nth_error_map, Hp. reflexivity.
Qed.

Lemma take_positions (idx keys : list Month) (vals : list cell) :
  take (map (fun k => position k idx) keys) vals = map (lookup_in idx vals) keys.
Proof. unfold take, lookup_in. now rewrite map_map. Qed.

(** Looked up under its own index, a column gives itself. *)
Lemma map_lookup_self (idx : list Month) (vals : list cell) :
  NoDup idx -> List.length vals = List.length idx ->
  map (lookup_in idx vals) idx = vals.
Proof.
  intros Hnd Hlen. apply nth_error_ext. intros p.
  rewrite nth_error_map.
  destruct (nth_error idx p) as [k|] eqn:Ek; simpl.
  - unfold lookup_in.
    destruct (position_found k idx Hnd (nth_error_In _ _ Ek)) as (q & -> & Hq).
    assert (q = p).
    { apply (proj1 (NoDup_nth_error idx) Hnd).
      - apply nth_error_Some. rewrite Hq. discriminate.
      - congruence. }
    subst q. symmetry. apply nth_error_nth'.
    rewrite Hlen. apply nth_error_Some. rewrite Ek. discriminate.
  - symmetry. apply nth_error_None. rewrite Hlen. now apply nth_error_None.
Qed.

Lemma flat_map_single {A B : Type} (f : A -> B) (l : list A) :
  flat_map (fun x => [f x]) l = map f l.
Proof. induction l as [|x tl IH]; simpl; [reflexivity|now rewrite IH]. Qed.

(** With unique keys on both sides the outer join has one row per key
    of the union. *)
Lemma join_outer_unique (L R : DataFrame) :
  overlap (names L) (names R) = false ->
  NoDup (index L) -> NoDup (index R) ->
  let keys := sort_unique (index L ++ index R) in
  join_outer L R
  = Ok (mkDF keys
          (map (fun c => (fst c, map (lookup_in (index L) (snd c)) keys)) (columns L)
           ++ map (fun c => (fst c, map (lookup_in (index R) (snd c)) keys)) (columns R))).
Proof.
  intros Hov HL HR keys. unfold join_outer. rewrite Hov. fold keys.
  assert (Hplan :
    flat_map (fun k => map (fun lr => (k, lr))
                           (list_prod (indexer k (index L)) (indexer k (index R))))
             keys
    = map (fun k => (k, (position k (index L), position k (index R)))) keys).
  { rewrite <- flat_map_single. apply flat_map_ext. intros k.
    rewrite (indexer_unique k _ HL), (indexer_unique k _ HR). reflexivity. }
  rewrite Hplan. rewrite !map_map. simpl. rewrite map_id.
  f_equal. f_equal. f_equal.
  - apply map_ext. intros c. unfold take_col. f_equal.
    rewrite <- take_positions. reflexivity.
  - apply map_ext. intros c. unfold take_col. f_equal.
    rewrite <- take_positions. reflexivity.
Qed.

Lemma nodup_app_disjoint {A : Type} (l1 l2 : list A) :
  NoDup (l1 ++ l2) -> forall x, In x l1 -> ~ In x l2.
Proof.
  induction l1 as [|a l1 IH]; intros Hnd x Hx Hx2; [destruct Hx|].
  simpl in Hnd. inversion Hnd as [|? ? Hnotin Hnd']; subst.
  destruct Hx as [->|Hx].
  - apply Hnotin. apply in_or_app. now right.
  - exact (IH Hnd' x Hx Hx2).
Qed.

Lemma overlap_false (a b : list string) :
  (forall x, In x a -> ~ In x b) -> overlap a b = false.
Proof.
  intros H. unfold overlap.
  destruct (existsb (fun x => existsb (String.eqb x) b) a) eqn:E; [|reflexivity].
  apply existsb_exists in E. destruct E as (x & Hx & E).
  apply existsb_exists in E. destruct E as (y & Hy & E).
  apply String.eqb_eq in E. subst y. exfalso. exact (H x Hx Hy).
Qed.

Lemma names_render (keys : list Month) (s : list (string * (Month -> cell))) :
  map fst (render keys s) = map fst s.
Proof. unfold render. now rewrite map_map. Qed.

Lemma names_sources (df : DataFrame) : map fst (sources df) = names df.
Proof. unfold sources, names. now rewrite map_map. Qed.

Lemma monthly_table_canonical (t : DataFrame) :
  wf_frame t -> StronglySorted Z.lt (index t) -> canonical t (sources t).
Proof.
  intros Hwf Hs. split; [exact Hs|]. split.
  - unfold render, sources. rewrite map_map. simpl.
    rewrite <- (map_id (columns t)) at 1. apply map_ext_in.
    intros [n vals] Hin. simpl. f_equal. symmetry.
    apply map_lookup_self; [now apply strict_nodup|].
    unfold wf_frame in Hwf. rewrite Forall_forall in Hwf. exact (Hwf _ Hin).
  - intros nf k Hin Hk. unfold sources in Hin. apply in_map_iff in Hin.
    destruct Hin as [c [<- _]]. simpl. now apply lookup_in_notin.
Qed.

(** One join keeps the frame canonical. *)
Lemma join_canonical (J t : DataFrame) (S : list (string * (Month -> cell))) :
  canonical J S ->
  wf_frame t -> StronglySorted Z.lt (index t) ->
  (forall x, In x (map fst S) -> ~ In x (names t)) ->
  exists J',
    join_outer J t = Ok J' /\
    index J' = sort_unique (index J ++ index t) /\
    canonical J' (S ++ sources t).
Proof.
  intros (HJs & HJc & HJo) Hwf Hts Hdisj.
  assert (Hov : overlap (names J) (names t) = false).
  { apply overlap_false. unfold names at 1. rewrite HJc, names_render. exact Hdisj. }
  pose proof (join_outer_unique J t Hov (strict_nodup _ HJs) (strict_nodup _ Hts)) as Hj.
  simpl in Hj. eexists. split; [exact Hj|]. split; [reflexivity|].
  set (keys := sort_unique (index J ++ index t)) in *.
  split; [apply sort_unique_strict|]. split.
  - simpl. unfold render. rewrite map_app. f_equal.
    + rewrite HJc. unfold render. rewrite map_map. simpl.
      apply map_ext_in. intros nf Hnf. f_equal.
      apply map_ext_in. intros k Hk.
      destruct (in_dec Z.eq_dec k (index J)) as [Hin|Hout].
      * apply lookup_in_render; [now apply strict_nodup|exact Hin].
      * rewrite lookup_in_notin by (rewrite length_map || exact Hout).
        symmetry. now apply HJo.
    + unfold sources. rewrite map_map. reflexivity.
  - simpl. intros nf k Hnf Hk.
    assert (Hk' : ~ In k (index J) /\ ~ In k (index t)).
    { split; intros Hin; apply Hk; apply sort_unique_in, in_or_app; auto. }
    apply in_app_or in Hnf. destruct Hnf as [Hnf|Hnf].
    + apply HJo; tauto.
    + unfold sources in Hnf. apply in_map_iff in Hnf.
      destruct Hnf as [c [<- _]]. simpl. apply lookup_in_notin. tauto.
Qed.

(** The chain of joins. *)
Lemma join_all_canonical (rest : list DataFrame) :
  forall (J : DataFrame) (S : list (string * (Month -> cell))),
    canonical J S ->
    Forall monthly_table rest ->
    NoDup (map fst S ++ flat_map names rest) ->
    exists J',
      Merge.join_all J rest = Ok J' /\
      (forall k, In k (index J') <-> In k (index J ++ flat_map index rest)) /\
      canonical J' (S ++ flat_map sources rest).
Proof.
  induction rest as [|t rest IH]; intros J S HJ Hall Hnd.
  - exists J. simpl. rewrite !app_nil_r. split; [reflexivity|]. split; [tauto|exact HJ].
  - inversion Hall as [|? ? (Hne & Hwf & Hts) Hall']; subst.
    simpl in Hnd.
    assert (Hdisj : forall x, In x (map fst S) -> ~ In x (names t)).
    { intros x Hx Hxt. apply (nodup_app_disjoint _ _ Hnd x Hx).
      apply in_or_app. now left. }
    destruct (join_canonical J t S HJ Hwf Hts Hdisj) as (J1 & Hj1 & Hidx1 & Hc1).
    destruct (IH J1 (S ++ sources t) Hc1 Hall') as (J' & Hj' & Hidx' & Hc').
    { rewrite map_app, names_sources, <- app_assoc. exact Hnd. }
    exists J'. simpl. rewrite Hj1. simpl. split; [exact Hj'|]. split.
    + intros k. rewrite Hidx', Hidx1. rewrite !in_app_iff, sort_unique_in, in_app_iff.
      tauto.
    + now rewrite <- app_assoc in Hc'.
Qed.

(** ** The merge does not depend on the order of the tables *)

Lemma non_empty_frames (ts : list DataFrame) :
  Forall (fun t => df_empty t = false) ts ->
  Merge.non_empty (map Frame ts) = Ok ts.
Proof.
  induction 1 as [|t ts Ht _ IH]; simpl; [reflexivity|].
  rewrite IH. simpl. now rewrite Ht.
Qed.

Lemma flat_map_names_sources (ts : list DataFrame) :
  map fst (flat_map sources ts) = flat_map names ts.
Proof.
  induction ts as [|t ts IH]; simpl; [reflexivity|].
  now rewrite map_app, names_sources, IH.
Qed.

(** The frame before the window and the interpolation. *)
Lemma merge_frames_joined (ts : list DataFrame) :
  ts <> [] ->
  Forall monthly_table ts ->
  NoDup (flat_map names ts) ->
  exists J,
    Merge.merge_frames (map Frame ts) = Merge.Saved (interpolate_frame (slice_window J)) /\
    StronglySorted Z.lt (index J) /\
    (forall k, In k (index J) <-> In k (flat_map index ts)) /\
    columns J = render (index J) (flat_map sources ts).
Proof.
  intros Hne Hall Hnd. destruct ts as [|first rest]; [congruence|].
  unfold Merge.merge_frames. rewrite non_empty_frames.
  2:{ eapply Forall_impl; [|exact Hall]. intros t (H & _). exact H. }
  inversion Hall as [|? ? (_ & Hwf & Hs) Hrest]; subst.
  destruct (join_all_canonical rest first (sources first)
              (monthly_table_canonical first Hwf Hs) Hrest)
    as (J & Hj & Hidx & (HJs & HJc & _)).
  { rewrite names_sources. exact Hnd. }
  exists J. rewrite Hj. repeat split; auto; apply Hidx.
Qed.

Lemma find_by_name_perm (c : string) (l l' : list (string * list cell)) :
  Permutation l l' -> NoDup (map fst l) ->
  find (fun nc => String.eqb (fst nc) c) l = find (fun nc => String.eqb (fst nc) c) l'.
Proof.
  intros Hp Hnd.
  assert (Hnd' : NoDup (map fst l')).
  { eapply Permutation_NoDup; [|exact Hnd]. now apply Permutation_map. }
  assert (Huniq : forall (m : list (string * list cell)) x y,
             NoDup (map fst m) -> In x m -> In y m -> fst x = fst y -> x = y).
  { induction m as [|z m IHm]; intros x y Hn Hx Hy E; [destruct Hx|].
    simpl in Hn. inversion Hn as [|? ? Hnotin Hn']; subst.
    destruct Hx as [->|Hx], Hy as [->|Hy]; auto.
    - exfalso. apply Hnotin. rewrite E. now apply in_map.
    - exfalso. apply Hnotin. rewrite <- E. now apply in_map. }
  destruct (find (fun nc => String.eqb (fst nc) c) l) as [x|] eqn:Ex;
    destruct (find (fun nc => String.eqb (fst nc) c) l') as [y|] eqn:Ey; auto.
  - apply find_some in Ex, Ey. destruct Ex as [Hx Ex], Ey as [Hy Ey].
    apply String.eqb_eq in Ex, Ey. f_equal.
    apply (Huniq l x y Hnd Hx); [|congruence].
    eapply Permutation_in; [apply Permutation_sym; exact Hp|exact Hy].
  - apply find_some in Ex. destruct Ex as [Hx Ex].
    pose proof (find_none _ _ Ey x (Permutation_in _ Hp Hx)) as Hn.
    simpl in Hn. congruence.
  - apply find_some in Ey. destruct Ey as [Hy Ey].
    pose proof (find_none _ _ Ex y
                  (Permutation_in _ (Permutation_sym Hp) Hy)) as Hn.
    simpl in Hn. congruence.
Qed.

(** C4.  Monthly tables (not empty, strictly increasing index) whose
    column names are pairwise disjoint are merged into the same final
    dataset in whatever order they are given: the same index, the same
    columns up to their order, and under every date and column name the
    same cell. *)
Theorem merge_order_independent :
  forall ts ts' : list DataFrame,
    Permutation ts ts' ->
    ts <> [] ->
    Forall monthly_table ts ->
    NoDup (flat_map names ts) ->
    exists F F' : DataFrame,
      Merge.merge_frames (map Frame ts) = Merge.Saved F /\
      Merge.merge_frames (map Frame ts') = Merge.Saved F' /\
      index F = index F' /\
      Permutation (columns F) (columns F') /\
      (forall (k : Month) (c : string), cell_at F k c = cell_at F' k c).
Proof.
  intros ts ts' Hp Hne Hall Hnd.
  assert (Hne' : ts' <> []).
  { intros ->. apply Permutation_sym, Permutation_nil in Hp. contradiction. }
  assert (Hall' : Forall monthly_table ts').
  { rewrite Forall_forall in *. intros t Ht. apply Hall.
    eapply Permutation_in; [apply Permutation_sym; exact Hp|exact Ht]. }
  assert (Hnd' : NoDup (flat_map names ts')).
  { eapply Permutation_NoDup; [|exact Hnd]. now apply Permutation_flat_map. }
  destruct (merge_frames_joined ts Hne Hall Hnd) as (J & HF & Hs & Hin & Hc).
  destruct (merge_frames_joined ts' Hne' Hall' Hnd') as (J' & HF' & Hs' & Hin' & Hc').
  assert (Hidx : index J = index J').
  { apply strict_same_elements; auto. intros k. rewrite Hin, Hin'.
    split; intros H.
    - eapply Permutation_in; [|exact H]. now apply Permutation_flat_map.
    - eapply Permutation_in; [|exact H].
      apply Permutation_sym. now apply Permutation_flat_map. }
  assert (Hcols : Permutation (columns J) (columns J')).
  { rewrite Hc, Hc', <- Hidx. unfold render. apply Permutation_map.
    now apply Permutation_flat_map. }
  assert (Hfinal : Permutation
                     (columns (interpolate_frame (slice_window J)))
                     (columns (interpolate_frame (slice_window J')))).
  { simpl. rewrite <- Hidx. now repeat apply Permutation_map. }
  exists (interpolate_frame (slice_window J)), (interpolate_frame (slice_window J')).
  split; [exact HF|]. split; [exact HF'|].
  split; [simpl; now rewrite Hidx|]. split; [exact Hfinal|].
  intros k c. unfold cell_at, col_values.
  rewrite (find_by_name_perm c _ _ Hfinal).
  - simpl. now rewrite Hidx.
  - simpl. rewrite !map_map. simpl.
    change (map (fun x : string * list cell => fst x) (columns J))
      with (map fst (columns J)).
    rewrite Hc, names_render, flat_map_names_sources. exact Hnd.
Qed.

Lemma merge_order_independent_witness :
  exists F F' : DataFrame,
    Merge.merge_frames (map Frame [Sample.table_a; Sample.table_b]) = Merge.Saved F /\
    Merge.merge_frames (map Frame [Sample.table_b; Sample.table_a]) = Merge.Saved F' /\
    index F = index F' /\
    Permutation (columns F) (columns F') /\
    (forall (k : Month) (c : string), cell_at F k c = cell_at F' k c).
Proof.
  apply (merge_order_independent [Sample.table_a; Sample.table_b]
           [Sample.table_b; Sample.table_a]).
  - apply perm_swap.
  - discriminate.
  - repeat constructor; vm_compute; lia.
  - repeat constructor; simpl; intuition discriminate.
Defined.

(** ** The index of the tables the parsers return *)

Lemma strict_filter (p : Z -> bool) (l : list Z) :
  StronglySorted Z.lt l -> StronglySorted Z.lt (filter p l).
Proof.
  induction 1 as [|x tl Hs IH Hx]; simpl; [constructor|].
  destruct (p x); [|exact IH].
  constructor; [exact IH|].
  rewrite Forall_forall in *. intros y Hy. apply filter_In in Hy. now apply Hx.
Qed.

Lemma isort_strict (l : list Z) : NoDup l -> StronglySorted Z.lt (isort Z.leb l).
Proof.
  intros H. apply sorted_nodup_strict.
  - apply isort_sorted; [apply Zleb_total|apply Zleb_trans].
  - eapply Permutation_NoDup; [apply Permutation_sym, isort_perm|exact H].
Qed.

(** Window and sort keep a strictly increasing index. *)
Lemma sort_slice_strict (df : DataFrame) :
  StronglySorted Z.lt (index df) ->
  StronglySorted Z.lt (index (sort_index (slice_window df))).
Proof.
  intros H. simpl. apply isort_strict, strict_nodup. now apply strict_filter.
Qed.

Lemma month_range_strict (lo hi : Month) : StronglySorted Z.lt (month_range lo hi).
Proof.
  unfold month_range. generalize (Z.to_nat (hi - lo + 1)) as n. intros n.
  assert (H : forall start, StronglySorted Z.lt
                              (map (fun i => (lo + Z.of_nat i)%Z) (seq start n))).
  { induction n as [|n IH]; intros start; simpl; constructor.
    - apply IH.
    - apply Forall_forall. intros y Hy. apply in_map_iff in Hy.
      destruct Hy as (i & <- & Hi). apply in_seq in Hi. lia. }
  apply H.
Qed.

Lemma buckets_strict (months : list Month) : StronglySorted Z.lt (buckets months).
Proof.
  destruct months as [|m tl]; simpl; [constructor|apply month_range_strict].
Qed.

(** The accumulation keeps a strictly increasing index. *)
Lemma combine_with_strict (combined df next : DataFrame) :
  StronglySorted Z.lt (index combined) ->
  StronglySorted Z.lt (index df) ->
  combine_with combined df = Ok next ->
  StronglySorted Z.lt (index next).
Proof.
  intros Hc Hd. unfold combine_with.
  destruct (df_empty combined).
  - intros H. injection H as <-. exact Hd.
  - destruct (overlap (names combined) (names df)) eqn:Hov.
    + unfold join_outer. rewrite Hov. discriminate.
    + rewrite (join_outer_unique combined df Hov
                 (strict_nodup _ Hc) (strict_nodup _ Hd)).
      intros H. injection H as <-. simpl. apply sort_unique_strict.
Qed.

Lemma energy_monthly_strict (name : string) (raw_list : list (list string))
  (df : DataFrame) :
  Energy.monthly name raw_list = Some df -> StronglySorted Z.lt (index df).
Proof.
  unfold Energy.monthly.
  destruct (Energy.parsed_data raw_list); [discriminate|].
  intros H. injection H as <-. simpl. apply buckets_strict.
Qed.

Lemma energy_add_files_strict (l : list (string * raw_file (list (list string)))) :
  forall combined df,
    StronglySorted Z.lt (index combined) ->
    Energy.add_files combined l = Ok df ->
    StronglySorted Z.lt (index df).
Proof.
  induction l as [|f tl IH]; intros combined df Hc H; simpl in H.
  - injection H as <-. exact Hc.
  - destruct (Energy.add_file combined f) as [next|e] eqn:E; [|discriminate].
    simpl in H. apply (IH next df); [|exact H].
    unfold Energy.add_file in E.
    destruct (snd f) as [| | |raw_list];
      try discriminate; try (injection E as <-; exact Hc).
    destruct (Energy.monthly (fst f) raw_list) as [dfm|] eqn:Em;
      [|injection E as <-; exact Hc].
    eapply combine_with_strict; [exact Hc| |exact E].
    eapply energy_monthly_strict. exact Em.
Qed.

Lemma energy_index_strict (s : Energy.sources) (df : DataFrame) :
  Energy.clean_energy_data s = Ok df -> StronglySorted Z.lt (index df).
Proof.
  unfold Energy.clean_energy_data.
  destruct (Energy.add_files empty_frame (Energy.files s)) as [combined|e] eqn:E;
    [|discriminate].
  simpl.
  pose proof (energy_add_files_strict _ empty_frame _ (SSorted_nil _) E) as Hc.
  destruct (df_empty combined); intros H; injection H as <-.
  - constructor.
  - now apply sort_slice_strict.
Qed.

(** *** The labor table *)

Lemma month_num_in (a : string) (m : Z) :
  Labor.month_num a = Some m -> In (a, m) Labor.month_map.
Proof.
  unfold Labor.month_num. intros H.
  destruct (find (fun p => String.eqb (fst p) a) Labor.month_map) as [[n v]|] eqn:E;
    [|discriminate].
  simpl in H. injection H as ->. apply find_some in E. destruct E as [Hin E].
  simpl in E. apply String.eqb_eq in E. now subst n.
Qed.

Lemma month_map_range (a : string) (m : Z) :
  In (a, m) Labor.month_map -> (1 <= m <= 12)%Z.
Proof.
  intros H. simpl in H.
  repeat (destruct H as [H|H]; [injection H as _ <-; lia|]); try contradiction.
Qed.

Lemma month_map_inj (a b : string) (m : Z) :
  In (a, m) Labor.month_map -> In (b, m) Labor.month_map -> a = b.
Proof.
  assert (Hgen : forall l : list (string * Z),
             NoDup (map snd l) -> In (a, m) l -> In (b, m) l -> a = b).
  { induction l as [|[n v] tl IH]; intros Hnd Ha Hb; [destruct Ha|].
    simpl in Hnd. inversion Hnd as [|? ? Hnotin Hnd']; subst.
    destruct Ha as [Ha|Ha], Hb as [Hb|Hb].
    - congruence.
    - injection Ha as -> ->. exfalso. apply Hnotin.
      change m with (snd (b, m)). now apply in_map.
    - injection Hb as -> ->. exfalso. apply Hnotin.
      change m with (snd (a, m)). now apply in_map.
    - now apply IH. }
  apply Hgen. simpl. repeat constructor; simpl; intuition discriminate.
Qed.

(** The months of the dated rows, read off the melted rows. *)
Lemma labor_dated_keys (l : list (Z * string * cell)) :
  forall rows,
    Labor.dated l = Ok rows ->
    map fst rows
    = flat_map (fun r => match Labor.month_num (snd (fst r)) with
                         | Some mm => [ym (fst (fst r)) mm]
                         | None => []
                         end) l.
Proof.
  induction l as [|[[y name] rate] tl IH]; intros rows H; simpl in *.
  - injection H as <-. reflexivity.
  - destruct (Labor.month_num name) as [mm|]; [|now apply IH].
    destruct (Dates.valid_year y); [|discriminate].
    destruct (Labor.dated tl) as [rest|e]; [|discriminate].
    simpl in H. injection H as <-. simpl. f_equal. now apply IH.
Qed.

Lemma flat_map_flat_map {A B C : Type} (g : B -> list C) (h : A -> list B)
  (l : list A) :
  flat_map g (flat_map h l) = flat_map (fun x => flat_map g (h x)) l.
Proof.
  induction l as [|x tl IH]; simpl; [reflexivity|].
  now rewrite flat_map_app, IH.
Qed.

Lemma map_snd_combine_seq {A : Type} (l : list A) :
  forall start, map snd (combine (seq start (List.length l)) l) = l.
Proof.
  induction l as [|x tl IH]; intros start; simpl; [reflexivity|].
  now rewrite IH.
Qed.

Lemma melt_months (m : Labor.matrix) (rows : list (Month * cell)) :
  Labor.dated (Labor.melt m) = Ok rows ->
  map fst rows = flat_map (column_months m) (Labor.value_cols m).
Proof.
  intros H. rewrite (labor_dated_keys _ _ H). unfold Labor.melt.
  rewrite flat_map_flat_map.
  assert (Hg : forall pairs : list (nat * string),
             flat_map
               (fun x =>
                  flat_map
                    (fun r : Z * string * cell =>
                       match Labor.month_num (snd (fst r)) with
                       | Some mm => [ym (fst (fst r)) mm]
                       | None => []
                       end)
                    (map (fun r : Z * list cell =>
                            (fst r, snd x, nth (fst x) (snd r) None))
                         (Labor.year_rows m)))
               pairs
             = flat_map (column_months m) (map snd pairs)).
  { induction pairs as [|[j name] tl IHp]; simpl; [reflexivity|].
    rewrite IHp. f_equal. clear IHp. unfold column_months.
    induction (Labor.year_rows m) as [|r rs IH]; simpl.
    - now destruct (Labor.month_num name).
    - rewrite IH. now destruct (Labor.month_num name). }
  rewrite Hg. now rewrite map_snd_combine_seq.
Qed.

Lemma ym_inj (y y' m m' : Z) :
  (1 <= m <= 12)%Z -> (1 <= m' <= 12)%Z -> ym y m = ym y' m' -> y = y' /\ m = m'.
Proof. unfold ym. lia. Qed.

Lemma column_months_nodup (m : Labor.matrix) (name : string) :
  NoDup (map fst (Labor.year_rows m)) -> NoDup (column_months m name).
Proof.
  intros Hnd. unfold column_months.
  destruct (Labor.month_num name) as [mm|] eqn:E; [|constructor].
  pose proof (month_map_range _ _ (month_num_in _ _ E)) as Hr.
  induction (Labor.year_rows m) as [|r tl IH]; simpl in *; constructor.
  - inversion Hnd as [|? ? Hnotin _]; subst. intros Hin.
    apply in_map_iff in Hin. destruct Hin as (r' & Heq & Hr').
    apply ym_inj in Heq; [|assumption|assumption]. destruct Heq as [Hy _].
    apply Hnotin. rewrite <- Hy. now apply in_map.
  - apply IH. now inversion Hnd.
Qed.

Lemma column_months_disjoint (m : Labor.matrix) (a b : string) (k : Month) :
  In k (column_months m a) -> In k (column_months m b) -> a = b.
Proof.
  unfold column_months.
  destruct (Labor.month_num a) as [ma|] eqn:Ea; [|intros []].
  destruct (Labor.month_num b) as [mb|] eqn:Eb; [|intros _ []].
  intros Ha Hb. apply in_map_iff in Ha, Hb.
  destruct Ha as (ra & <- & _). destruct Hb as (rb & Heq & _).
  apply month_num_in in Ea, Eb.
  apply ym_inj in Heq; try (eapply month_map_range; eassumption).
  destruct Heq as [_ ->]. eapply month_map_inj; eassumption.
Qed.

Lemma melt_months_nodup (m : Labor.matrix) (rows : list (Month * cell)) :
  tidy_matrix m ->
  Labor.dated (Labor.melt m) = Ok rows ->
  NoDup (map fst rows).
Proof.
  intros [Hcols Hyears] H. rewrite (melt_months m rows H).
  induction Hcols as [|c cols Hnotin _ IH]; simpl; [constructor|].
  apply NoDup_app.
  - now apply column_months_nodup.
  - exact IH.
  - intros k Hk Hk'. apply in_flat_map in Hk'. destruct Hk' as (c' & Hc' & Hk').
    rewrite (column_months_disjoint m c c' k Hk Hk') in Hnotin. contradiction.
Qed.

Lemma strongly_sorted_map_fst (l : list (Month * cell)) :
  StronglySorted (fun a b => Z.leb (fst a) (fst b) = true) l ->
  StronglySorted (fun a b => Z.leb a b = true) (map fst l).
Proof.
  induction 1 as [|x tl Hs IH Hx]; simpl; constructor; [exact IH|].
  rewrite Forall_forall in *. intros y Hy. apply in_map_iff in Hy.
  destruct Hy as (r & <- & Hr). now apply Hx.
Qed.

Lemma df_clean_strict (name : string) (rows : list (Month * cell)) :
  NoDup (map fst rows) ->
  StronglySorted Z.lt (index (Labor.df_clean name rows)).
Proof.
  intros Hnd. simpl. apply sorted_nodup_strict.
  - apply strongly_sorted_map_fst. apply isort_sorted.
    + intros a b. apply Zleb_total.
    + intros a b c. apply Zleb_trans.
  - eapply Permutation_NoDup; [|exact Hnd].
    apply Permutation_map, Permutation_sym, isort_perm.
Qed.

Lemma labor_add_file_strict (combined : DataFrame) (f : string * raw_file Labor.matrix) :
  tidy_file (snd f) ->
  StronglySorted Z.lt (index combined) ->
  StronglySorted Z.lt (index (Labor.add_file combined f)).
Proof.
  intros Ht Hc. unfold Labor.add_file.
  destruct (snd f) as [| | |m]; try exact Hc.
  destruct (Labor.dated (Labor.melt m)) as [rows|e] eqn:E; [|exact Hc].
  destruct (combine_with combined (Labor.df_clean (fst f) rows)) as [next|e] eqn:Ec;
    [|exact Hc].
  eapply combine_with_strict; [exact Hc| |exact Ec].
  apply df_clean_strict. eapply melt_months_nodup; eassumption.
Qed.

Lemma labor_index_strict (s : Labor.sources) :
  tidy_file (Labor.total s) -> tidy_file (Labor.men s) -> tidy_file (Labor.women s) ->
  StronglySorted Z.lt (index (Labor.clean_labor_data s)).
Proof.
  intros H1 H2 H3. unfold Labor.clean_labor_data, Labor.files. simpl.
  set (c1 := Labor.add_file empty_frame ("Unemp_Total"%string, Labor.total s)).
  set (c2 := Labor.add_file c1 ("Unemp_Men"%string, Labor.men s)).
  set (c3 := Labor.add_file c2 ("Unemp_Women"%string, Labor.women s)).
  assert (Hc1 : StronglySorted Z.lt (index c1)).
  { apply labor_add_file_strict; [exact H1|constructor]. }
  assert (Hc2 : StronglySorted Z.lt (index c2)).
  { apply labor_add_file_strict; [exact H2|exact Hc1]. }
  assert (Hc3 : StronglySorted Z.lt (index c3)).
  { apply labor_add_file_strict; [exact H3|exact Hc2]. }
  destruct (df_empty c3); [exact Hc3|now apply sort_slice_strict].
Qed.

(** *** The price-index table *)

Section DateLabels.
Open Scope string_scope.

Lemma split_on_nonempty (sep : ascii) (s : string) : PyStr.split_on sep s <> [].
Proof.
  destruct s as [|c s]; simpl; [discriminate|].
  destruct (Ascii.eqb c sep); [discriminate|].
  destruct (PyStr.split_on sep s); discriminate.
Qed.

(** Splitting around a separator splits both sides. *)
Lemma split_on_append (sep : ascii) (a b : string) :
  PyStr.split_on sep (a ++ String sep b)
  = (PyStr.split_on sep a ++ PyStr.split_on sep b)%list.
Proof.
  induction a as [|c a IH]; simpl.
  - now rewrite Ascii.eqb_refl.
  - destruct (Ascii.eqb c sep); [now rewrite IH|].
    rewrite IH. pose proof (split_on_nonempty sep a) as Hne.
    destruct (PyStr.split_on sep a) as [|h r]; [congruence|reflexivity].
Qed.

Lemma split_on_single (sep : ascii) (s : string) :
  forall x, PyStr.split_on sep s = [x] -> x = s.
Proof.
  induction s as [|c s IH]; intros x H; simpl in H.
  - now injection H as <-.
  - destruct (Ascii.eqb c sep).
    + pose proof (split_on_nonempty sep s) as Hne.
      destruct (PyStr.split_on sep s); [congruence|inversion H].
    + destruct (PyStr.split_on sep s) as [|h r] eqn:E.
      { exfalso. exact (split_on_nonempty sep s E). }
      injection H as <- ->. f_equal. now apply IH.
Qed.

(** A label built as year, month and "01" has three fields exactly when
    year and month hold no hyphen. *)
Lemma split_label (y m : string) :
  List.length (PyStr.split_on "-" (y ++ "-" ++ m ++ "-01")) <= 3 ->
  PyStr.split_on "-" (y ++ "-" ++ m ++ "-01") = [y; m; "01"].
Proof.
  change (y ++ "-" ++ m ++ "-01") with (y ++ String "-" (m ++ String "-" "01")).
  rewrite !split_on_append. intros Hlen.
  pose proof (split_on_nonempty "-" y) as Hy.
  pose proof (split_on_nonempty "-" m) as Hm.
  destruct (PyStr.split_on "-" y) as [|y0 [|y1 ry]] eqn:Ey; [congruence| |].
  - destruct (PyStr.split_on "-" m) as [|m0 [|m1 rm]] eqn:Em; [congruence| |].
    + apply split_on_single in Ey, Em. subst. reflexivity.
    + simpl in Hlen. repeat (rewrite length_app in Hlen; simpl in Hlen). lia.
  - destruct (PyStr.split_on "-" m) as [|m0 rm]; [congruence|].
    simpl in Hlen. repeat (rewrite length_app in Hlen; simpl in Hlen). lia.
Qed.

Lemma digit_of_range (c : ascii) (d : Z) :
  PyStr.digit_of c = Some d -> (0 <= d <= 9)%Z.
Proof.
  unfold PyStr.digit_of.
  destruct ((48 <=? PyStr.code c)%N && (PyStr.code c <=? 57)%N) eqn:E; [|discriminate].
  intros H. injection H as <-. apply andb_true_iff in E.
  rewrite !N.leb_le in E. lia.
Qed.

Lemma digit_of_inj (c1 c2 : ascii) (d : Z) :
  PyStr.digit_of c1 = Some d -> PyStr.digit_of c2 = Some d -> c1 = c2.
Proof.
  unfold PyStr.digit_of, PyStr.code.
  destruct ((48 <=? N_of_ascii c1)%N && (N_of_ascii c1 <=? 57)%N); [|discriminate].
  destruct ((48 <=? N_of_ascii c2)%N && (N_of_ascii c2 <=? 57)%N); [|discriminate].
  intros H1 H2. injection H1 as <-. injection H2 as H2.
  assert (E : N_of_ascii c1 = N_of_ascii c2) by lia.
  rewrite <- (ascii_N_embedding c1), <- (ascii_N_embedding c2). now rewrite E.
Qed.

(** Digit strings of the same length with the same value are equal. *)
Lemma digits_val_inj (s1 : string) :
  forall s2 acc1 acc2 v,
    String.length s1 = String.length s2 ->
    PyStr.digits_val acc1 s1 = Some v ->
    PyStr.digits_val acc2 s2 = Some v ->
    acc1 = acc2 /\ s1 = s2.
Proof.
  induction s1 as [|c1 s1 IH]; intros [|c2 s2] acc1 acc2 v Hlen H1 H2;
    cbn [PyStr.digits_val String.length] in *; try discriminate.
  - split; congruence.
  - destruct (PyStr.digit_of c1) as [d1|] eqn:E1; [|discriminate].
    destruct (PyStr.digit_of c2) as [d2|] eqn:E2; [|discriminate].
    injection Hlen as Hlen.
    destruct (IH s2 _ _ v Hlen H1 H2) as [Hacc ->].
    pose proof (digit_of_range _ _ E1). pose proof (digit_of_range _ _ E2).
    assert (d1 = d2 /\ acc1 = acc2) as [-> ->] by lia.
    split; [reflexivity|]. f_equal. eapply digit_of_inj; eassumption.
Qed.

Lemma number_inj (s1 s2 : string) (v : Z) :
  String.length s1 = String.length s2 ->
  PyStr.number s1 = Some v -> PyStr.number s2 = Some v -> s1 = s2.
Proof.
  intros Hlen H1 H2. unfold PyStr.number in *.
  destruct s1 as [|c1 r1]; [discriminate|].
  destruct s2 as [|c2 r2]; [discriminate|].
  exact (proj2 (digits_val_inj _ _ _ _ _ Hlen H1 H2)).
Qed.

(** What [to_datetime] reads in a label built as year, month and "01". *)
Lemma to_datetime_label (y m : string) (d : date) :
  Dates.to_datetime (y ++ "-" ++ m ++ "-01") = Some d ->
  exists Y M,
    d = mkDate Y M 1 /\ (1 <= M <= 12)%Z /\
    String.length y = 4 /\ PyStr.number y = Some Y /\ PyStr.number m = Some M.
Proof.
  unfold Dates.to_datetime, Dates.parse_ymd, Dates.parse_month_year.
  destruct (Nat.le_gt_cases
              (List.length (PyStr.split_on "-" (y ++ "-" ++ m ++ "-01"))) 3)
    as [Hle|Hgt].
  - rewrite (split_label y m Hle).
    unfold Dates.year_number.
    destruct (String.length y =? 4)%nat eqn:Ey.
    2:{ destruct (Dates.short_number m); discriminate. }
    apply Nat.eqb_eq in Ey.
    destruct (PyStr.number y) as [Y|] eqn:EY.
    2:{ destruct (Dates.short_number m); discriminate. }
    destruct (Dates.valid_year Y).
    2:{ destruct (Dates.short_number m); discriminate. }
    unfold Dates.short_number at 1.
    destruct (String.length m <=? 2)%nat; [|discriminate].
    destruct (PyStr.number m) as [M|] eqn:EM; [|discriminate].
    change (Dates.short_number "01") with (Some 1%Z).
    cbv beta iota.
    destruct ((1 <=? M)%Z && (M <=? 12)%Z && (1 <=? 1)%Z
              && (1 <=? Dates.days_in_month Y M)%Z) eqn:Ev; [|discriminate].
    intros H. injection H as <-. exists Y, M.
    repeat (apply andb_true_iff in Ev; destruct Ev as [Ev ?]).
    rewrite Z.leb_le in *. repeat split; auto; lia.
  - destruct (PyStr.split_on "-" (y ++ "-" ++ m ++ "-01"))
      as [|f1 [|f2 [|f3 [|f4 r]]]]; simpl in Hgt; try lia; discriminate.
Qed.

(** Two such labels with two-character months that denote the same
    month are the same label. *)
Lemma label_inj (y1 m1 y2 m2 : string) (d1 d2 : date) :
  String.length m1 = 2 -> String.length m2 = 2 ->
  Dates.to_datetime (y1 ++ "-" ++ m1 ++ "-01") = Some d1 ->
  Dates.to_datetime (y2 ++ "-" ++ m2 ++ "-01") = Some d2 ->
  month_of d1 = month_of d2 ->
  y1 ++ "-" ++ m1 ++ "-01" = y2 ++ "-" ++ m2 ++ "-01".
Proof.
  intros L1 L2 H1 H2 Hm.
  apply to_datetime_label in H1, H2.
  destruct H1 as (Y1 & M1 & -> & R1 & Ly1 & Ny1 & Nm1).
  destruct H2 as (Y2 & M2 & -> & R2 & Ly2 & Ny2 & Nm2).
  unfold month_of in Hm. simpl in Hm.
  apply ym_inj in Hm; [|assumption|assumption]. destruct Hm as [-> ->].
  rewrite (number_inj y1 y2 Y2), (number_inj m1 m2 M2); auto; congruence.
Qed.

End DateLabels.

Lemma series_records_dates (name : string) (items : list CPI.item) :
  forall recs,
    CPI.series_records name items = Ok recs ->
    forall r, In r recs ->
              exists it, In it items /\ CPI.month_code (CPI.period it) = true /\
                         CPI.r_date r = CPI.date_str it.
Proof.
  induction items as [|it tl IH]; intros recs H r Hr; simpl in H.
  - injection H as <-. destruct Hr.
  - destruct (CPI.month_code (CPI.period it)) eqn:Ec.
    + destruct (PyStr.float (CPI.value it)) as [v|]; [|discriminate].
      destruct (CPI.series_records name tl) as [rest|e]; [|discriminate].
      simpl in H. injection H as <-. destruct Hr as [<-|Hr].
      * exists it. simpl. auto.
      * destruct (IH rest eq_refl r Hr) as (it' & Hin & Hc & Hd).
        exists it'. simpl. auto.
    + destruct (IH recs H r Hr) as (it' & Hin & Hc & Hd).
      exists it'. simpl. auto.
Qed.

Lemma all_records_dates (l : list CPI.series) :
  forall recs,
    CPI.all_records l = Ok recs ->
    forall r, In r recs ->
              exists s it, In s l /\ In it (CPI.data s) /\
                           CPI.month_code (CPI.period it) = true /\
                           CPI.r_date r = CPI.date_str it.
Proof.
  induction l as [|s tl IH]; intros recs H r Hr; simpl in H.
  - injection H as <-. destruct Hr.
  - destruct (CPI.series_records (CPI.col_name (CPI.seriesID s)) (CPI.data s))
      as [here|e] eqn:Eh; [|discriminate].
    destruct (CPI.all_records tl) as [rest|e]; [|discriminate].
    simpl in H. injection H as <-. apply in_app_or in Hr. destruct Hr as [Hr|Hr].
    + destruct (series_records_dates _ _ _ Eh r Hr) as (it & Hin & Hc & Hd).
      exists s, it. simpl. auto.
    + destruct (IH rest eq_refl r Hr) as (s' & it & Hs & Hin & Hc & Hd).
      exists s', it. simpl. auto.
Qed.

Lemma to_datetime_index_each (labels : list string) :
  forall idx,
    CPI.to_datetime_index labels = Ok idx ->
    Forall2 (fun s k => exists d, Dates.to_datetime s = Some d /\ k = month_of d)
            labels idx.
Proof.
  induction labels as [|s tl IH]; intros idx H; simpl in H.
  - injection H as <-. constructor.
  - destruct (Dates.to_datetime s) as [d|] eqn:Ed; [|discriminate].
    destruct (CPI.to_datetime_index tl) as [rest|e]; [|discriminate].
    simpl in H. injection H as <-. constructor; [eauto|now apply IH].
Qed.

(** Distinct labels read as distinct months give an index without
    duplicates. *)
Lemma nodup_images {A B : Type} (R : A -> B -> Prop) (l : list A) :
  forall l',
    Forall2 R l l' ->
    NoDup l ->
    (forall a a' b, In a l -> In a' l -> R a b -> R a' b -> a = a') ->
    NoDup l'.
Proof.
  induction 1 as [|a b tl tl' Hab Hrest IH]; intros Hnd Hinj; constructor.
  - inversion Hnd as [|? ? Hnotin _]; subst. intros Hin.
    assert (Hex : exists a', In a' tl /\ R a' b).
    { clear -Hrest Hin. induction Hrest as [|x y l l' Hxy _ IHr]; [destruct Hin|].
      destruct Hin as [->|Hin].
      - exists x. split; [now left|exact Hxy].
      - destruct (IHr Hin) as (a' & Ha' & HR). exists a'. split; [now right|exact HR]. }
    destruct Hex as (a' & Ha' & HR).
    assert (a = a') by (apply (Hinj a a' b); simpl; auto).
    subst a'. contradiction.
  - apply IH.
    + now inversion Hnd.
    + intros x x' y Hx Hx'. apply Hinj; now right.
Qed.

Lemma tail_length (p : string) : String.length p = 3 -> String.length (PyStr.tail p) = 2.
Proof. destruct p as [|c r]; simpl; [discriminate|]. intros H. now injection H. Qed.

Lemma cpi_index_strict (pad : bool) (l : list CPI.series) (df : DataFrame) :
  plain_month_codes l ->
  CPI.clean_cpi_data pad (Loaded (CPI.Series l)) = Ok (Frame df) ->
  StronglySorted Z.lt (index df).
Proof.
  intros Hplain Hrun.
  destruct (CPI.all_records l) as [recs|e] eqn:Hrecs.
  2:{ unfold CPI.clean_cpi_data in Hrun. rewrite Hrecs in Hrun. discriminate. }
  destruct (clean_cpi_data_frame pad l recs df Hrecs Hrun)
    as (dates & cols & idx & Hpivot & Hidx & Hindex & _).
  destruct (pivot_shape recs dates cols Hpivot) as (_ & Hdates & _).
  rewrite Hindex. apply isort_strict.
  apply (nodup_images _ dates idx (to_datetime_index_each _ _ Hidx)).
  - rewrite Hdates. unfold CPI.sort_unique_str.
    eapply Permutation_NoDup; [apply Permutation_sym, isort_perm|apply NoDup_nodup].
  - intros s1 s2 k H1 H2 (d1 & Hd1 & Hk1) (d2 & Hd2 & Hk2).
    rewrite Hdates in H1, H2.
    apply (proj1 (sort_unique_str_in _ _)) in H1.
    apply (proj1 (sort_unique_str_in _ _)) in H2.
    apply in_map_iff in H1, H2.
    destruct H1 as (r1 & <- & Hr1). destruct H2 as (r2 & <- & Hr2).
    destruct (all_records_dates l recs Hrecs r1 Hr1) as (sr1 & it1 & Hs1 & Hi1 & Hc1 & E1).
    destruct (all_records_dates l recs Hrecs r2 Hr2) as (sr2 & it2 & Hs2 & Hi2 & Hc2 & E2).
    rewrite E1, E2 in *. unfold CPI.date_str in *.
    apply (label_inj _ _ _ _ d1 d2).
    + apply tail_length. exact (Hplain sr1 it1 Hs1 Hi1 Hc1).
    + apply tail_length. exact (Hplain sr2 it2 Hs2 Hi2 Hc2).
    + exact Hd1.
    + exact Hd2.
    + congruence.
Qed.

(** C9, as the code has it.  The index of the table a parser returns is
    strictly increasing, hence without duplicate month: for the price
    index when the month codes are the three-character codes, for the
    energy prices always, for the labor matrices when each has one row
    per year and one column per name. *)
Theorem parser_index_strictly_increasing :
  (forall (pad : bool) (l : list CPI.series) (df : DataFrame),
      plain_month_codes l ->
      CPI.clean_cpi_data pad (Loaded (CPI.Series l)) = Ok (Frame df) ->
      StronglySorted Z.lt (index df) /\ NoDup (index df)) /\
  (forall (s : Energy.sources) (df : DataFrame),
      Energy.clean_energy_data s = Ok df ->
      StronglySorted Z.lt (index df) /\ NoDup (index df)) /\
  (forall s : Labor.sources,
      tidy_file (Labor.total s) -> tidy_file (Labor.men s) ->
      tidy_file (Labor.women s) ->
      StronglySorted Z.lt (index (Labor.clean_labor_data s)) /\
      NoDup (index (Labor.clean_labor_data s))).
Proof.
  split; [|split].
  - intros pad l df Hp Hrun.
    pose proof (cpi_index_strict pad l df Hp Hrun) as H.
    split; [exact H|now apply strict_nodup].
  - intros s df Hrun. pose proof (energy_index_strict s df Hrun) as H.
    split; [exact H|now apply strict_nodup].
  - intros s H1 H2 H3. pose proof (labor_index_strict s H1 H2 H3) as H.
    split; [exact H|now apply strict_nodup].
Qed.

Lemma parser_index_strictly_increasing_witness :
  (exists df,
      CPI.clean_cpi_data true (Loaded (CPI.Series Sample.thirteen_months)) = Ok (Frame df) /\
      StronglySorted Z.lt (index df) /\ NoDup (index df)) /\
  (exists df,
      Energy.clean_energy_data Sample.small_energy = Ok df /\
      StronglySorted Z.lt (index df) /\ NoDup (index df)) /\
  (StronglySorted Z.lt (index (Labor.clean_labor_data Sample.two_years)) /\
   NoDup (index (Labor.clean_labor_data Sample.two_years))).
Proof.
  destruct parser_index_strictly_increasing as (Hcpi & Henergy & Hlabor).
  split; [|split].
  - eexists. split; [vm_compute; reflexivity|].
    apply (Hcpi true Sample.thirteen_months).
    + intros s it Hs Hit _. simpl in Hs. destruct Hs as [<-|[]].
      simpl in Hit.
      repeat (destruct Hit as [<-|Hit]; [reflexivity|]). destruct Hit.
    + vm_compute. reflexivity.
  - eexists. split; [vm_compute; reflexivity|].
    apply (Henergy Sample.small_energy). vm_compute. reflexivity.
  - apply (Hlabor Sample.two_years); simpl; try exact I.
    split; repeat constructor; simpl; intuition discriminate.
Defined.

(** C9, as the specification words it, fails for a labor matrix with two
    rows for one year: the parser accepts it, and every month of that
    year is twice in the index of the table it returns. *)
Lemma repeated_year_repeats_months :
  index (Labor.clean_labor_data Sample.repeated_year)
    = [ym 2016 1; ym 2016 1; ym 2016 2; ym 2016 2] /\
  ~ NoDup (index (Labor.clean_labor_data Sample.repeated_year)) /\
  ~ StronglySorted Z.lt (index (Labor.clean_labor_data Sample.repeated_year)).
Proof.
  assert (E : index (Labor.clean_labor_data Sample.repeated_year)
              = [ym 2016 1; ym 2016 1; ym 2016 2; ym 2016 2])
    by (vm_compute; reflexivity).
  split; [exact E|]. rewrite E. split.
  - intros H. inversion H as [|? ? Hnotin _]; subst. apply Hnotin. now left.
  - intros H. apply strict_nodup in H.
    inversion H as [|? ? Hnotin _]; subst. apply Hnotin. now left.
Qed.

(** ** The merge step when no source has data *)

(** [clean_cpi_data] never returns an empty frame: it returns [None],
    raises, or returns a table with a row and a column. *)
Lemma cpi_frame_not_empty (pad : bool) (f : raw_file CPI.payload) (df : DataFrame) :
  CPI.clean_cpi_data pad f = Ok (Frame df) -> df_empty df = false.
Proof.
  intros Hrun. destruct f as [| | |[| |l]]; try discriminate.
  destruct (CPI.all_records l) as [recs|e] eqn:Hrecs.
  2:{ unfold CPI.clean_cpi_data in Hrun. rewrite Hrecs in Hrun. discriminate. }
  destruct (clean_cpi_data_frame pad l recs df Hrecs Hrun)
    as (dates & cols & idx & Hpivot & Hidx & Hindex & Hcols).
  destruct (pivot_shape recs dates cols Hpivot) as (Hnames & Hdates & _).
  destruct recs as [|r recs]; [discriminate|].
  assert (Hrow : index df <> []).
  { assert (Hin : In (CPI.r_date r) dates).
    { rewrite Hdates. apply sort_unique_str_in. now left. }
    pose proof (to_datetime_index_length _ _ Hidx) as Hlen.
    destruct dates as [|s0 dates']; [destruct Hin|].
    destruct idx as [|k idx']; [discriminate|].
    intros E. rewrite Hindex in E.
    pose proof (isort_perm Z Z.leb (k :: idx')) as Hp. rewrite E in Hp.
    apply Permutation_nil in Hp. discriminate. }
  assert (Hcol : columns df <> []).
  { assert (Hrated : rated pad (columns df) (CPI.r_type r)).
    { rewrite Hcols. apply (add_yoy_rated pad (map fst cols) []).
      - intros x Hx. now rewrite names_take.
      - intros x [].
      - intros x y [].
      - rewrite Hnames. apply sort_unique_str_clear.
      - simpl. rewrite Hnames. apply sort_unique_str_in. now left. }
    destruct Hrated as (vals & Hv & _). apply get_column_in in Hv.
    intros E. rewrite E in Hv. destruct Hv. }
  unfold df_empty. destruct (index df); [congruence|].
  destruct (columns df); [congruence|reflexivity].
Qed.

(** C5.  When each of the four parsers returns without data ([None] or
    an empty frame), [merge_all_data] writes no final dataset and the
    run ends on an error.  After the parsers have returned, the merge
    step ends either on the message "Error: No data available to
    merge." or on an [AttributeError]; in the whole run the result of
    [clean_cpi_data] without data is [None], so the run ends on the
    [AttributeError]. *)
Theorem all_sources_empty_no_output :
  forall (pad : bool) (raw : Merge.raw_dir) (df1 : pyval) (df2 : DataFrame),
    CPI.clean_cpi_data pad (Merge.cpi raw) = Ok df1 ->
    Energy.clean_energy_data (Merge.energy raw) = Ok df2 ->
    no_data df1 = true ->
    df_empty df2 = true ->
    df_empty (Labor.clean_labor_data (Merge.labor raw)) = true ->
    df_empty (News.clean_news_data (Merge.news raw)) = true ->
    (forall d1 : pyval,
        no_data d1 = true ->
        let dfs := [d1; Frame df2;
                    Frame (Labor.clean_labor_data (Merge.labor raw));
                    Frame (News.clean_news_data (Merge.news raw))] in
        Merge.merge_frames dfs = Merge.NoDataError \/
        Merge.merge_frames dfs = Merge.Crashed AttributeError) /\
    Merge.merge_all_data pad raw = Merge.Crashed AttributeError /\
    (forall final_df, Merge.merge_all_data pad raw <> Merge.Saved final_df).
Proof.
  intros pad raw df1 df2 H1 H2 E1 E2 E3 E4.
  assert (Hcrash : Merge.merge_all_data pad raw = Merge.Crashed AttributeError).
  { unfold Merge.merge_all_data. rewrite H1, H2.
    destruct df1 as [|df]; [reflexivity|].
    simpl in E1. rewrite (cpi_frame_not_empty pad _ df H1) in E1. discriminate. }
  split; [|split].
  - intros d1 Hd1 dfs. unfold Merge.merge_frames.
    assert (Hall : Forall (fun d => no_data d = true) dfs)
      by (repeat constructor; assumption).
    destruct (non_empty_all_no_data _ Hall) as [-> | ->]; auto.
  - exact Hcrash.
  - intros final_df Hs. rewrite Hcrash in Hs. discriminate.
Qed.

Lemma all_sources_empty_no_output_witness :
  Merge.merge_all_data true Sample.empty_raw = Merge.Crashed AttributeError /\
  (forall final_df, Merge.merge_all_data true Sample.empty_raw <> Merge.Saved final_df).
Proof.
  apply (all_sources_empty_no_output true Sample.empty_raw PyNone empty_frame);
    reflexivity.
Defined.

(* ================================================================== *)
(** * Further properties of the pipeline *)
(* ================================================================== *)

(** ** Interpolation: observed cells, repetition, the straight line *)

(** X1.  The interpolation keeps the length of a column and every
    observed cell: only missing cells are written. *)
Theorem interpolate_keeps_observed :
  forall col : list cell,
    List.length (Interp.interpolate col) = List.length col /\
    (forall i v, nth_error col i = Some (Some v) ->
                 nth_error (Interp.interpolate col) i = Some (Some v)).
Proof.
  intros col. split.
  - apply interp_fill_length.
  - intros i v H. now apply interp_fill_observed.
Qed.

Lemma interpolate_keeps_observed_witness :
  nth_error (Interp.interpolate Sample.gap_column) 5 = Some (Some (inject_Z 18)).
Proof.
  apply (proj2 (interpolate_keeps_observed Sample.gap_column) 5 (inject_Z 18)).
  reflexivity.
Defined.

Lemma interp_fill_full (col : list cell) :
  forall prev i,
    Forall (fun x => notna x = true) col ->
    Interp.interp_fill prev i col = col.
Proof.
  induction col as [|[v|] tl IH]; intros prev i H; simpl.
  - reflexivity.
  - f_equal. apply IH. now inversion H.
  - inversion H as [|? ? Hn _]; subst. discriminate.
Qed.

(** X2.  Interpolating twice is interpolating once; a column without
    missing cell is returned as it is. *)
Theorem interpolate_idempotent :
  forall col : list cell,
    Interp.interpolate (Interp.interpolate col) = Interp.interpolate col /\
    (Forall (fun x => notna x = true) col -> Interp.interpolate col = col).
Proof.
  intros col. split.
  - destruct (all_missing_or_valid col) as [Hm|Hv].
    + unfold Interp.interpolate. now rewrite !(interp_fill_all_missing col 0 Hm).
    + unfold Interp.interpolate at 1. apply interp_fill_full.
      now apply interpolate_complete.
  - intros H. now apply interp_fill_full.
Qed.

Lemma interpolate_idempotent_witness :
  Interp.interpolate [Some (inject_Z 1); Some (inject_Z 2)]
  = [Some (inject_Z 1); Some (inject_Z 2)].
Proof.
  apply (proj2 (interpolate_idempotent [Some (inject_Z 1); Some (inject_Z 2)])).
  repeat constructor.
Defined.

Lemma first_valid_from_gap (n : nat) (b : Q) (post : list cell) :
  forall s, Interp.first_valid_from s (repeat None n ++ Some b :: post) = Some (s + n, b).
Proof.
  induction n as [|n IH]; intros s; simpl.
  - now rewrite Nat.add_0_r.
  - rewrite IH. now rewrite Nat.add_succ_r.
Qed.

Lemma interp_fill_gap (j : nat) (a b : Q) (post : list cell) (n : nat) :
  forall s t,
    t < n ->
    nth_error (Interp.interp_fill (Some (j, a)) s (repeat None n ++ Some b :: post)) t
    = Some (Some (Interp.np_interp_between j a (s + n) b (s + t))).
Proof.
  induction n as [|n IH]; intros s t Ht; [lia|].
  simpl. rewrite first_valid_from_gap.
  replace (S s + n) with (s + S n) by lia.
  destruct t as [|t]; simpl.
  - now rewrite Nat.add_0_r.
  - rewrite IH by lia.
    replace (S s + n) with (s + S n) by lia.
    replace (S s + t) with (s + S t) by lia. reflexivity.
Qed.

Lemma interp_fill_skip (pre rest : list cell) :
  forall prev i0 m,
    exists prev',
      nth_error (Interp.interp_fill prev i0 (pre ++ rest)) (List.length pre + m)
      = nth_error (Interp.interp_fill prev' (i0 + List.length pre) rest) m.
Proof.
  induction pre as [|[v|] pre IH]; intros prev i0 m; simpl.
  - exists prev. now rewrite Nat.add_0_r.
  - destruct (IH (Some (i0, v)) (S i0) m) as [prev' H].
    exists prev'. rewrite H.
    replace (S i0 + List.length pre) with (i0 + S (List.length pre)) by lia.
    reflexivity.
  - destruct (IH prev (S i0) m) as [prev' H].
    exists prev'. rewrite H.
    replace (S i0 + List.length pre) with (i0 + S (List.length pre)) by lia.
    reflexivity.
Qed.

(** In exact arithmetic the cells of a gap lie on the straight line
    through the two observations around it. *)
Lemma interp_gap_value (pre post : list cell) (a b : Q) (n t : nat) :
  t < n ->
  exists q,
    nth_error (Interp.interpolate (pre ++ Some a :: repeat None n ++ Some b :: post))
              (List.length pre + 1 + t)
    = Some (Some q) /\
    (q == a + (b - a) * (Qnat (t + 1) / Qnat (n + 1)))%Q.
Proof.
  intros Ht.
  unfold Interp.interpolate.
  destruct (interp_fill_skip pre (Some a :: repeat None n ++ Some b :: post)
              None 0 (1 + t)) as [prev' H].
  rewrite Nat.add_assoc in H. rewrite H. simpl.
  rewrite (interp_fill_gap (List.length pre) a b post n (S (List.length pre)) t Ht).
  eexists. split; [reflexivity|].
  unfold Interp.np_interp_between, Qnat.
  rewrite !Nat2Z.inj_add, !Nat2Z.inj_succ, !inject_Z_plus.
  unfold Z.succ. rewrite !inject_Z_plus.
  assert (Hn : (0 <= inject_Z (Z.of_nat n))%Q).
  { change 0%Q with (inject_Z 0). rewrite <- Zle_Qle. lia. }
  simpl (Z.of_nat 0). change (inject_Z 0) with 0%Q. change (inject_Z 1) with 1%Q.
  generalize dependent (inject_Z (Z.of_nat n)). intros N HN.
  generalize (inject_Z (Z.of_nat t)) (inject_Z (Z.of_nat (List.length pre))).
  intros T P. field. intros E. lra.
Qed.

(** X3.  The cells that fill a gap of [n] missing rows between two
    neighbouring observations [a] and [b] depend on nothing but [a],
    [b], the length of the gap and the place in it: they are the cells
    the column made of the two observations and the gap alone would
    receive, whatever stands before and after.  When [a] and [b] are
    whole numbers of magnitude at most [2^52] and [b - a] is [n + 1]
    times a whole step [k], which numpy computes without rounding, the
    row number [t + 1] of the gap receives [a + k * (t + 1)]. *)
Theorem interpolate_on_the_line :
  forall (pre post : list cell) (a b : Q) (n t : nat),
    t < n ->
    (exists q q',
        nth_error (Interp.interpolate (pre ++ Some a :: repeat None n ++ Some b :: post))
                  (List.length pre + 1 + t)
        = Some (Some q) /\
        nth_error (Interp.interpolate (Some a :: repeat None n ++ [Some b])) (1 + t)
        = Some (Some q') /\
        (q == q')%Q) /\
    (forall za k : Z,
        (Z.abs za <= 2 ^ 52)%Z ->
        (Z.abs (za + k * Z.of_nat (n + 1)) <= 2 ^ 52)%Z ->
        a = inject_Z za ->
        b = inject_Z (za + k * Z.of_nat (n + 1)) ->
        exists q,
          nth_error (Interp.interpolate (pre ++ Some a :: repeat None n ++ Some b :: post))
                    (List.length pre + 1 + t)
          = Some (Some q) /\
          (q == inject_Z (za + k * Z.of_nat (t + 1)))%Q).
Proof.
  intros pre post a b n t Ht.
  destruct (interp_gap_value pre post a b n t Ht) as (q & Hq & Eq).
  split.
  - destruct (interp_gap_value [] [] a b n t Ht) as (q' & Hq' & Eq').
    exists q, q'. split; [exact Hq|]. split; [exact Hq'|].
    now rewrite Eq, Eq'.
  - intros za k _ _ -> ->. exists q. split; [exact Hq|].
    rewrite Eq. unfold Qnat.
    rewrite !inject_Z_plus, !inject_Z_mult.
    assert (HN : (0 < inject_Z (Z.of_nat (n + 1)))%Q).
    { change 0%Q with (inject_Z 0). rewrite <- Zlt_Qlt. lia. }
    generalize dependent (inject_Z (Z.of_nat (n + 1))). intros N HN.
    field. intros E. rewrite E in HN. now apply Qlt_irrefl in HN.
Qed.

Lemma interpolate_on_the_line_witness :
  exists q,
    nth_error (Interp.interpolate Sample.gap_column) 3 = Some (Some q) /\
    (q == inject_Z 14)%Q.
Proof.
  apply (proj2 (interpolate_on_the_line [None] [None] (inject_Z 10) (inject_Z 18) 3 1
                  ltac:(lia)) 10%Z 2%Z).
  - vm_compute. discriminate.
  - vm_compute. discriminate.
  - reflexivity.
  - reflexivity.
Defined.

(** ** The final dataset: window, shape, provenance of the cells *)

Lemma in_window_bounds (k : Month) :
  in_window k = true <-> (ym 2016 1 <= k <= ym 2025 12)%Z.
Proof.
  unfold in_window, month_of. simpl.
  rewrite andb_true_iff, !Z.leb_le. tauto.
Qed.

(** X4.  Whatever the raw directory holds, a final dataset that is
    written has all its rows between January 2016 and December 2025,
    and each of its columns is as long as its index. *)
Theorem final_dataset_within_window :
  forall (pad : bool) (raw : Merge.raw_dir) (final_df : DataFrame),
    Merge.merge_all_data pad raw = Merge.Saved final_df ->
    Forall (fun k => (ym 2016 1 <= k <= ym 2025 12)%Z) (index final_df) /\
    wf_frame final_df.
Proof.
  intros pad raw final_df Hrun.
  destruct (merge_all_data_saved _ _ _ Hrun) as [joined ->]. split.
  - simpl. apply Forall_forall. intros k Hk. apply filter_In in Hk.
    now apply in_window_bounds.
  - unfold wf_frame. simpl. apply Forall_forall. intros c Hc.
    apply in_map_iff in Hc. destruct Hc as (c1 & <- & Hc1).
    apply in_map_iff in Hc1. destruct Hc1 as (c0 & <- & _). simpl.
    unfold Interp.interpolate. rewrite interp_fill_length, take_length.
    apply where_from_length.
Qed.

Lemma final_dataset_within_window_witness :
  exists final_df,
    Merge.merge_all_data true Sample.small_raw = Merge.Saved final_df /\
    Forall (fun k => (ym 2016 1 <= k <= ym 2025 12)%Z) (index final_df) /\
    wf_frame final_df.
Proof.
  eexists. split.
  - vm_compute. reflexivity.
  - apply (final_dataset_within_window true Sample.small_raw).
    vm_compute. reflexivity.
Defined.

Lemma join_outer_names (L R J : DataFrame) :
  join_outer L R = Ok J -> names J = (names L ++ names R)%list.
Proof.
  unfold join_outer. destruct (overlap (names L) (names R)); [discriminate|].
  intros H. injection H as <-. unfold names. simpl.
  now rewrite map_app, !names_take.
Qed.

Lemma join_all_names (rest : list DataFrame) :
  forall first J,
    Merge.join_all first rest = Ok J ->
    names J = (names first ++ flat_map names rest)%list.
Proof.
  induction rest as [|t rest IH]; intros first J H; simpl in H.
  - injection H as <-. simpl. now rewrite app_nil_r.
  - destruct (join_outer first t) as [J1|e] eqn:E; [|discriminate].
    simpl in H. rewrite (IH J1 J H), (join_outer_names _ _ _ E).
    simpl. now rewrite app_assoc.
Qed.

(** X5.  The columns of the final dataset are the columns of the tables
    that are not empty, table after table in the order CPI, energy,
    labor, news in which the parsers are called, each table's columns
    in their own order. *)
Theorem final_dataset_columns_in_order :
  forall (dfs : list pyval) (kept : list DataFrame) (final_df : DataFrame),
    Merge.non_empty dfs = Ok kept ->
    Merge.merge_frames dfs = Merge.Saved final_df ->
    names final_df = flat_map names kept.
Proof.
  intros dfs kept final_df Hne. unfold Merge.merge_frames. rewrite Hne.
  destruct kept as [|first rest]; [discriminate|].
  destruct (Merge.join_all first rest) as [J|e] eqn:E; [|discriminate].
  intros H. injection H as <-.
  unfold names at 1. simpl. rewrite !map_map. simpl.
  change (map (fun x : string * list cell => fst x) (columns J)) with (names J).
  now rewrite (join_all_names _ _ _ E).
Qed.

Lemma final_dataset_columns_in_order_witness :
  exists final_df,
    Merge.merge_frames [Frame Sample.table_b; Frame empty_frame; Frame Sample.table_a]
    = Merge.Saved final_df /\
    names final_df = ["b"; "a"]%string.
Proof.
  eexists. split.
  - vm_compute. reflexivity.
  - apply (final_dataset_columns_in_order
             [Frame Sample.table_b; Frame empty_frame; Frame Sample.table_a]
             [Sample.table_b; Sample.table_a]).
    + reflexivity.
    + vm_compute. reflexivity.
Defined.

Lemma overlap_sound (a b : list string) :
  overlap a b = false -> forall x, In x a -> ~ In x b.
Proof.
  unfold overlap. intros H x Ha Hb.
  assert (E : existsb (fun x => existsb (String.eqb x) b) a = true).
  { apply existsb_exists. exists x. split; [exact Ha|].
    apply existsb_exists. exists x. split; [exact Hb|apply String.eqb_refl]. }
  congruence.
Qed.

Lemma non_empty_filter (ts : list DataFrame) :
  Merge.non_empty (map Frame ts) = Ok (filter (fun t => negb (df_empty t)) ts).
Proof.
  induction ts as [|t tl IH]; simpl; [reflexivity|].
  rewrite IH. simpl. destruct (df_empty t); reflexivity.
Qed.

(** The tables that are kept for the merge, two of which share a
    column name. *)
Lemma join_all_collision (rest : list DataFrame) :
  forall J : DataFrame,
    (exists t c, In t rest /\ In c (names J) /\ In c (names t)) \/
    (exists i j ti tj c,
        i < j /\ nth_error rest i = Some ti /\ nth_error rest j = Some tj /\
        In c (names ti) /\ In c (names tj)) ->
    Merge.join_all J rest = Raise ValueError.
Proof.
  induction rest as [|t tl IH]; intros J H.
  - destruct H as [(t & c & [] & _)|(i & j & ti & tj & c & _ & Hi & _)].
    destruct i; discriminate.
  - cbn [Merge.join_all]. unfold join_outer at 1.
    destruct (overlap (names J) (names t)) eqn:Hov; [reflexivity|].
    cbn [bind]. apply IH.
    set (J1 := mkDF _ _).
    assert (Hn : names J1 = (names J ++ names t)%list).
    { unfold J1, names. simpl. now rewrite map_app, !names_take. }
    destruct H as [(t' & c & [<-|Ht'] & HcJ & Hct)
                  |(i & j & ti & tj & c & Hij & Hi & Hj & Hci & Hcj)].
    + exfalso. exact (overlap_sound _ _ Hov c HcJ Hct).
    + left. exists t', c. rewrite Hn. split; [exact Ht'|].
      split; [apply in_or_app; now left|exact Hct].
    + destruct j as [|j]; [lia|]. simpl in Hj. destruct i as [|i].
      * simpl in Hi. injection Hi as <-. left. exists tj, c. rewrite Hn.
        split; [eapply nth_error_In; eassumption|].
        split; [apply in_or_app; now right|exact Hcj].
      * right. exists i, j, ti, tj, c. simpl in Hi. repeat split; auto. lia.
Qed.

Lemma join_all_raise (rest : list DataFrame) :
  forall (J : DataFrame) (e : exn),
    Merge.join_all J rest = Raise e ->
    e = ValueError /\
    ((exists t c, In t rest /\ In c (names J) /\ In c (names t)) \/
     (exists i j ti tj c,
         i < j /\ nth_error rest i = Some ti /\ nth_error rest j = Some tj /\
         In c (names ti) /\ In c (names tj))).
Proof.
  induction rest as [|t tl IH]; intros J e H; [discriminate|].
  cbn [Merge.join_all] in H. unfold join_outer at 1 in H.
  destruct (overlap (names J) (names t)) eqn:Hov.
  - injection H as <-. split; [reflexivity|]. left.
    unfold overlap in Hov. apply existsb_exists in Hov.
    destruct Hov as (c & HcJ & Hc). apply existsb_exists in Hc.
    destruct Hc as (c' & Hct & E). apply String.eqb_eq in E. subst c'.
    exists t, c. split; [now left|]. split; assumption.
  - cbn [bind] in H. set (J1 := mkDF _ _) in H.
    assert (Hn : names J1 = (names J ++ names t)%list).
    { unfold J1, names. simpl. now rewrite map_app, !names_take. }
    destruct (IH J1 e H) as (He & Hcase). split; [exact He|].
    destruct Hcase as [(t' & c & Ht' & HcJ & Hct)
                      |(i & j & ti & tj & c & Hij & Hi & Hj & Hci & Hcj)].
    + rewrite Hn in HcJ. apply in_app_or in HcJ. destruct HcJ as [HcJ|HcJ].
      * left. exists t', c. split; [now right|]. split; assumption.
      * right. destruct (In_nth_error tl t' Ht') as (j & Hj).
        exists 0, (S j), t, t', c. simpl. repeat split; auto. lia.
    + right. exists (S i), (S j), ti, tj, c. simpl. repeat split; auto. lia.
Qed.

(** X6.  The merge step ends on an exception of the join exactly when
    two of the tables that are not empty share a column name, wherever
    they stand in the list; the exception is a [ValueError] and no final
    dataset is written. *)
Theorem merge_name_collision :
  forall ts : list DataFrame,
    let kept := filter (fun t => negb (df_empty t)) ts in
    (forall i j ti tj c,
        i < j -> nth_error kept i = Some ti -> nth_error kept j = Some tj ->
        In c (names ti) -> In c (names tj) ->
        Merge.merge_frames (map Frame ts) = Merge.Crashed ValueError) /\
    (forall e,
        Merge.merge_frames (map Frame ts) = Merge.Crashed e ->
        e = ValueError /\
        exists i j ti tj c,
          i < j /\ nth_error kept i = Some ti /\ nth_error kept j = Some tj /\
          In c (names ti) /\ In c (names tj)).
Proof.
  intros ts kept. unfold Merge.merge_frames. rewrite non_empty_filter. fold kept.
  split.
  - intros i j ti tj c Hij Hi Hj Hci Hcj.
    destruct kept as [|first rest]; [destruct i; discriminate|].
    rewrite (join_all_collision rest first); [reflexivity|].
    destruct j as [|j]; [lia|]. simpl in Hj. destruct i as [|i].
    + simpl in Hi. injection Hi as <-. left. exists tj, c.
      split; [eapply nth_error_In; eassumption|]. split; assumption.
    + right. exists i, j, ti, tj, c. simpl in Hi. repeat split; auto. lia.
  - intros e H. destruct kept as [|first rest]; [discriminate|].
    destruct (Merge.join_all first rest) as [J|e'] eqn:E; [discriminate|].
    injection H as ->.
    destruct (join_all_raise rest first e E) as (He & Hcase).
    split; [exact He|].
    destruct Hcase as [(t & c & Ht & Hcf & Hct)
                      |(i & j & ti & tj & c & Hij & Hi & Hj & Hci & Hcj)].
    + destruct (In_nth_error rest t Ht) as (j & Hj).
      exists 0, (S j), first, t, c. simpl. repeat split; auto. lia.
    + exists (S i), (S j), ti, tj, c. simpl. repeat split; auto. lia.
Qed.

Lemma merge_name_collision_witness :
  Merge.merge_frames (map Frame [Sample.table_a; empty_frame; Sample.table_a])
  = Merge.Crashed ValueError.
Proof.
  apply (proj1 (merge_name_collision [Sample.table_a; empty_frame; Sample.table_a])
           0 1 Sample.table_a Sample.table_a "a"%string).
  - lia.
  - reflexivity.
  - reflexivity.
  - simpl. auto.
  - simpl. auto.
Defined.

(** X7.  For monthly tables with disjoint column names the index of the
    final dataset is strictly increasing and holds exactly the months
    of the window that occur in some table: the outer join loses no
    month and invents none. *)
Theorem final_dataset_index_is_union :
  forall ts : list DataFrame,
    ts <> [] ->
    Forall monthly_table ts ->
    NoDup (flat_map names ts) ->
    exists F : DataFrame,
      Merge.merge_frames (map Frame ts) = Merge.Saved F /\
      StronglySorted Z.lt (index F) /\
      (forall k : Month,
          In k (index F) <->
          in_window k = true /\ exists t, In t ts /\ In k (index t)).
Proof.
  intros ts Hne Hall Hnd.
  destruct (merge_frames_joined ts Hne Hall Hnd) as (J & HF & Hs & Hin & _).
  exists (interpolate_frame (slice_window J)). split; [exact HF|]. split.
  - simpl. now apply strict_filter.
  - intros k. simpl. rewrite filter_In, Hin, in_flat_map. tauto.
Qed.

Lemma final_dataset_index_is_union_witness :
  exists F : DataFrame,
    Merge.merge_frames (map Frame [Sample.table_a; Sample.table_b]) = Merge.Saved F /\
    StronglySorted Z.lt (index F) /\
    (forall k : Month,
        In k (index F) <->
        in_window k = true /\
        exists t, In t [Sample.table_a; Sample.table_b] /\ In k (index t)).
Proof.
  apply (final_dataset_index_is_union [Sample.table_a; Sample.table_b]).
  - discriminate.
  - repeat constructor; vm_compute; lia.
  - repeat constructor; simpl; intuition discriminate.
Defined.

Lemma take_where (p : Month -> bool) (f : Month -> cell) (idx : list Month) :
  forall pre : list cell,
    take (where_from (List.length pre) p idx) (pre ++ map f idx) = map f (filter p idx).
Proof.
  induction idx as [|x tl IH]; intros pre; simpl; [reflexivity|].
  assert (Hnext : take (where_from (S (List.length pre)) p tl) (pre ++ f x :: map f tl)
                  = map f (filter p tl)).
  { specialize (IH (pre ++ [f x])).
    rewrite length_app, <- app_assoc in IH. simpl in IH.
    now rewrite Nat.add_1_r in IH. }
  destruct (p x); simpl; [|exact Hnext].
  rewrite Hnext. f_equal. rewrite app_nth2 by lia.
  now rewrite Nat.sub_diag.
Qed.

Lemma find_by_unique_name (l : list (string * list cell)) (x : string * list cell) :
  NoDup (map fst l) -> In x l ->
  find (fun nc => String.eqb (fst nc) (fst x)) l = Some x.
Proof.
  induction l as [|y tl IH]; intros Hnd Hin; [destruct Hin|].
  simpl in Hnd. inversion Hnd as [|? ? Hnotin Hnd']; subst. simpl.
  destruct (String.eqb_spec (fst y) (fst x)) as [E|Hne].
  - destruct Hin as [->|Hin]; [reflexivity|].
    exfalso. apply Hnotin. rewrite E. now apply in_map.
  - destruct Hin as [->|Hin]; [congruence|now apply IH].
Qed.

(** X8.  Merging never alters an observation: a value that a monthly
    table holds in a row of the window is found in the final dataset
    under the same month and column name, for tables with disjoint
    column names. *)
Theorem merge_keeps_observations :
  forall (ts : list DataFrame) (F : DataFrame),
    Forall monthly_table ts ->
    NoDup (flat_map names ts) ->
    Merge.merge_frames (map Frame ts) = Merge.Saved F ->
    forall (t : DataFrame) (c : string) (vals : list cell) (i : nat) (k : Month) (v : Q),
      In t ts -> In (c, vals) (columns t) ->
      nth_error (index t) i = Some k ->
      nth_error vals i = Some (Some v) ->
      in_window k = true ->
      cell_at F k c = Some (Some v).
Proof.
  intros ts F Hall Hnd HF t c vals i k v Ht Hc Hk Hv Hw.
  assert (Hne : ts <> []) by (intros ->; destruct Ht).
  destruct (merge_frames_joined ts Hne Hall Hnd) as (J & HF' & Hs & Hin & Hcols).
  rewrite HF' in HF. injection HF as <-.
  assert (Ht' : monthly_table t).
  { rewrite Forall_forall in Hall. now apply Hall. }
  destruct Ht' as (_ & _ & Hts).
  set (f := lookup_in (index t) vals).
  assert (Hfk : f k = Some v).
  { unfold f, lookup_in.
    destruct (position_found k (index t) (strict_nodup _ Hts) (nth_error_In _ _ Hk))
      as (q & -> & Hq).
    assert (q = i).
    { apply (proj1 (NoDup_nth_error (index t)) (strict_nodup _ Hts)).
      - apply nth_error_Some. rewrite Hq. discriminate.
      - congruence. }
    subst q. now apply nth_error_nth. }
  assert (Hsrc : In (c, f) (flat_map sources ts)).
  { apply in_flat_map. exists t. split; [exact Ht|].
    unfold sources. apply in_map_iff. exists (c, vals). split; [reflexivity|exact Hc]. }
  set (W := where_from 0 in_window (index J)).
  set (final_col := fun nf : string * (Month -> cell) =>
                      (fst nf, Interp.interpolate (take W (map (snd nf) (index J))))).
  assert (Hfinal : columns (interpolate_frame (slice_window J))
                   = map final_col (flat_map sources ts)).
  { simpl. rewrite Hcols. unfold render. rewrite !map_map. reflexivity. }
  assert (Hfind : find (fun nc => String.eqb (fst nc) c)
                       (columns (interpolate_frame (slice_window J)))
                  = Some (final_col (c, f))).
  { rewrite Hfinal.
    apply (find_by_unique_name _ (final_col (c, f))).
    - rewrite map_map. simpl.
      change (map (fun x : string * (Month -> cell) => fst x) (flat_map sources ts))
        with (map fst (flat_map sources ts)).
      now rewrite flat_map_names_sources.
    - now apply in_map. }
  unfold cell_at, col_values. rewrite Hfind. simpl.
  assert (HkF : In k (filter in_window (index J))).
  { apply filter_In. split; [|exact Hw]. apply Hin. apply in_flat_map.
    exists t. split; [exact Ht|]. eapply nth_error_In; eassumption. }
  assert (HndF : NoDup (filter in_window (index J))).
  { apply NoDup_filter. now apply strict_nodup. }
  destruct (positions_from_nodup k _ 0 HndF HkF) as (p & -> & Hp). simpl.
  f_equal. apply nth_error_nth. apply interp_fill_observed.
  pose proof (take_where in_window f (index J) []) as Htw. simpl in Htw.
  unfold W. rewrite Htw.
  rewrite nth_error_map, Hp. simpl. now rewrite Hfk.
Qed.

Lemma merge_keeps_observations_witness :
  exists F,
    Merge.merge_frames (map Frame [Sample.table_a; Sample.table_b]) = Merge.Saved F /\
    cell_at F (ym 2016 2) "b" = Some (Some (inject_Z 5)).
Proof.
  eexists. split.
  - vm_compute. reflexivity.
  - apply (merge_keeps_observations [Sample.table_a; Sample.table_b] _
             ltac:(repeat constructor; vm_compute; lia)
             ltac:(repeat constructor; simpl; intuition discriminate)
             ltac:(vm_compute; reflexivity)
             Sample.table_b "b"%string [Some (inject_Z 5); None] 0 (ym 2016 2)
             (inject_Z 5)).
    + simpl. auto.
    + simpl. auto.
    + reflexivity.
    + reflexivity.
    + reflexivity.
Defined.

(** ** The price-index parser: what enters the table, what stops it *)

Lemma series_records_only_months (name : string) (items : list CPI.item) :
  CPI.series_records name
    (filter (fun it => CPI.month_code (CPI.period it)) items)
  = CPI.series_records name items.
Proof.
  induction items as [|it tl IH]; simpl; [reflexivity|].
  destruct (CPI.month_code (CPI.period it)) eqn:E; simpl.
  - rewrite E. destruct (PyStr.float (CPI.value it)); [|reflexivity].
    now rewrite IH.
  - exact IH.
Qed.

(** X9.  Records whose period code is not between 'M01' and 'M12'
    (annual averages, half years) are ignored altogether: without them
    the parser returns the same table or raises the same exception,
    whatever their year and value text. *)
Theorem non_month_records_ignored :
  forall (pad : bool) (l : list CPI.series),
    CPI.clean_cpi_data pad (Loaded (CPI.Series (map only_month_items l)))
    = CPI.clean_cpi_data pad (Loaded (CPI.Series l)).
Proof.
  intros pad l.
  assert (H : CPI.all_records (map only_month_items l) = CPI.all_records l).
  { induction l as [|s tl IH]; simpl; [reflexivity|].
    now rewrite series_records_only_months, IH. }
  unfold CPI.clean_cpi_data. now rewrite H.
Qed.

Lemma series_records_raises (name : string) (items : list CPI.item) (e : exn) :
  CPI.series_records name items = Raise e -> e = ValueError.
Proof.
  induction items as [|it tl IH]; simpl; [discriminate|].
  destruct (CPI.month_code (CPI.period it)); [|exact IH].
  destruct (PyStr.float (CPI.value it)); [|congruence].
  destruct (CPI.series_records name tl) as [rest|e']; simpl; [discriminate|].
  intros H. injection H as <-. now apply IH.
Qed.

Lemma series_records_bad_value (name : string) (items : list CPI.item) (it : CPI.item) :
  In it items ->
  CPI.month_code (CPI.period it) = true ->
  PyStr.float (CPI.value it) = None ->
  CPI.series_records name items = Raise ValueError.
Proof.
  intros Hin Hc Hf. induction items as [|x tl IH]; [destruct Hin|]. simpl.
  destruct Hin as [->|Hin].
  - now rewrite Hc, Hf.
  - rewrite (IH Hin).
    destruct (CPI.month_code (CPI.period x)); [|reflexivity].
    destruct (PyStr.float (CPI.value x)); reflexivity.
Qed.

(** *** Texts that [float] refuses *)

Lemma digits_val_foreign (s : string) :
  forall acc c,
    In c (list_ascii_of_string s) -> PyStr.digit_of c = None ->
    PyStr.digits_val acc s = None.
Proof.
  induction s as [|a tl IH]; intros acc c Hin Hd; simpl in *; [destruct Hin|].
  destruct Hin as [->|Hin]; [now rewrite Hd|].
  destruct (PyStr.digit_of a); [now apply (IH _ c)|reflexivity].
Qed.

Lemma split_on_member (sep : ascii) (s : string) :
  forall c,
    In c (list_ascii_of_string s) -> c <> sep ->
    exists p, In p (PyStr.split_on sep s) /\ In c (list_ascii_of_string p).
Proof.
  induction s as [|a tl IH]; intros c Hin Hne; simpl in *; [destruct Hin|].
  destruct (Ascii.eqb_spec a sep) as [->|Ha].
  - destruct Hin as [->|Hin]; [contradiction|].
    destruct (IH c Hin Hne) as (p & Hp & Hc). exists p. split; [now right|exact Hc].
  - destruct (PyStr.split_on sep tl) as [|h r] eqn:Es.
    + destruct Hin as [->|Hin].
      * exists (String c EmptyString). split; [now left|simpl; now left].
      * destruct (IH c Hin Hne) as (p & [] & _).
    + destruct Hin as [->|Hin].
      * exists (String c h). split; [now left|simpl; now left].
      * destruct (IH c Hin Hne) as (p & [E|Hp] & Hc).
        -- subst p. exists (String a h). split; [now left|simpl; now right].
        -- exists p. split; [now right|exact Hc].
Qed.

Lemma split_on_chars (sep : ascii) (s : string) :
  forall p c,
    In p (PyStr.split_on sep s) -> In c (list_ascii_of_string p) ->
    In c (list_ascii_of_string s).
Proof.
  induction s as [|a tl IH]; intros p c Hp Hc; simpl in *.
  - destruct Hp as [<-|[]]. destruct Hc.
  - destruct (Ascii.eqb a sep).
    + destruct Hp as [<-|Hp]; [destruct Hc|]. right. now apply (IH p).
    + destruct (PyStr.split_on sep tl) as [|h r] eqn:Es.
      * destruct Hp as [<-|[]]. simpl in Hc. destruct Hc as [->|[]]. now left.
      * destruct Hp as [<-|Hp].
        -- simpl in Hc. destruct Hc as [->|Hc]; [now left|].
           right. apply (IH h); [now left|exact Hc].
        -- right. apply (IH p); [now right|exact Hc].
Qed.

Lemma c_space_is_space (c : ascii) :
  PyStr.is_space c = false -> PyStr.is_c_space c = false.
Proof.
  destruct c as [b0 b1 b2 b3 b4 b5 b6 b7].
  destruct b0, b1, b2, b3, b4, b5, b6, b7; intros H;
    solve [reflexivity | discriminate H].
Qed.

Lemma lstrip_member (s : string) (c : ascii) :
  In c (list_ascii_of_string s) -> PyStr.is_c_space c = false ->
  In c (list_ascii_of_string (PyStr.lstrip_c s)).
Proof.
  induction s as [|a tl IH]; intros Hin Hs; simpl in *; [destruct Hin|].
  destruct (PyStr.is_c_space a) eqn:Ea.
  - destruct Hin as [->|Hin]; [congruence|now apply IH].
  - exact Hin.
Qed.

Lemma rstrip_member (s : string) (c : ascii) :
  In c (list_ascii_of_string s) -> PyStr.is_c_space c = false ->
  In c (list_ascii_of_string (PyStr.rstrip_c s)).
Proof.
  induction s as [|a tl IH]; intros Hin Hs; simpl in *; [destruct Hin|].
  destruct Hin as [->|Hin].
  - destruct (PyStr.rstrip_c tl); [rewrite Hs|]; simpl; now left.
  - specialize (IH Hin Hs).
    destruct (PyStr.rstrip_c tl) as [|x r]; [destruct IH|]. simpl. right. exact IH.
Qed.

Lemma lstrip_chars (s : string) (c : ascii) :
  In c (list_ascii_of_string (PyStr.lstrip_c s)) -> In c (list_ascii_of_string s).
Proof.
  induction s as [|a tl IH]; intros Hin; simpl in *; [exact Hin|].
  destruct (PyStr.is_c_space a); [right; now apply IH|exact Hin].
Qed.

Lemma rstrip_chars (s : string) (c : ascii) :
  In c (list_ascii_of_string (PyStr.rstrip_c s)) -> In c (list_ascii_of_string s).
Proof.
  induction s as [|a tl IH]; intros Hin; simpl in *; [exact Hin|].
  destruct (PyStr.rstrip_c tl) as [|x r].
  - destruct (PyStr.is_c_space a); [destruct Hin|].
    simpl in Hin. destruct Hin as [->|[]]. now left.
  - simpl in Hin. destruct Hin as [->|Hin]; [now left|right; now apply IH].
Qed.

(** [float] looks at the sign first. *)
Lemma float_by_sign (s : string) :
  PyStr.float s
  = match PyStr.float_strip s with
    | EmptyString => PyStr.unsigned_float EmptyString
    | String x r =>
        if Ascii.eqb x "-" then option_map Qopp (PyStr.unsigned_float r)
        else if Ascii.eqb x "+" then PyStr.unsigned_float r
        else PyStr.unsigned_float (String x r)
    end.
Proof.
  unfold PyStr.float. destruct (PyStr.float_strip s) as [|x r]; [reflexivity|].
  destruct x as [b0 b1 b2 b3 b4 b5 b6 b7].
  destruct b0, b1, b2, b3, b4, b5, b6, b7; reflexivity.
Qed.

Lemma unsigned_float_foreign (r : string) (c : ascii) :
  In c (list_ascii_of_string r) ->
  PyStr.digit_of c = None -> c <> "."%char ->
  PyStr.unsigned_float r = None.
Proof.
  intros Hin Hd Hne. unfold PyStr.unsigned_float.
  destruct (split_on_member "." r c Hin Hne) as (p & Hp & Hc).
  assert (Hval : forall acc, PyStr.digits_val acc p = None)
    by (intros acc; now apply (digits_val_foreign p acc c)).
  destruct (PyStr.split_on "." r) as [|i [|f [|g rest]]].
  - reflexivity.
  - destruct Hp as [E|[]]. subst i. unfold PyStr.number.
    destruct p; [destruct Hc|]. now rewrite Hval.
  - destruct Hp as [E|[E|[]]]; subst p.
    + destruct i; [destruct Hc|]. now rewrite Hval.
    + destruct f; [destruct Hc|].
      destruct i; rewrite Hval; [reflexivity|].
      destruct (PyStr.digits_val 0 (String a0 i)); reflexivity.
  - reflexivity.
Qed.

Lemma unsigned_float_bare (r : string) :
  (forall c, In c (list_ascii_of_string r) -> PyStr.digit_of c = None) ->
  PyStr.unsigned_float r = None.
Proof.
  intros Hbare. unfold PyStr.unsigned_float.
  assert (Hpart : forall p, In p (PyStr.split_on "." r) ->
                            p = EmptyString \/ forall acc, PyStr.digits_val acc p = None).
  { intros p Hp. destruct p as [|a tl]; [now left|]. right. intros acc.
    apply (digits_val_foreign _ acc a); [simpl; now left|].
    apply Hbare. apply (split_on_chars "." r (String a tl)); [exact Hp|simpl; now left]. }
  destruct (PyStr.split_on "." r) as [|i [|f [|g rest]]].
  - reflexivity.
  - destruct (Hpart i (or_introl eq_refl)) as [->|Hi]; [reflexivity|].
    unfold PyStr.number. destruct i; [reflexivity|]. now rewrite Hi.
  - destruct (Hpart i (or_introl eq_refl)) as [->|Hi];
      destruct (Hpart f (or_intror (or_introl eq_refl))) as [->|Hf].
    + reflexivity.
    + destruct f; [reflexivity|]. now rewrite Hf.
    + destruct i; [reflexivity|]. now rewrite Hi.
    + destruct i; [destruct f; [reflexivity|now rewrite Hf]|].
      now rewrite Hi.
  - reflexivity.
Qed.

Lemma has_foreign_found (s : string) :
  has_foreign s = true ->
  exists c, In c (list_ascii_of_string s) /\ literal_char c = false.
Proof.
  induction s as [|a tl IH]; simpl; [discriminate|].
  intros H. apply orb_true_iff in H. destruct H as [H|H].
  - exists a. split; [now left|]. now apply negb_true_iff.
  - destruct (IH H) as (c & Hc & Hl). exists c. split; [now right|exact Hl].
Qed.

Lemma bare_chars (s : string) :
  bare s = true ->
  forall c, In c (list_ascii_of_string s) -> PyStr.digit_of c = None.
Proof.
  induction s as [|a tl IH]; simpl; intros H c Hc; [destruct Hc|].
  apply andb_true_iff in H. destruct H as [H Htl].
  apply andb_true_iff in H. destruct H as [H _].
  apply andb_true_iff in H. destruct H as [_ Hd].
  destruct Hc as [<-|Hc]; [|now apply IH].
  unfold is_digit in Hd. destruct (PyStr.digit_of a); [discriminate|reflexivity].
Qed.

(** On a text that Python's [float] is certain to refuse the [float] of
    the embedding raises as well. *)
Lemma float_refuses (s : string) :
  surely_not_float s = true -> PyStr.float s = None.
Proof.
  unfold surely_not_float. intros H. apply orb_true_iff in H.
  rewrite float_by_sign. destruct H as [H|H].
  - destruct (has_foreign_found s H) as (c & Hc & Hl).
    unfold literal_char in Hl. repeat (apply orb_false_iff in Hl; destruct Hl as [Hl ?]).
    assert (Hd : PyStr.digit_of c = None).
    { unfold is_digit in Hl. destruct (PyStr.digit_of c); [discriminate|reflexivity]. }
    assert (Hdot : c <> "."%char) by (intros ->; discriminate).
    assert (Hin : In c (list_ascii_of_string (PyStr.float_strip s))).
    { unfold PyStr.float_strip. apply rstrip_member; [|now apply c_space_is_space].
      apply lstrip_member; [assumption|now apply c_space_is_space]. }
    destruct (PyStr.float_strip s) as [|x r]; [destruct Hin|].
    assert (Htail : Ascii.eqb x "-" = true \/ Ascii.eqb x "+" = true ->
                    PyStr.unsigned_float r = None).
    { intros Hx. simpl in Hin. destruct Hin as [->|Hin].
      - destruct Hx; congruence.
      - now apply (unsigned_float_foreign r c). }
    destruct (Ascii.eqb x "-") eqn:E1; [rewrite Htail; auto|].
    destruct (Ascii.eqb x "+") eqn:E2; [rewrite Htail; auto|].
    now apply (unsigned_float_foreign _ c).
  - pose proof (bare_chars s H) as Hbare.
    assert (Hstrip : forall c, In c (list_ascii_of_string (PyStr.float_strip s)) ->
                               PyStr.digit_of c = None).
    { intros c Hc. apply Hbare. unfold PyStr.float_strip in Hc.
      now apply lstrip_chars, rstrip_chars. }
    destruct (PyStr.float_strip s) as [|x r]; [now apply unsigned_float_bare|].
    assert (Htail : PyStr.unsigned_float r = None).
    { apply unsigned_float_bare. intros c Hc. apply Hstrip. simpl. now right. }
    destruct (Ascii.eqb x "-"); [now rewrite Htail|].
    destruct (Ascii.eqb x "+"); [exact Htail|].
    now apply unsigned_float_bare.
Qed.

(** X10.  One month record whose value text is certain not to be a
    number for Python (a text such as "-" or "N/A": without digit and
    letter, or with a character that no numeric literal holds) stops the
    parser: [float] raises [ValueError], nothing catches it, and the
    whole run ends on it, the other sources not being read. *)
Theorem bad_value_raises :
  forall (pad : bool) (l : list CPI.series) (s : CPI.series) (it : CPI.item),
    In s l -> In it (CPI.data s) ->
    CPI.month_code (CPI.period it) = true ->
    surely_not_float (CPI.value it) = true ->
    CPI.clean_cpi_data pad (Loaded (CPI.Series l)) = Raise ValueError /\
    (forall e ls n,
        Merge.merge_all_data pad (Merge.mkRaw (Loaded (CPI.Series l)) e ls n)
        = Merge.Crashed ValueError).
Proof.
  intros pad l s it Hs Hit Hc Hsure.
  pose proof (float_refuses _ Hsure) as Hf.
  assert (Hrecs : CPI.all_records l = Raise ValueError).
  { induction l as [|x tl IH]; [destruct Hs|]. simpl.
    destruct Hs as [->|Hs].
    - now rewrite (series_records_bad_value _ _ it Hit Hc Hf).
    - rewrite (IH Hs).
      destruct (CPI.series_records (CPI.col_name (CPI.seriesID x)) (CPI.data x))
        as [here|e] eqn:E; simpl; [reflexivity|].
      now rewrite (series_records_raises _ _ _ E). }
  assert (Hrun : CPI.clean_cpi_data pad (Loaded (CPI.Series l)) = Raise ValueError).
  { unfold CPI.clean_cpi_data. now rewrite Hrecs. }
  split; [exact Hrun|].
  intros e ls n. unfold Merge.merge_all_data. simpl Merge.cpi. now rewrite Hrun.
Qed.

Lemma bad_value_raises_witness :
  CPI.clean_cpi_data true (Loaded (CPI.Series Sample.dash_value)) = Raise ValueError /\
  (forall e ls n,
      Merge.merge_all_data true
        (Merge.mkRaw (Loaded (CPI.Series Sample.dash_value)) e ls n)
      = Merge.Crashed ValueError).
Proof.
  apply (bad_value_raises true Sample.dash_value
           (CPI.mkSeries "CUUR0000SA0"
              [CPI.mkItem "2025" "M10" "-"; CPI.mkItem "2025" "M09" "324.8"])
           (CPI.mkItem "2025" "M10" "-")).
  - simpl. auto.
  - simpl. auto.
  - reflexivity.
  - reflexivity.
Defined.

Lemma duplicate_key_found (recs : list CPI.record) :
  forall i j r1 r2,
    i < j ->
    nth_error recs i = Some r1 -> nth_error recs j = Some r2 ->
    CPI.r_date r1 = CPI.r_date r2 -> CPI.r_type r1 = CPI.r_type r2 ->
    CPI.has_duplicate_key recs = true.
Proof.
  induction recs as [|r tl IH]; intros i j r1 r2 Hij H1 H2 Hd Ht.
  - destruct i; discriminate.
  - simpl. apply orb_true_iff. destruct i as [|i].
    + left. simpl in H1. injection H1 as ->.
      destruct j as [|j]; [lia|]. simpl in H2.
      apply existsb_exists. exists r2. split; [eapply nth_error_In; eassumption|].
      unfold CPI.same_key. rewrite Hd, Ht, !String.eqb_refl. reflexivity.
    + right. destruct j as [|j]; [lia|]. simpl in H1, H2.
      apply (IH i j r1 r2); auto. lia.
Qed.

(** X11.  Two records for the same month of the same column (a series
    listed twice, a month repeated) stop the parser: the pivot cannot
    reshape them and raises [ValueError]. *)
Theorem duplicate_record_raises :
  forall (pad : bool) (l : list CPI.series) (recs : list CPI.record)
         (i j : nat) (r1 r2 : CPI.record),
    CPI.all_records l = Ok recs ->
    i < j ->
    nth_error recs i = Some r1 -> nth_error recs j = Some r2 ->
    CPI.r_date r1 = CPI.r_date r2 -> CPI.r_type r1 = CPI.r_type r2 ->
    CPI.clean_cpi_data pad (Loaded (CPI.Series l)) = Raise ValueError.
Proof.
  intros pad l recs i j r1 r2 Hrecs Hij H1 H2 Hd Ht.
  unfold CPI.clean_cpi_data. rewrite Hrecs. simpl.
  unfold CPI.pivot.
  rewrite (duplicate_key_found recs i j r1 r2 Hij H1 H2 Hd Ht).
  destruct recs; [destruct i; discriminate|reflexivity].
Qed.

Lemma duplicate_record_raises_witness :
  CPI.clean_cpi_data true (Loaded (CPI.Series Sample.listed_twice)) = Raise ValueError.
Proof.
  apply (duplicate_record_raises true Sample.listed_twice
           [CPI.mkRecord "2016-02-01" "CPI_Total" (inject_Z 2380 / inject_Z 10);
            CPI.mkRecord "2016-01-01" "CPI_Total" (inject_Z 2371 / inject_Z 10);
            CPI.mkRecord "2016-01-01" "CPI_Total" (inject_Z 2371 / inject_Z 10)]
           1 2
           (CPI.mkRecord "2016-01-01" "CPI_Total" (inject_Z 2371 / inject_Z 10))
           (CPI.mkRecord "2016-01-01" "CPI_Total" (inject_Z 2371 / inject_Z 10)));
    try reflexivity.
  lia.
Defined.

(** *** From a month record to its cell in the table *)

Lemma insert_sorted_map_snd (x : nat * Month) (l : list (nat * Month)) :
  map snd (insert_sorted (fun a b : nat * Month => Z.leb (snd a) (snd b)) x l)
  = insert_sorted Z.leb (snd x) (map snd l).
Proof.
  induction l as [|y tl IH]; simpl; [reflexivity|].
  destruct (Z.leb (snd x) (snd y)); simpl; [reflexivity|now rewrite IH].
Qed.

Lemma isort_map_snd (l : list (nat * Month)) :
  map snd (isort (fun a b : nat * Month => Z.leb (snd a) (snd b)) l)
  = isort Z.leb (map snd l).
Proof.
  induction l as [|x tl IH]; simpl; [reflexivity|].
  now rewrite insert_sorted_map_snd, IH.
Qed.

Lemma in_combine_seq (idx : list Month) :
  forall s p k,
    In (p, k) (combine (seq s (List.length idx)) idx) ->
    s <= p /\ nth_error idx (p - s) = Some k.
Proof.
  induction idx as [|x tl IH]; intros s p k H; simpl in H; [destruct H|].
  destruct H as [H|H].
  - injection H as <- <-. rewrite Nat.sub_diag. split; [lia|reflexivity].
  - destruct (IH (S s) p k H) as [Hle Hn]. split; [lia|].
    replace (p - s) with (S (p - S s)) by lia. exact Hn.
Qed.

(** After [sort_index] a key still leads to the cell it led to. *)
Lemma argsort_lookup (idx : list Month) (col : list cell) (k : Month) (j : nat) :
  NoDup idx ->
  nth_error idx j = Some k ->
  exists i,
    positions_from 0 k (isort Z.leb idx) = [i] /\
    nth i (take (argsort idx) col) None = nth j col None.
Proof.
  intros Hnd Hj.
  set (sorted := isort (fun a b : nat * Month => Z.leb (snd a) (snd b))
                       (combine (seq 0 (List.length idx)) idx)).
  assert (Hsnd : map snd sorted = isort Z.leb idx).
  { unfold sorted. now rewrite isort_map_snd, map_snd_combine_seq. }
  assert (Hnd' : NoDup (isort Z.leb idx)).
  { eapply Permutation_NoDup; [apply Permutation_sym, isort_perm|exact Hnd]. }
  assert (Hin : In k (isort Z.leb idx)).
  { eapply Permutation_in; [apply Permutation_sym, isort_perm|].
    eapply nth_error_In; eassumption. }
  destruct (positions_from_nodup k _ 0 Hnd' Hin) as (i & Hpos & Hi).
  exists i. split; [exact Hpos|].
  rewrite <- Hsnd, nth_error_map in Hi.
  destruct (nth_error sorted i) as [[p k']|] eqn:Ei; [|discriminate].
  simpl in Hi. injection Hi as ->.
  assert (Hp : nth_error idx p = Some k).
  { assert (Hc : In (p, k) (combine (seq 0 (List.length idx)) idx)).
    { eapply Permutation_in; [apply isort_perm|].
      eapply nth_error_In. exact Ei. }
    apply in_combine_seq in Hc. now rewrite Nat.sub_0_r in Hc. }
  assert (p = j).
  { apply (proj1 (NoDup_nth_error idx) Hnd).
    - apply nth_error_Some. rewrite Hp. discriminate.
    - congruence. }
  subst p. unfold take, argsort. fold sorted. rewrite map_map.
  apply nth_error_nth. rewrite nth_error_map, Ei. reflexivity.
Qed.

Lemma add_yoy_untouched (pad : bool) (c : string) (todo : list string) :
  forall cols,
    (forall c', In c' todo -> c <> (c' ++ "_YoY")%string) ->
    CPI.get_column c (CPI.add_yoy pad todo cols) = CPI.get_column c cols.
Proof.
  induction todo as [|c' todo IH]; intros cols H; [reflexivity|].
  unfold CPI.add_yoy. simpl.
  destruct (CPI.get_column c' cols) as [vals|].
  - change (CPI.get_column c
              (CPI.add_yoy pad todo
                 (CPI.set_column (c' ++ "_YoY") (CPI.yoy pad vals) cols))
            = CPI.get_column c cols).
    rewrite IH by (intros x Hx; apply H; now right).
    apply get_set_other. apply H. now left.
  - apply IH. intros x Hx. apply H. now right.
Qed.

Lemma get_column_take (pos : list (option nat)) (c : string)
  (cols : list (string * list cell)) :
  CPI.get_column c (map (take_col pos) cols)
  = option_map (take pos) (CPI.get_column c cols).
Proof.
  unfold CPI.get_column. induction cols as [|[n v] tl IH]; simpl; [reflexivity|].
  destruct (String.eqb n c); [reflexivity|exact IH].
Qed.

Lemma get_column_built (g : string -> list cell) (c : string) (types : list string) :
  In c types ->
  CPI.get_column c (map (fun t => (t, g t)) types) = Some (g c).
Proof.
  unfold CPI.get_column. induction types as [|t tl IH]; intros H; [destruct H|].
  simpl. destruct (String.eqb_spec t c) as [->|Hne]; [reflexivity|].
  destruct H as [H|H]; [contradiction|now apply IH].
Qed.

(** Without two records under one key, the pivot finds each record. *)
Lemma pivot_cell_found (recs : list CPI.record) (r : CPI.record) :
  CPI.has_duplicate_key recs = false ->
  In r recs ->
  CPI.pivot_cell recs (CPI.r_type r) (CPI.r_date r) = Some (CPI.r_value r).
Proof.
  unfold CPI.pivot_cell.
  induction recs as [|x tl IH]; intros Hdup Hin; [destruct Hin|].
  simpl in Hdup. apply orb_false_iff in Hdup. destruct Hdup as [Hx Htl].
  simpl. destruct Hin as [->|Hin].
  - now rewrite !String.eqb_refl.
  - destruct (String.eqb (CPI.r_date x) (CPI.r_date r)
              && String.eqb (CPI.r_type x) (CPI.r_type r)) eqn:E.
    + exfalso. assert (Hex : existsb (CPI.same_key x) tl = true).
      { apply existsb_exists. exists r. split; [exact Hin|exact E]. }
      congruence.
    + now apply IH.
Qed.

Lemma to_datetime_index_nth (labels : list string) :
  forall idx j s,
    CPI.to_datetime_index labels = Ok idx ->
    nth_error labels j = Some s ->
    exists d, Dates.to_datetime s = Some d /\ nth_error idx j = Some (month_of d).
Proof.
  induction labels as [|x tl IH]; intros idx j s H Hj.
  - destruct j; discriminate.
  - simpl in H. destruct (Dates.to_datetime x) as [d|] eqn:Ed; [|discriminate].
    destruct (CPI.to_datetime_index tl) as [rest|e] eqn:Er; [|discriminate].
    simpl in H. injection H as <-. destruct j as [|j]; simpl in *.
    + injection Hj as <-. eauto.
    + now apply (IH rest j s).
Qed.

Lemma series_records_contains (name : string) (items : list CPI.item) :
  forall recs it v,
    CPI.series_records name items = Ok recs ->
    In it items ->
    CPI.month_code (CPI.period it) = true ->
    PyStr.float (CPI.value it) = Some v ->
    In (CPI.mkRecord (CPI.date_str it) name v) recs.
Proof.
  induction items as [|x tl IH]; intros recs it v H Hin Hc Hf; [destruct Hin|].
  simpl in H.
  destruct (CPI.month_code (CPI.period x)) eqn:Ex.
  - destruct (PyStr.float (CPI.value x)) as [w|] eqn:Ew; [|discriminate].
    destruct (CPI.series_records name tl) as [rest|e] eqn:Er; [|discriminate].
    simpl in H. injection H as <-. destruct Hin as [->|Hin].
    + left. congruence.
    + right. now apply (IH rest it v).
  - destruct Hin as [->|Hin]; [congruence|now apply (IH recs it v)].
Qed.

Lemma all_records_contains (l : list CPI.series) :
  forall recs s it v,
    CPI.all_records l = Ok recs ->
    In s l -> In it (CPI.data s) ->
    CPI.month_code (CPI.period it) = true ->
    PyStr.float (CPI.value it) = Some v ->
    In (CPI.mkRecord (CPI.date_str it) (CPI.col_name (CPI.seriesID s)) v) recs.
Proof.
  induction l as [|x tl IH]; intros recs s it v H Hs Hit Hc Hf; [destruct Hs|].
  simpl in H.
  destruct (CPI.series_records (CPI.col_name (CPI.seriesID x)) (CPI.data x))
    as [here|e] eqn:Eh; [|discriminate].
  destruct (CPI.all_records tl) as [rest|e] eqn:Er; [|discriminate].
  simpl in H. injection H as <-. apply in_or_app. destruct Hs as [->|Hs].
  - left. now apply (series_records_contains _ _ _ _ _ Eh).
  - right. now apply (IH rest s it v).
Qed.

Lemma record_types (l : list CPI.series) :
  forall recs r,
    CPI.all_records l = Ok recs -> In r recs ->
    exists s, In s l /\ CPI.r_type r = CPI.col_name (CPI.seriesID s).
Proof.
  assert (Hser : forall name items recs r,
             CPI.series_records name items = Ok recs -> In r recs ->
             CPI.r_type r = name).
  { intros name items. induction items as [|x tl IH]; intros recs r H Hr; simpl in H.
    - injection H as <-. destruct Hr.
    - destruct (CPI.month_code (CPI.period x)); [|now apply (IH recs)].
      destruct (PyStr.float (CPI.value x)); [|discriminate].
      destruct (CPI.series_records name tl) as [rest|e]; [|discriminate].
      simpl in H. injection H as <-. destruct Hr as [<-|Hr]; [reflexivity|].
      now apply (IH rest). }
  induction l as [|x tl IH]; intros recs r H Hr; simpl in H.
  - injection H as <-. destruct Hr.
  - destruct (CPI.series_records (CPI.col_name (CPI.seriesID x)) (CPI.data x))
      as [here|e] eqn:Eh; [|discriminate].
    destruct (CPI.all_records tl) as [rest|e]; [|discriminate].
    simpl in H. injection H as <-. apply in_app_or in Hr. destruct Hr as [Hr|Hr].
    + exists x. split; [now left|]. now apply (Hser _ _ _ _ Eh).
    + destruct (IH rest r eq_refl Hr) as (s & Hs & E). exists s. split; [now right|exact E].
Qed.

Lemma pivot_cells (recs : list CPI.record) (dates : list string)
  (cols : list (string * list cell)) :
  CPI.pivot recs = Ok (dates, cols) ->
  CPI.has_duplicate_key recs = false /\
  cols = map (fun t => (t, map (CPI.pivot_cell recs t) dates))
             (CPI.sort_unique_str (map CPI.r_type recs)).
Proof.
  unfold CPI.pivot. destruct recs as [|r recs]; [discriminate|].
  destruct (CPI.has_duplicate_key (r :: recs)); [discriminate|].
  intros H. injection H as <- <-. split; reflexivity.
Qed.

(** X12.  Every month record of the CPI file is in the table: when
    [clean_cpi_data] returns a table for a file with three-character
    month codes, a record of series [s] with a month code and the value
    [v] is the cell of its month in the column named after the series,
    unless that name is the name of a rate column ([..._YoY]) of the
    file. *)
Theorem cpi_record_in_its_cell
  (pad : bool) (l : list CPI.series) (df : DataFrame)
  (s : CPI.series) (it : CPI.item) (v : Q) :
  plain_month_codes l ->
  CPI.clean_cpi_data pad (Loaded (CPI.Series l)) = Ok (Frame df) ->
  In s l -> In it (CPI.data s) ->
  CPI.month_code (CPI.period it) = true ->
  PyStr.float (CPI.value it) = Some v ->
  (forall s', In s' l ->
     CPI.col_name (CPI.seriesID s) <> (CPI.col_name (CPI.seriesID s') ++ "_YoY")%string) ->
  exists d,
    Dates.to_datetime (CPI.date_str it) = Some d /\
    cell_at df (month_of d) (CPI.col_name (CPI.seriesID s)) = Some (Some v).
Proof.
  intros Hplain Hrun Hs Hit Hcode Hval Hclear.
  pose proof (cpi_index_strict pad l df Hplain Hrun) as Hstrict.
  destruct (CPI.all_records l) as [recs|e] eqn:Hrecs.
  2:{ unfold CPI.clean_cpi_data in Hrun. rewrite Hrecs in Hrun. discriminate. }
  destruct (clean_cpi_data_frame pad l recs df Hrecs Hrun)
    as (dates & cols & idx & Hpivot & Hidx & Hindex & Hcols).
  destruct (pivot_shape recs dates cols Hpivot) as (Hnames & Hdates & _).
  destruct (pivot_cells recs dates cols Hpivot) as (Hdup & Hbuilt).
  set (r := CPI.mkRecord (CPI.date_str it) (CPI.col_name (CPI.seriesID s)) v).
  assert (Hr : In r recs) by (apply (all_records_contains l recs s it v); assumption).
  assert (Hdate : In (CPI.date_str it) dates).
  { rewrite Hdates. apply sort_unique_str_in. apply in_map_iff. exists r. now split. }
  apply In_nth_error in Hdate. destruct Hdate as (j & Hj).
  destruct (to_datetime_index_nth dates idx j _ Hidx Hj) as (d & Hd & Hk).
  exists d. split; [exact Hd|].
  assert (Hnd : NoDup idx).
  { assert (Hsorted : NoDup (isort Z.leb idx)).
    { apply strict_nodup. rewrite <- Hindex. exact Hstrict. }
    eapply Permutation_NoDup; [apply isort_perm|exact Hsorted]. }
  set (c := CPI.col_name (CPI.seriesID s)).
  set (col := map (CPI.pivot_cell recs c) dates).
  destruct (argsort_lookup idx col (month_of d) j Hnd Hk) as (i & Hpos & Hcell).
  assert (Hcolumn : col_values c df = Some (take (argsort idx) col)).
  { change (col_values c df) with (CPI.get_column c (columns df)).
    rewrite Hcols, add_yoy_untouched.
    - rewrite get_column_take, Hbuilt.
      rewrite (get_column_built (fun t => map (CPI.pivot_cell recs t) dates)).
      + reflexivity.
      + apply sort_unique_str_in. apply in_map_iff. exists r. now split.
    - intros c' Hc'. rewrite Hnames in Hc'.
      apply (proj1 (sort_unique_str_in _ _)) in Hc'.
      apply in_map_iff in Hc'. destruct Hc' as (r' & <- & Hr').
      destruct (record_types l recs r' Hrecs Hr') as (s' & Hs' & ->).
      now apply Hclear. }
  unfold cell_at. rewrite Hcolumn, Hindex, Hpos, Hcell.
  f_equal. unfold col. apply nth_error_nth.
  rewrite nth_error_map, Hj. simpl. f_equal.
  exact (pivot_cell_found recs r Hdup Hr).
Qed.

Lemma cpi_record_in_its_cell_witness :
  exists df,
    CPI.clean_cpi_data true (Loaded (CPI.Series Sample.gapped_series)) = Ok (Frame df) /\
    exists d,
      Dates.to_datetime (CPI.date_str (CPI.mkItem "2017" "M02" "300")) = Some d /\
      cell_at df (month_of d) (CPI.col_name "CUUR0000SA0") = Some (Some (inject_Z 300)).
Proof.
  eexists. split; [vm_compute; reflexivity|].
  apply (cpi_record_in_its_cell true Sample.gapped_series _
           (CPI.mkSeries "CUUR0000SA0"
              [CPI.mkItem "2017" "M02" "300"; CPI.mkItem "2017" "M01" "250";
               CPI.mkItem "2016" "M12" "120"; CPI.mkItem "2016" "M11" "120";
               CPI.mkItem "2016" "M10" "120"; CPI.mkItem "2016" "M09" "120";
               CPI.mkItem "2016" "M08" "120"; CPI.mkItem "2016" "M07" "120";
               CPI.mkItem "2016" "M05" "120"; CPI.mkItem "2016" "M04" "120";
               CPI.mkItem "2016" "M03" "120"; CPI.mkItem "2016" "M02" "200";
               CPI.mkItem "2016" "M01" "100"])
           (CPI.mkItem "2017" "M02" "300") (inject_Z 300)).
  - intros s it Hs Hit _. simpl in Hs. destruct Hs as [<-|[]].
    simpl in Hit.
    repeat (destruct Hit as [<-|Hit]; [reflexivity|]). destruct Hit.
  - vm_compute. reflexivity.
  - simpl. auto.
  - simpl. auto.
  - reflexivity.
  - vm_compute. reflexivity.
  - intros s' Hs'. simpl in Hs'. destruct Hs' as [<-|[]]. vm_compute. discriminate.
Defined.

(** ** The monthly table of an energy file *)









Lemma energy_monthly_resampled (name : string) (raw_list : list (list string))
  (df : DataFrame) :
  Energy.monthly name raw_list = Some df ->
  df = resample_mean name (price_points raw_list).
Proof.
  unfold Energy.monthly, price_points.
  destruct (Energy.parsed_data raw_list); [discriminate|].
  intros H. injection H as <-. reflexivity.
Qed.



(** ** Rows with a token too many *)

Lemma parse_pairs_unpaired (year_str t : string) (n : nat) :
  forall toks : list string,
    List.length toks = 2 * n ->
    Energy.parse_pairs year_str (toks ++ [t]) = Energy.parse_pairs year_str toks.
Proof.
  induction n as [|n IH]; intros toks Hlen.
  - destruct toks; [reflexivity|discriminate].
  - destruct toks as [|a [|b rest]]; simpl in Hlen; try lia.
    assert (Hrest : List.length rest = 2 * n) by lia.
    specialize (IH rest Hrest).
    change ((a :: b :: rest) ++ [t]) with (a :: b :: (rest ++ [t])).
    cbn [Energy.parse_pairs]. rewrite IH. reflexivity.
Qed.

(** X14.  A table row whose last date has no price gives the same
    observations as the row without that last token, whatever the
    token is: the pairs before it are all kept and no exception is
    raised for the incomplete pair. *)
Theorem unpaired_token_is_dropped :
  forall (header last : string) (pairs : list string) (n : nat),
    List.length pairs = 2 * n ->
    Energy.parse_row (header :: pairs ++ [last]) = Energy.parse_row (header :: pairs).
Proof.
  intros header last pairs n Hlen. unfold Energy.parse_row.
  destruct (Dates.to_datetime header) as [d|]; [|reflexivity].
  exact (parse_pairs_unpaired _ last n pairs Hlen).
Qed.

Lemma unpaired_token_is_dropped_witness :
  Energy.parse_row ("Oct-2023" :: ["10/02"; "3.801"] ++ ["10/09"])%string
  = Energy.parse_row ["Oct-2023"; "10/02"; "3.801"]%string.
Proof.
  apply (unpaired_token_is_dropped "Oct-2023" "10/09" ["10/02"; "3.801"]%string 1).
  reflexivity.
Defined.

(** ** The energy parser as a whole *)

(** A file that is not UTF-8 text is the only one that makes the loop
    over the files raise. *)
Lemma energy_add_files_readable (l : list (string * raw_file (list (list string)))) :
  forall combined df,
    Energy.add_files combined l = Ok df ->
    forall f, In f l -> snd f <> Unreadable.
Proof.
  induction l as [|f0 tl IH]; intros combined df H f Hf; [destruct Hf|].
  cbn [Energy.add_files] in H.
  destruct (Energy.add_file combined f0) as [next|e] eqn:E; [|discriminate].
  simpl in H. destruct Hf as [<-|Hf].
  - intros Hu. unfold Energy.add_file in E. rewrite Hu in E. discriminate.
  - exact (IH next df H f Hf).
Qed.

Lemma energy_add_files_ok (l : list (string * raw_file (list (list string)))) :
  forall combined,
    (forall f, In f l -> snd f <> Unreadable) ->
    NoDup (map fst l) ->
    (forall n, In n (names combined) -> ~ In n (map fst l)) ->
    NoDup (names combined) ->
    exists df,
      Energy.add_files combined l = Ok df /\
      incl (names df) (names combined ++ map fst l) /\
      NoDup (names df).
Proof.
  induction l as [|f tl IH]; intros combined Hread Hnd Hfresh Hc.
  - exists combined. split; [reflexivity|]. split; [|exact Hc].
    intros x Hx. apply in_or_app. now left.
  - simpl map in Hnd, Hfresh. inversion Hnd as [|? ? Hf Htl]; subst.
    assert (Hread' : forall f', In f' tl -> snd f' <> Unreadable)
      by (intros f' Hf'; apply Hread; now right).
    pose proof (Hread f (or_introl eq_refl)) as Hreadf.
    assert (Hskip : exists df,
               Energy.add_files combined tl = Ok df /\
               incl (names df) (names combined ++ map fst (f :: tl)) /\
               NoDup (names df)).
    { destruct (IH combined Hread' Htl) as (df & Hrun & Hincl & Hdf); [|exact Hc|].
      - intros n Hn Hin. apply (Hfresh n Hn). now right.
      - exists df. split; [exact Hrun|]. split; [|exact Hdf].
        intros x Hx. apply Hincl in Hx. apply in_app_or in Hx.
        apply in_or_app. destruct Hx as [Hx|Hx]; [now left|right; now right]. }
    cbn [Energy.add_files]. unfold Energy.add_file.
    destruct (snd f) as [| | |raw_list]; try exact Hskip; [contradiction|].
    destruct (Energy.monthly (fst f) raw_list) as [dfm|] eqn:Em; [|exact Hskip].
    assert (Hname : names dfm = [fst f]).
    { apply energy_monthly_resampled in Em. now subst dfm. }
    assert (Hnext : exists next,
               combine_with combined dfm = Ok next /\
               incl (names next) (names combined ++ [fst f]) /\
               NoDup (names next)).
    { unfold combine_with. destruct (df_empty combined).
      - exists dfm. split; [reflexivity|]. rewrite Hname. split.
        + intros x Hx. apply in_or_app. now right.
        + constructor; [intros []|constructor].
      - assert (Hov : overlap (names combined) (names dfm) = false).
        { apply overlap_false. intros x Hx. rewrite Hname. intros [<-|[]].
          apply (Hfresh (fst f) Hx). now left. }
        destruct (join_outer combined dfm) as [J|e] eqn:EJ.
        + exists J. split; [reflexivity|].
          rewrite (join_outer_names combined dfm J EJ), Hname. split.
          * apply incl_refl.
          * apply NoDup_app_remove_l with (l := []). simpl.
            apply Permutation_NoDup with (l := fst f :: names combined).
            -- apply Permutation_cons_append.
            -- constructor; [|exact Hc]. intros Hin.
               apply (Hfresh (fst f) Hin). now left.
        + unfold join_outer in EJ. rewrite Hov in EJ. discriminate. }
    destruct Hnext as (next & -> & Hincl & Hnn). simpl.
    destruct (IH next Hread' Htl) as (df & Hrun & Hincl' & Hdf); [|exact Hnn|].
    + intros n Hn Hin. apply Hincl in Hn. apply in_app_or in Hn.
      destruct Hn as [Hn|[<-|[]]].
      * apply (Hfresh n Hn). now right.
      * exact (Hf Hin).
    + exists df. split; [exact Hrun|]. split; [|exact Hdf].
      intros x Hx. apply Hincl' in Hx. apply in_app_or in Hx.
      apply in_or_app. destruct Hx as [Hx|Hx].
      * apply Hincl in Hx. apply in_app_or in Hx.
        destruct Hx as [Hx|[<-|[]]]; [now left|right; now left].
      * right. now right.
Qed.

(** X15.  A table that the energy parser returns has no other columns
    than [Gas_Price], [Diesel_Price] and [Oil_Price], none of them
    twice; all its rows lie between January 2016 and December 2025 in
    strictly increasing order, and every column is as long as the
    index.  The parser returns a table only if none of the three files
    is unreadable as UTF-8 text. *)
Theorem energy_table_shape :
  forall (s : Energy.sources) (df : DataFrame),
    Energy.clean_energy_data s = Ok df ->
    incl (names df) ["Gas_Price"; "Diesel_Price"; "Oil_Price"]%string /\
    NoDup (names df) /\
    Forall (fun k => (ym 2016 1 <= k <= ym 2025 12)%Z) (index df) /\
    StronglySorted Z.lt (index df) /\
    wf_frame df /\
    (forall f, In f (Energy.files s) -> snd f <> Unreadable).
Proof.
  intros s df Hdf.
  pose proof (energy_index_strict s df Hdf) as Hsorted.
  unfold Energy.clean_energy_data in Hdf.
  destruct (Energy.add_files empty_frame (Energy.files s)) as [combined|e] eqn:Hrun;
    [|discriminate].
  pose proof (energy_add_files_readable _ _ _ Hrun) as Hread.
  destruct (energy_add_files_ok (Energy.files s) empty_frame Hread)
    as (combined' & Hrun' & Hincl & Hnd).
  - simpl. repeat constructor; simpl; intuition discriminate.
  - intros n [].
  - constructor.
  - rewrite Hrun in Hrun'. injection Hrun' as <-. simpl in Hdf.
    destruct (df_empty combined); injection Hdf as <-.
    + split; [intros x []|]. split; [constructor|].
      split; [constructor|]. split; [constructor|]. split; [constructor|exact Hread].
    + split.
      { unfold names. simpl. rewrite !names_take. exact Hincl. }
      split.
      { unfold names. simpl. rewrite !names_take. exact Hnd. }
      split.
      { simpl. apply Forall_forall. intros k Hk.
        apply (Permutation_in _ (isort_perm Z Z.leb _)) in Hk.
        apply filter_In in Hk. now apply in_window_bounds. }
      split; [exact Hsorted|]. split; [|exact Hread].
      unfold wf_frame. simpl. apply Forall_forall. intros c Hc.
      apply in_map_iff in Hc. destruct Hc as (c1 & <- & _). simpl.
      now rewrite take_length, argsort_length, isort_length.
Qed.

Lemma energy_table_shape_witness :
  exists df,
    Energy.clean_energy_data Sample.small_energy = Ok df /\
    incl (names df) ["Gas_Price"; "Diesel_Price"; "Oil_Price"]%string /\
    NoDup (names df) /\
    Forall (fun k => (ym 2016 1 <= k <= ym 2025 12)%Z) (index df) /\
    StronglySorted Z.lt (index df) /\
    wf_frame df /\
    (forall f, In f (Energy.files Sample.small_energy) -> snd f <> Unreadable).
Proof.
  eexists. split; [vm_compute; reflexivity|].
  apply (energy_table_shape Sample.small_energy). vm_compute. reflexivity.
Defined.

(** ** The monthly keyword counts *)



Lemma find_keyed {A : Type} (g : A -> string) (h : A -> list cell)
  (rest : list (string * list cell)) (a : A) (l : list A) :
  NoDup (map g l) -> In a l ->
  find (fun nc : string * list cell => String.eqb (fst nc) (g a))
       (map (fun x => (g x, h x)) l ++ rest)
  = Some (g a, h a).
Proof.
  induction l as [|x tl IH]; intros Hnd Hin; [destruct Hin|].
  simpl in Hnd. inversion Hnd as [|? ? Hx Htl]; subst. simpl.
  destruct (String.eqb_spec (g x) (g a)) as [E|Hne].
  - destruct Hin as [->|Hin]; [reflexivity|].
    exfalso. apply Hx. rewrite E. now apply in_map.
  - destruct Hin as [->|Hin]; [contradiction|now apply IH].
Qed.

Lemma find_after {A : Type} (g : A -> string) (h : A -> list cell)
  (c : string) (vals : list cell) (l : list A) :
  ~ In c (map g l) ->
  find (fun nc : string * list cell => String.eqb (fst nc) c)
       (map (fun x => (g x, h x)) l ++ [(c, vals)])
  = Some (c, vals).
Proof.
  induction l as [|x tl IH]; intros Hc; simpl.
  - now rewrite String.eqb_refl.
  - destruct (String.eqb_spec (g x) c) as [E|Hne].
    + exfalso. apply Hc. now left.
    + apply IH. intros Hin. apply Hc. now right.
Qed.

Lemma count_cols_nodup :
  NoDup (map News.count_col News.keywords) /\
  ~ In "News_Total_Counting"%string (map News.count_col News.keywords).
Proof.
  assert (E : map News.count_col News.keywords
              = ["News_Count_Inflation"; "News_Count_Recession"; "News_Count_Crisis";
                 "News_Count_High_Price"; "News_Count_Layoff";
                 "News_Count_Unemployment"]%string) by (vm_compute; reflexivity).
  rewrite E. split.
  - repeat constructor; simpl; intuition discriminate.
  - simpl. intuition discriminate.
Qed.

Lemma indicator_range (kw text : string) :
  (0 <= News.indicator kw text <= 1)%Z.
Proof. unfold News.indicator. destruct (PyStr.contains _ _); lia. Qed.

Lemma month_count_range (rows : list (Month * News.article)) (kw : string) (k : Month) :
  (0 <= News.month_count rows kw k
   <= Z.of_nat (List.length (articles_of_month rows k)))%Z.
Proof.
  unfold News.month_count, articles_of_month.
  induction (filter (fun r => Z.eqb (fst r) k) rows) as [|r tl IH].
  - simpl. lia.
  - cbn [map News.Zsum fold_right List.length].
    pose proof (indicator_range kw (News.full_text (snd r))) as Hr.
    unfold News.Zsum in IH. lia.
Qed.




Lemma cell_at_column (df : DataFrame) (c : string) (f : Month -> cell) (k : Month) :
  col_values c df = Some (map f (index df)) ->
  NoDup (index df) -> In k (index df) ->
  cell_at df k c = Some (f k).
Proof.
  intros Hc Hnd Hin. unfold cell_at. rewrite Hc.
  destruct (positions_from_nodup k (index df) 0 Hnd Hin) as (i & -> & Hi).
  simpl Nat.add. f_equal. apply nth_error_nth.
  rewrite nth_error_map, Hi. reflexivity.
Qed.

Lemma Zsum_range (B : Z) (l : list Z) :
  (forall x, In x l -> 0 <= x <= B)%Z ->
  (forall x, In x l -> x <= News.Zsum l)%Z /\
  (0 <= News.Zsum l <= Z.of_nat (List.length l) * B)%Z.
Proof.
  induction l as [|y tl IH]; intros H.
  - split; [intros x []|simpl; lia].
  - destruct IH as [IH1 IH2]; [intros x Hx; apply H; now right|].
    pose proof (H y (or_introl eq_refl)) as Hy.
    change (News.Zsum (y :: tl)) with (y + News.Zsum tl)%Z.
    change (List.length (y :: tl)) with (S (List.length tl)).
    rewrite Nat2Z.inj_succ. split.
    + intros x [<-|Hx]; [lia|]. specialize (IH1 x Hx). lia.
    + nia.
Qed.

(** X17.  In the table of the news parser the count of a keyword in a
    month is at least zero and at most the number of articles kept for
    that month; the total of the month is at least every single count
    and at most six times the number of articles, an article that
    names several keywords being counted once for each. *)
Theorem news_counts_bounded :
  forall (rows : list (Month * News.article)) (k : Month) (kw : string),
    In kw News.keywords ->
    In k (index (News.monthly_counts rows)) ->
    exists n t : Z,
      cell_at (News.monthly_counts rows) k (News.count_col kw) = Some (cell_of_Z n) /\
      cell_at (News.monthly_counts rows) k "News_Total_Counting" = Some (cell_of_Z t) /\
      (0 <= n <= Z.of_nat (List.length (articles_of_month rows k)))%Z /\
      (n <= t <= 6 * Z.of_nat (List.length (articles_of_month rows k)))%Z.
Proof.
  intros rows k kw Hkw Hk.
  set (df := News.monthly_counts rows) in *.
  assert (Hnd : NoDup (index df)) by apply strict_nodup, buckets_strict.
  destruct count_cols_nodup as [Hcols Htotal].
  exists (News.month_count rows kw k),
         (News.Zsum (map (fun kw => News.month_count rows kw k) News.keywords)).
  split; [|split; [|split]].
  - apply (cell_at_column df (News.count_col kw)
             (fun k => cell_of_Z (News.month_count rows kw k)) k);
      [|exact Hnd|exact Hk].
    unfold col_values, df, News.monthly_counts. cbv zeta. cbn [columns index].
    rewrite (find_keyed News.count_col
               (fun kw => map (fun k => cell_of_Z (News.month_count rows kw k))
                              (buckets (map fst rows)))
               _ kw News.keywords Hcols Hkw).
    reflexivity.
  - apply (cell_at_column df "News_Total_Counting"
             (fun k => cell_of_Z
                         (News.Zsum (map (fun kw => News.month_count rows kw k)
                                         News.keywords))) k);
      [|exact Hnd|exact Hk].
    unfold col_values, df, News.monthly_counts. cbv zeta. cbn [columns index].
    rewrite (find_after News.count_col
               (fun kw => map (fun k => cell_of_Z (News.month_count rows kw k))
                              (buckets (map fst rows)))
               "News_Total_Counting" _ News.keywords Htotal).
    reflexivity.
  - apply month_count_range.
  - destruct (Zsum_range (Z.of_nat (List.length (articles_of_month rows k)))
                (map (fun kw => News.month_count rows kw k) News.keywords))
      as [H1 H2].
    + intros x Hx. apply in_map_iff in Hx. destruct Hx as (w & <- & _).
      apply month_count_range.
    + split.
      * apply H1. apply in_map_iff. exists kw. split; [reflexivity|exact Hkw].
      * rewrite length_map in H2. change (List.length News.keywords) with 6 in H2. lia.
Qed.

Lemma news_counts_bounded_witness :
  exists n t : Z,
    cell_at (News.monthly_counts (News.kept [Sample.loud_article])) (ym 2020 3)
            (News.count_col "inflation") = Some (cell_of_Z n) /\
    cell_at (News.monthly_counts (News.kept [Sample.loud_article])) (ym 2020 3)
            "News_Total_Counting" = Some (cell_of_Z t) /\
    (0 <= n <= Z.of_nat (List.length
                           (articles_of_month (News.kept [Sample.loud_article])
                                              (ym 2020 3))))%Z /\
    (n <= t <= 6 * Z.of_nat (List.length
                               (articles_of_month (News.kept [Sample.loud_article])
                                                  (ym 2020 3))))%Z.
Proof.
  apply (news_counts_bounded (News.kept [Sample.loud_article]) (ym 2020 3) "inflation").
  - simpl. auto.
  - vm_compute. auto.
Defined.

(** ** From a raw file to its cell in the table of the parser *)

Lemma energy_add_files_accumulate (l : list (string * raw_file (list (list string)))) :
  forall J J',
    Energy.add_files J l = Ok J' ->
    accumulate J (map energy_table l) = Ok J'.
Proof.
  induction l as [|f tl IH]; intros J J' H; [exact H|].
  cbn [Energy.add_files map accumulate] in *.
  unfold Energy.add_file in H. unfold energy_table at 1.
  destruct (snd f) as [| | |raw_list]; simpl in *;
    try discriminate; try (now apply IH).
  destruct (Energy.monthly (fst f) raw_list) as [t|]; simpl in *; [|now apply IH].
  destruct (combine_with J t) as [next|e]; simpl in *; [now apply IH|discriminate].
Qed.

Lemma labor_fold_accumulate (l : list (string * raw_file Labor.matrix)) :
  forall J J',
    accumulate J (map labor_table l) = Ok J' ->
    fold_left Labor.add_file l J = J'.
Proof.
  induction l as [|f tl IH]; intros J J' H.
  - simpl in H. now injection H.
  - cbn [map accumulate] in H. cbn [fold_left].
    unfold Labor.add_file. unfold labor_table in H at 1.
    destruct (snd f) as [| | |m]; try (now apply IH).
    destruct (Labor.dated (Labor.melt m)) as [rows|e]; [|now apply IH].
    destruct (combine_with J (Labor.df_clean (fst f) rows)) as [next|e];
      [|discriminate].
    simpl in H. now apply IH.
Qed.

Lemma empty_canonical_no_rows (J : DataFrame) (S : list (string * (Month -> cell))) :
  canonical J S -> (S = [] -> index J = []) ->
  df_empty J = true -> index J = [].
Proof.
  intros (_ & Hc & _) Hrows He. unfold df_empty in He.
  destruct (index J) as [|k idx] eqn:Ei; [reflexivity|].
  destruct (columns J) as [|c cols] eqn:Ec; [|discriminate].
  apply Hrows. unfold render in Hc. symmetry in Hc.
  now apply map_eq_nil in Hc.
Qed.

Lemma sources_nil (t : DataFrame) : sources t = [] -> columns t = [].
Proof. unfold sources. apply map_eq_nil. Qed.

(** The tables of the files, accumulated: the result shows every cell
    of every table. *)
Lemma accumulate_canonical (ts : list (option DataFrame)) :
  forall (J : DataFrame) (S : list (string * (Month -> cell))),
    canonical J S ->
    (S = [] -> index J = []) ->
    (forall t, In (Some t) ts ->
               wf_frame t /\ StronglySorted Z.lt (index t) /\ columns t <> []) ->
    NoDup (map fst S ++ flat_map table_names ts) ->
    exists J' S',
      accumulate J ts = Ok J' /\ canonical J' S' /\ NoDup (map fst S') /\
      (S' = [] -> index J' = []) /\
      (forall c fn k, In (c, fn) S -> In k (index J) ->
         In k (index J') /\ exists fn', In (c, fn') S' /\ fn' k = fn k) /\
      (forall t c vals k,
         In (Some t) ts -> In (c, vals) (columns t) -> In k (index t) ->
         In k (index J') /\
         exists fn', In (c, fn') S' /\ fn' k = lookup_in (index t) vals k).
Proof.
  induction ts as [|o tl IH]; intros J S HJ Hrows Hts Hnd.
  - exists J, S. split; [reflexivity|]. split; [exact HJ|].
    split; [simpl in Hnd; now rewrite app_nil_r in Hnd|].
    split; [exact Hrows|]. split.
    + intros c fn k Hin Hk. split; [exact Hk|]. exists fn. auto.
    + intros t c vals k [].
  - destruct o as [t|].
    + destruct (Hts t (or_introl eq_refl)) as (Hwf & Hstrict & Hcols).
      cbn [flat_map table_names] in Hnd.
      assert (Hstep : exists J1 S1,
                 combine_with J t = Ok J1 /\ canonical J1 S1 /\
                 (S1 = [] -> index J1 = []) /\
                 NoDup (map fst S1 ++ flat_map table_names tl) /\
                 (forall c fn k, In (c, fn) S -> In k (index J) ->
                    In k (index J1) /\ exists fn', In (c, fn') S1 /\ fn' k = fn k) /\
                 (forall c vals k, In (c, vals) (columns t) -> In k (index t) ->
                    In k (index J1) /\
                    exists fn', In (c, fn') S1 /\ fn' k = lookup_in (index t) vals k)).
      { unfold combine_with. destruct (df_empty J) eqn:Ee.
        - exists t, (sources t). split; [reflexivity|].
          split; [now apply monthly_table_canonical|].
          split; [intros E; apply sources_nil in E; contradiction|].
          split; [rewrite names_sources; eapply NoDup_app_remove_l; exact Hnd|].
          split.
          + intros c fn k Hin Hk.
            rewrite (empty_canonical_no_rows J S HJ Hrows Ee) in Hk. destruct Hk.
          + intros c vals k Hc Hk. split; [exact Hk|].
            exists (lookup_in (index t) vals). split; [|reflexivity].
            unfold sources. apply in_map_iff. exists (c, vals). auto.
        - assert (Hdisj : forall x, In x (map fst S) -> ~ In x (names t)).
          { intros x Hx Hxt. apply (nodup_app_disjoint _ _ Hnd x Hx).
            apply in_or_app. now left. }
          destruct (join_canonical J t S HJ Hwf Hstrict Hdisj) as (J1 & Hj & Hidx & Hc1).
          exists J1, (S ++ sources t)%list. split; [exact Hj|]. split; [exact Hc1|].
          split.
          { intros E. apply app_eq_nil in E. destruct E as [_ E].
            apply sources_nil in E. contradiction. }
          split; [rewrite map_app, names_sources, <- app_assoc; exact Hnd|].
          split.
          + intros c fn k Hin Hk. split.
            * rewrite Hidx. apply sort_unique_in, in_or_app. now left.
            * exists fn. split; [apply in_or_app; now left|reflexivity].
          + intros c vals k Hc Hk. split.
            * rewrite Hidx. apply sort_unique_in, in_or_app. now right.
            * exists (lookup_in (index t) vals). split; [|reflexivity].
              apply in_or_app. right. unfold sources. apply in_map_iff.
              exists (c, vals). auto. }
      destruct Hstep as (J1 & S1 & Hc & Hcan1 & Hrows1 & Hnd1 & Hold1 & Hnew1).
      destruct (IH J1 S1 Hcan1 Hrows1 (fun t' H => Hts t' (or_intror H)) Hnd1)
        as (J' & S' & Hacc & Hcan' & HndS' & Hrows' & Hold' & Hnew').
      exists J', S'. cbn [accumulate]. rewrite Hc. simpl.
      split; [exact Hacc|]. split; [exact Hcan'|]. split; [exact HndS'|].
      split; [exact Hrows'|]. split.
      * intros c fn k Hin Hk.
        destruct (Hold1 c fn k Hin Hk) as (Hk1 & fn1 & Hin1 & E1).
        destruct (Hold' c fn1 k Hin1 Hk1) as (Hk' & fn' & Hin' & E').
        split; [exact Hk'|]. exists fn'. split; [exact Hin'|congruence].
      * intros t' c vals k [E|Hin] Hc' Hk.
        -- injection E as <-.
           destruct (Hnew1 c vals k Hc' Hk) as (Hk1 & fn1 & Hin1 & E1).
           destruct (Hold' c fn1 k Hin1 Hk1) as (Hk' & fn' & Hin' & E').
           split; [exact Hk'|]. exists fn'. split; [exact Hin'|congruence].
        -- exact (Hnew' t' c vals k Hin Hc' Hk).
    + cbn [flat_map table_names] in Hnd. simpl app in Hnd.
      destruct (IH J S HJ Hrows (fun t' H => Hts t' (or_intror H)) Hnd)
        as (J' & S' & Hacc & Hcan' & HndS' & Hrows' & Hold' & Hnew').
      exists J', S'. cbn [accumulate].
      split; [exact Hacc|]. split; [exact Hcan'|]. split; [exact HndS'|].
      split; [exact Hrows'|]. split; [exact Hold'|].
      intros t' c vals k [E|Hin] Hc' Hk; [discriminate|].
      exact (Hnew' t' c vals k Hin Hc' Hk).
Qed.

(** A cell of a frame that shows [S], after the window and the sort. *)
Lemma canonical_sort_slice_cell (J : DataFrame) (S : list (string * (Month -> cell)))
  (c : string) (fn : Month -> cell) (k : Month) :
  canonical J S -> NoDup (map fst S) ->
  In (c, fn) S -> In k (index J) -> in_window k = true ->
  cell_at (sort_index (slice_window J)) k c = Some (fn k).
Proof.
  intros (Hs & Hcols & _) Hnd Hin Hk Hw.
  set (idx := filter in_window (index J)).
  assert (Hsl : columns (slice_window J) = render idx S).
  { simpl. rewrite Hcols. unfold render. rewrite map_map. apply map_ext.
    intros nf. unfold take_col. simpl. f_equal.
    exact (take_where in_window (snd nf) (index J) []). }
  assert (Hndi : NoDup idx) by (apply NoDup_filter; now apply strict_nodup).
  assert (Hki : In k idx) by (apply filter_In; auto).
  destruct (In_nth_error idx k Hki) as (j & Hj).
  destruct (argsort_lookup idx (map fn idx) k j Hndi Hj) as (i & Hpos & Hcell).
  unfold cell_at, col_values.
  change (index (sort_index (slice_window J))) with (isort Z.leb idx).
  change (columns (sort_index (slice_window J)))
    with (map (take_col (argsort idx)) (columns (slice_window J))).
  rewrite Hsl.
  rewrite (find_by_unique_name _ (c, take (argsort idx) (map fn idx))).
  - simpl. rewrite Hpos, Hcell. f_equal. apply nth_error_nth.
    rewrite nth_error_map, Hj. reflexivity.
  - now rewrite names_take, names_render.
  - apply in_map_iff. exists (c, map fn idx). split; [reflexivity|].
    unfold render. apply in_map_iff. exists (c, fn). auto.
Qed.

Lemma table_names_nodup {F : Type} (table : string * F -> option DataFrame)
  (l : list (string * F)) :
  (forall f t, table f = Some t -> names t = [fst f]) ->
  NoDup (map fst l) ->
  NoDup (flat_map table_names (map table l)) /\
  (forall x, In x (flat_map table_names (map table l)) -> In x (map fst l)).
Proof.
  intros Hname. induction l as [|f tl IH]; intros Hnd.
  - split; [constructor|intros x []].
  - simpl in Hnd. inversion Hnd as [|? ? Hf Htl]; subst.
    destruct (IH Htl) as [IH1 IH2]. cbn [map flat_map].
    destruct (table f) as [t|] eqn:Et; simpl table_names.
    + rewrite (Hname f t Et). simpl. split.
      * constructor; [|exact IH1]. intros Hin. apply Hf. now apply IH2.
      * intros x [<-|Hx]; [now left|right; now apply IH2].
    + simpl. split; [exact IH1|]. intros x Hx. right. now apply IH2.
Qed.

Lemma energy_tables_fit (s : Energy.sources) :
  (forall t, In (Some t) (map energy_table (Energy.files s)) ->
             wf_frame t /\ StronglySorted Z.lt (index t) /\ columns t <> []) /\
  NoDup (flat_map table_names (map energy_table (Energy.files s))).
Proof.
  split.
  - intros t Ht. apply in_map_iff in Ht. destruct Ht as (f & Ef & _).
    unfold energy_table in Ef. destruct (snd f) as [| | |raw_list]; try discriminate.
    pose proof (energy_monthly_strict _ _ _ Ef) as Hs.
    apply energy_monthly_resampled in Ef. subst t.
    split; [|split; [exact Hs|discriminate]].
    unfold wf_frame. simpl. constructor; [|constructor]. simpl. apply length_map.
  - apply (table_names_nodup energy_table (Energy.files s)).
    + intros f t Ef. unfold energy_table in Ef.
      destruct (snd f) as [| | |raw_list]; try discriminate.
      apply energy_monthly_resampled in Ef. now subst t.
    + simpl. repeat constructor; simpl; intuition discriminate.
Qed.

(** X18.  A cell of the energy table comes from its file alone: for a
    raw file of the parser, of the shapes the embedding reads, and a
    month of the window that is a row of the monthly table of that
    file, the table that [clean_energy_data] returns holds, in the
    column of the file, the cell of that monthly table; the joins with
    the tables of the other files, the window and the sort change
    nothing of it. *)
Theorem energy_cell_from_its_file :
  forall (s : Energy.sources) (df : DataFrame)
         (f : string * raw_file (list (list string)))
         (raw_list : list (list string)) (dfm : DataFrame) (k : Month),
    Energy.clean_energy_data s = Ok df ->
    In f (Energy.files s) -> snd f = Loaded raw_list ->
    legible raw_list = true ->
    Energy.monthly (fst f) raw_list = Some dfm ->
    In k (index dfm) ->
    in_window k = true ->
    cell_at df k (fst f) = cell_at dfm k (fst f).
Proof.
  intros s df f raw_list dfm k Hrun Hf Hraw _ Hm Hkt Hw.
  destruct (energy_tables_fit s) as [Hfit Hnd].
  destruct (accumulate_canonical (map energy_table (Energy.files s)) empty_frame []
              ltac:(split; [constructor|split; [reflexivity|intros nf k' []]])
              ltac:(reflexivity) Hfit Hnd)
    as (J & S & Hacc & Hcan & HndS & _ & _ & Hnew).
  assert (Ht : energy_table f = Some dfm).
  { unfold energy_table. now rewrite Hraw. }
  pose proof (energy_monthly_strict _ _ _ Hm) as Hstrict.
  apply energy_monthly_resampled in Hm.
  set (g := fun k => mean (bucket_values (price_points raw_list) k)).
  assert (Hcol : columns dfm = [(fst f, map g (index dfm))]) by (now subst dfm).
  assert (Hright : cell_at dfm k (fst f) = Some (g k)).
  { apply (cell_at_column dfm (fst f) g k).
    - unfold col_values. rewrite Hcol. simpl. now rewrite String.eqb_refl.
    - now apply strict_nodup.
    - exact Hkt. }
  destruct (Hnew dfm (fst f) (map g (index dfm)) k) as (HkJ & fn & Hfn & Efn).
  { apply in_map_iff. exists f. auto. }
  { rewrite Hcol. now left. }
  { exact Hkt. }
  rewrite lookup_in_render in Efn; [|now apply strict_nodup|exact Hkt].
  unfold Energy.clean_energy_data in Hrun.
  destruct (Energy.add_files empty_frame (Energy.files s)) as [combined|e] eqn:Eadd;
    [|discriminate].
  apply energy_add_files_accumulate in Eadd. rewrite Hacc in Eadd.
  injection Eadd as <-. simpl in Hrun.
  assert (Hne : df_empty J = false).
  { destruct Hcan as (_ & Hc & _). unfold df_empty.
    destruct (index J) as [|x idx]; [destruct HkJ|].
    rewrite Hc. destruct S; [destruct Hfn|reflexivity]. }
  rewrite Hne in Hrun. injection Hrun as <-.
  rewrite (canonical_sort_slice_cell J S (fst f) fn k Hcan HndS Hfn HkJ Hw).
  now rewrite Efn, Hright.
Qed.

Lemma energy_cell_from_its_file_witness :
  exists df dfm,
    Energy.clean_energy_data Sample.small_energy = Ok df /\
    Energy.monthly "Gas_Price" [["Feb-2016"; "02/01"; "2.0"]]%string = Some dfm /\
    cell_at df (ym 2016 2) "Gas_Price" = cell_at dfm (ym 2016 2) "Gas_Price".
Proof.
  eexists. eexists.
  split; [vm_compute; reflexivity|]. split; [vm_compute; reflexivity|].
  apply (energy_cell_from_its_file Sample.small_energy _
           ("Gas_Price"%string, Loaded [["Feb-2016"; "02/01"; "2.0"]]%string)
           [["Feb-2016"; "02/01"; "2.0"]]%string _ (ym 2016 2)).
  - vm_compute. reflexivity.
  - simpl. auto.
  - reflexivity.
  - vm_compute. reflexivity.
  - vm_compute. reflexivity.
  - vm_compute. auto.
  - reflexivity.
Defined.

(** *** The labor matrix *)

Lemma in_combine_seq_nth {A : Type} (l : list A) :
  forall (s j : nat) (x : A),
    nth_error l j = Some x -> In (s + j, x) (combine (seq s (List.length l)) l).
Proof.
  induction l as [|y tl IH]; intros s j x H; [destruct j; discriminate|].
  destruct j as [|j]; simpl in *.
  - injection H as <-. left. f_equal. lia.
  - right. replace (s + S j) with (S s + j) by lia. now apply IH.
Qed.

Lemma melt_contains (m : Labor.matrix) (j : nat) (cname : string) (y : Z)
  (vals : list cell) :
  nth_error (Labor.value_cols m) j = Some cname ->
  In (y, vals) (Labor.year_rows m) ->
  In (y, cname, nth j vals None) (Labor.melt m).
Proof.
  intros Hj Hy. unfold Labor.melt. apply in_flat_map.
  exists (j, cname). split.
  - exact (in_combine_seq_nth (Labor.value_cols m) 0 j cname Hj).
  - apply in_map_iff. exists (y, vals). split; [reflexivity|exact Hy].
Qed.

Lemma melt_years (m : Labor.matrix) (y : Z) (cname : string) (rate : cell) :
  In (y, cname, rate) (Labor.melt m) -> In y (map fst (Labor.year_rows m)).
Proof.
  unfold Labor.melt. intros H. apply in_flat_map in H.
  destruct H as (jc & _ & H). apply in_map_iff in H.
  destruct H as (r & E & Hr). injection E as <- _ _. now apply in_map.
Qed.

Lemma labor_dated_ok (l : list (Z * string * cell)) :
  (forall y cname rate, In (y, cname, rate) l -> Dates.valid_year y = true) ->
  exists rows, Labor.dated l = Ok rows.
Proof.
  induction l as [|[[y cname] rate] tl IH]; intros H; simpl; [eauto|].
  destruct IH as (rest & Hrest); [intros; eapply H; right; eassumption|].
  destruct (Labor.month_num cname); [|eauto].
  rewrite (H y cname rate (or_introl eq_refl)), Hrest. simpl. eauto.
Qed.

Lemma labor_dated_contains (l : list (Z * string * cell)) :
  forall rows y cname rate mm,
    Labor.dated l = Ok rows ->
    In (y, cname, rate) l -> Labor.month_num cname = Some mm ->
    In (ym y mm, rate) rows.
Proof.
  induction l as [|[[y' c'] r'] tl IH]; intros rows y cname rate mm H Hin Hm;
    [destruct Hin|].
  simpl in H. destruct Hin as [E|Hin].
  - injection E as -> -> ->. rewrite Hm in H.
    destruct (Dates.valid_year y); [|discriminate].
    destruct (Labor.dated tl) as [rest|e]; [|discriminate].
    simpl in H. injection H as <-. now left.
  - destruct (Labor.month_num c').
    + destruct (Dates.valid_year y'); [|discriminate].
      destruct (Labor.dated tl) as [rest|e] eqn:Er; [|discriminate].
      simpl in H. injection H as <-. right. now apply (IH rest y cname rate mm).
    + now apply (IH rows y cname rate mm).
Qed.

Lemma unique_key_value (rows : list (Month * cell)) (k : Month) (v v' : cell) :
  NoDup (map fst rows) -> In (k, v) rows -> In (k, v') rows -> v = v'.
Proof.
  induction rows as [|[k0 v0] tl IH]; intros Hnd H H'; [destruct H|].
  simpl in Hnd. inversion Hnd as [|? ? Hk Htl]; subst.
  destruct H as [E|H], H' as [E'|H'].
  - congruence.
  - injection E as -> ->. exfalso. apply Hk.
    change k with (fst (k, v')). now apply in_map.
  - injection E' as -> ->. exfalso. apply Hk.
    change k with (fst (k, v)). now apply in_map.
  - now apply IH.
Qed.

(** The cell of a month in the sorted table of one labor file. *)
Lemma df_clean_lookup (rows sorted : list (Month * cell)) (k : Month) (v : cell) :
  Permutation sorted rows ->
  NoDup (map fst rows) -> In (k, v) rows ->
  lookup_in (map fst sorted) (map snd sorted) k = v.
Proof.
  intros Hp Hnd Hin.
  assert (Hnd' : NoDup (map fst sorted)).
  { eapply Permutation_NoDup; [|exact Hnd].
    apply Permutation_map, Permutation_sym, Hp. }
  assert (Hin' : In (k, v) sorted).
  { eapply Permutation_in; [apply Permutation_sym, Hp|exact Hin]. }
  unfold lookup_in.
  destruct (position_found k (map fst sorted) Hnd')
    as (p & -> & Hp').
  { change k with (fst (k, v)). now apply in_map. }
  rewrite nth_error_map in Hp'.
  destruct (nth_error sorted p) as [[k' v']|] eqn:Ep; [|discriminate].
  simpl in Hp'. injection Hp' as ->.
  apply nth_error_nth. rewrite nth_error_map, Ep. simpl. f_equal.
  apply (unique_key_value sorted k v' v); [exact Hnd'| |exact Hin'].
  eapply nth_error_In. exact Ep.
Qed.

Lemma labor_tables_fit (s : Labor.sources) :
  tidy_file (Labor.total s) -> tidy_file (Labor.men s) -> tidy_file (Labor.women s) ->
  (forall t, In (Some t) (map labor_table (Labor.files s)) ->
             wf_frame t /\ StronglySorted Z.lt (index t) /\ columns t <> []) /\
  NoDup (flat_map table_names (map labor_table (Labor.files s))).
Proof.
  intros H1 H2 H3. split.
  - intros t Ht. apply in_map_iff in Ht. destruct Ht as (f & Ef & Hf).
    assert (Htidy : tidy_file (snd f)).
    { simpl in Hf. destruct Hf as [<-|[<-|[<-|[]]]]; assumption. }
    unfold labor_table in Ef. destruct (snd f) as [| | |m]; try discriminate.
    destruct (Labor.dated (Labor.melt m)) as [rows|e] eqn:Er; [|discriminate].
    injection Ef as <-. split; [|split; [|discriminate]].
    + unfold wf_frame. simpl. constructor; [|constructor]. simpl.
      now rewrite !length_map.
    + apply df_clean_strict. now apply (melt_months_nodup m).
  - apply (table_names_nodup labor_table (Labor.files s)).
    + intros f t Ef. unfold labor_table in Ef.
      destruct (snd f) as [| | |m]; try discriminate.
      destruct (Labor.dated (Labor.melt m)); [|discriminate].
      now injection Ef as <-.
    + simpl. repeat constructor; simpl; intuition discriminate.
Qed.

(** X19.  The labor parser puts every entry of a matrix where it
    belongs: for a file with one row per year and one column per name,
    the entry of the year [y] under a column with a month name is the
    cell of that month of [y] in the column of the file, for every month
    of the window; columns with another name (an annual average) give no
    row, and the other two files change nothing of it. *)
Theorem labor_entry_in_its_cell :
  forall (s : Labor.sources) (f : string * raw_file Labor.matrix)
         (m : Labor.matrix) (j : nat) (cname : string) (mm y : Z)
         (vals : list cell),
    tidy_file (Labor.total s) -> tidy_file (Labor.men s) ->
    tidy_file (Labor.women s) ->
    In f (Labor.files s) -> snd f = Loaded m ->
    valid_years m ->
    nth_error (Labor.value_cols m) j = Some cname ->
    Labor.month_num cname = Some mm ->
    In (y, vals) (Labor.year_rows m) ->
    in_window (ym y mm) = true ->
    cell_at (Labor.clean_labor_data s) (ym y mm) (fst f) = Some (nth j vals None).
Proof.
  intros s f m j cname mm y vals H1 H2 H3 Hf Hm Hyears Hj Hmm Hy Hw.
  destruct (labor_tables_fit s H1 H2 H3) as [Hfit Hnd].
  destruct (accumulate_canonical (map labor_table (Labor.files s)) empty_frame []
              ltac:(split; [constructor|split; [reflexivity|intros nf k' []]])
              ltac:(reflexivity) Hfit Hnd)
    as (J & S & Hacc & Hcan & HndS & _ & _ & Hnew).
  destruct (labor_dated_ok (Labor.melt m)) as (rows & Hrows).
  { intros y' c' r' Hin. apply melt_years in Hin.
    apply in_map_iff in Hin. destruct Hin as (r & <- & Hr).
    unfold valid_years in Hyears. rewrite Forall_forall in Hyears. now apply Hyears. }
  assert (Htidy : tidy_matrix m).
  { assert (Ht : tidy_file (snd f)).
    { simpl in Hf. destruct Hf as [<-|[<-|[<-|[]]]]; assumption. }
    now rewrite Hm in Ht. }
  assert (Hrow : In (ym y mm, nth j vals None) rows).
  { apply (labor_dated_contains (Labor.melt m) rows y cname _ mm Hrows); [|exact Hmm].
    now apply melt_contains. }
  set (sorted := isort (fun a b : Month * cell => Z.leb (fst a) (fst b)) rows).
  assert (Ht : labor_table f = Some (Labor.df_clean (fst f) rows)).
  { unfold labor_table. now rewrite Hm, Hrows. }
  destruct (Hnew (Labor.df_clean (fst f) rows) (fst f) (map snd sorted) (ym y mm))
    as (HkJ & fn & Hfn & Efn).
  { apply in_map_iff. exists f. auto. }
  { left. reflexivity. }
  { simpl. apply in_map_iff. exists (ym y mm, nth j vals None). split; [reflexivity|].
    eapply Permutation_in; [apply Permutation_sym, isort_perm|exact Hrow]. }
  change (index (Labor.df_clean (fst f) rows)) with (map fst sorted) in Efn.
  rewrite (df_clean_lookup rows sorted (ym y mm) (nth j vals None)) in Efn.
  2:{ apply isort_perm. }
  2:{ now apply (melt_months_nodup m). }
  2:{ exact Hrow. }
  unfold Labor.clean_labor_data. cbv zeta.
  rewrite (labor_fold_accumulate (Labor.files s) empty_frame J Hacc).
  assert (Hne : df_empty J = false).
  { destruct Hcan as (_ & Hc & _). unfold df_empty.
    destruct (index J) as [|x idx]; [destruct HkJ|].
    rewrite Hc. destruct S; [destruct Hfn|reflexivity]. }
  rewrite Hne.
  rewrite (canonical_sort_slice_cell J S (fst f) fn (ym y mm) Hcan HndS Hfn HkJ Hw).
  now rewrite Efn.
Qed.

Lemma labor_entry_in_its_cell_witness :
  cell_at (Labor.clean_labor_data Sample.two_years) (ym 2017 2) "Unemp_Total"
  = Some (nth 1 [Some (inject_Z 4); Some (inject_Z 5); None] None).
Proof.
  apply (labor_entry_in_its_cell Sample.two_years
           ("Unemp_Total"%string,
            Loaded (Labor.mkMatrix ["Jan"; "Feb"; "Annual"]%string
                      [(2017%Z, [Some (inject_Z 4); Some (inject_Z 5); None]);
                       (2016%Z, [Some (inject_Z 6); Some (inject_Z 7); None])]))
           (Labor.mkMatrix ["Jan"; "Feb"; "Annual"]%string
              [(2017%Z, [Some (inject_Z 4); Some (inject_Z 5); None]);
               (2016%Z, [Some (inject_Z 6); Some (inject_Z 7); None])])
           1 "Feb"%string 2%Z 2017%Z [Some (inject_Z 4); Some (inject_Z 5); None]).
  - split; repeat constructor; simpl; intuition discriminate.
  - exact I.
  - exact I.
  - simpl. auto.
  - reflexivity.
  - repeat constructor.
  - reflexivity.
  - reflexivity.
  - simpl. auto.
  - reflexivity.
Defined.

(** ** The column names of the final dataset *)

Lemma set_column_names (name : string) (vals : list cell)
  (cols : list (string * list cell)) (c : string) :
  In c (map fst (CPI.set_column name vals cols)) -> In c (map fst cols) \/ c = name.
Proof.
  unfold CPI.set_column.
  destruct (existsb (fun c => String.eqb (fst c) name) cols).
  - rewrite map_map. intros H. apply in_map_iff in H.
    destruct H as (x & <- & Hx).
    destruct (String.eqb (fst x) name); [now right|left; now apply in_map].
  - rewrite map_app. intros H. apply in_app_or in H.
    destruct H as [H|[<-|[]]]; [now left|now right].
Qed.

Lemma add_yoy_names (pad : bool) (todo : list string) :
  forall cols c,
    In c (map fst (CPI.add_yoy pad todo cols)) ->
    In c (map fst cols) \/ exists c', In c' todo /\ c = (c' ++ "_YoY")%string.
Proof.
  induction todo as [|c0 todo IH]; intros cols c H; [now left|].
  unfold CPI.add_yoy in H. simpl in H.
  destruct (CPI.get_column c0 cols) as [vals|].
  - apply (IH _ c) in H. destruct H as [H|(c' & Hc' & E)].
    + apply set_column_names in H. destruct H as [H|H]; [now left|].
      right. exists c0. split; [now left|exact H].
    + right. exists c'. split; [now right|exact E].
  - apply (IH _ c) in H. destruct H as [H|(c' & Hc' & E)]; [now left|].
    right. exists c'. split; [now right|exact E].
Qed.

Lemma cpi_names (pad : bool) (l : list CPI.series) (df : DataFrame) (c : string) :
  CPI.clean_cpi_data pad (Loaded (CPI.Series l)) = Ok (Frame df) ->
  In c (names df) ->
  exists s, In s l /\
            (c = CPI.col_name (CPI.seriesID s) \/
             c = (CPI.col_name (CPI.seriesID s) ++ "_YoY")%string).
Proof.
  intros Hrun Hc.
  destruct (CPI.all_records l) as [recs|e] eqn:Hrecs.
  2:{ unfold CPI.clean_cpi_data in Hrun. rewrite Hrecs in Hrun. discriminate. }
  destruct (clean_cpi_data_frame pad l recs df Hrecs Hrun)
    as (dates & cols & idx & Hpivot & _ & _ & Hcols).
  destruct (pivot_shape recs dates cols Hpivot) as (Hnames & _).
  assert (Htype : forall x, In x (map fst cols) ->
                            exists s, In s l /\ x = CPI.col_name (CPI.seriesID s)).
  { intros x Hx. rewrite Hnames in Hx.
    apply (proj1 (sort_unique_str_in _ _)) in Hx.
    apply in_map_iff in Hx. destruct Hx as (r & <- & Hr).
    exact (record_types l recs r Hrecs Hr). }
  unfold names in Hc. rewrite Hcols in Hc. apply add_yoy_names in Hc.
  destruct Hc as [Hc|(c' & Hc' & ->)].
  - rewrite names_take in Hc. destruct (Htype c Hc) as (s & Hs & E). eauto.
  - destruct (Htype c' Hc') as (s & Hs & ->). eauto.
Qed.

Lemma energy_names (s : Energy.sources) (df : DataFrame) :
  Energy.clean_energy_data s = Ok df ->
  incl (names df) ["Gas_Price"; "Diesel_Price"; "Oil_Price"]%string.
Proof.
  intros Hrun. unfold Energy.clean_energy_data in Hrun.
  destruct (Energy.add_files empty_frame (Energy.files s)) as [combined0|e] eqn:Hadd;
    [|discriminate].
  destruct (energy_add_files_ok (Energy.files s) empty_frame
              (energy_add_files_readable _ _ _ Hadd))
    as (combined & Hacc & Hincl & _).
  - simpl. repeat constructor; simpl; intuition discriminate.
  - intros n [].
  - constructor.
  - rewrite Hadd in Hacc. injection Hacc as ->. simpl in Hrun.
    destruct (df_empty combined); injection Hrun as <-.
    + intros x [].
    + unfold names. simpl. rewrite !names_take. exact Hincl.
Qed.

Lemma labor_add_file_names (combined : DataFrame) (f : string * raw_file Labor.matrix) :
  incl (names (Labor.add_file combined f)) (names combined ++ [fst f]).
Proof.
  unfold Labor.add_file.
  destruct (snd f) as [| | |m]; try (apply incl_appl, incl_refl).
  destruct (Labor.dated (Labor.melt m)) as [rows|e]; [|apply incl_appl, incl_refl].
  destruct (combine_with combined (Labor.df_clean (fst f) rows)) as [next|e] eqn:E;
    [|apply incl_appl, incl_refl].
  unfold combine_with in E. destruct (df_empty combined).
  - injection E as <-. apply incl_appr, incl_refl.
  - rewrite (join_outer_names _ _ _ E). apply incl_refl.
Qed.

Lemma labor_names (s : Labor.sources) :
  incl (names (Labor.clean_labor_data s))
       ["Unemp_Total"; "Unemp_Men"; "Unemp_Women"]%string.
Proof.
  unfold Labor.clean_labor_data, Labor.files. cbv zeta. cbn [fold_left].
  set (c1 := Labor.add_file empty_frame ("Unemp_Total"%string, Labor.total s)).
  set (c2 := Labor.add_file c1 ("Unemp_Men"%string, Labor.men s)).
  set (c3 := Labor.add_file c2 ("Unemp_Women"%string, Labor.women s)).
  assert (H1 : incl (names c1) ["Unemp_Total"%string]).
  { exact (labor_add_file_names empty_frame _). }
  assert (H2 : incl (names c2) ["Unemp_Total"; "Unemp_Men"]%string).
  { intros x Hx. apply labor_add_file_names in Hx. apply in_app_or in Hx.
    destruct Hx as [Hx|[<-|[]]]; [apply H1 in Hx|]; simpl in *; tauto. }
  assert (H3 : incl (names c3) ["Unemp_Total"; "Unemp_Men"; "Unemp_Women"]%string).
  { intros x Hx. apply labor_add_file_names in Hx. apply in_app_or in Hx.
    destruct Hx as [Hx|[<-|[]]]; [apply H2 in Hx|]; simpl in *; tauto. }
  destruct (df_empty c3); [exact H3|].
  unfold names. simpl. rewrite !names_take. exact H3.
Qed.

Lemma news_names (src : News.source) :
  incl (names (News.clean_news_data src))
       ["News_Count_Inflation"; "News_Count_Recession"; "News_Count_Crisis";
        "News_Count_High_Price"; "News_Count_Layoff"; "News_Count_Unemployment";
        "News_Total_Counting"]%string.
Proof.
  unfold News.clean_news_data. destruct src as [chunks|]; [|intros x []].
  destruct (News.all_articles chunks); [intros x []|].
  apply incl_refl.
Qed.

Lemma non_empty_kept (dfs : list pyval) :
  forall kept t, Merge.non_empty dfs = Ok kept -> In t kept -> In (Frame t) dfs.
Proof.
  induction dfs as [|[|df] tl IH]; intros kept t H Ht; simpl in H.
  - injection H as <-. destruct Ht.
  - discriminate.
  - destruct (Merge.non_empty tl) as [rest|e]; [|discriminate].
    simpl in H. injection H as <-.
    destruct (df_empty df).
    + right. now apply (IH rest).
    + destruct Ht as [<-|Ht]; [now left|right; now apply (IH rest)].
Qed.

Lemma merge_frames_names (dfs : list pyval) (final_df : DataFrame) (c : string) :
  Merge.merge_frames dfs = Merge.Saved final_df ->
  In c (names final_df) ->
  exists df, In (Frame df) dfs /\ In c (names df).
Proof.
  unfold Merge.merge_frames.
  destruct (Merge.non_empty dfs) as [[|first rest]|e] eqn:Hne; try discriminate.
  destruct (Merge.join_all first rest) as [J|e] eqn:E; [|discriminate].
  intros H Hc. injection H as <-.
  unfold names in Hc. simpl in Hc. rewrite !map_map in Hc. simpl in Hc.
  change (map (fun x : string * list cell => fst x) (columns J)) with (names J) in Hc.
  rewrite (join_all_names _ _ _ E) in Hc.
  change (names first ++ flat_map names rest)%list
    with (flat_map names (first :: rest)) in Hc.
  apply in_flat_map in Hc. destruct Hc as (t & Ht & Hc).
  exists t. split; [|exact Hc]. exact (non_empty_kept dfs _ t Hne Ht).
Qed.

(** X20.  Every column of a final dataset that is written is either the
    column of a series of the CPI file, named by the series map or by
    the series id itself, or that name followed by [_YoY], or one of the
    thirteen fixed columns of the energy, labor and news parsers: the
    merge adds no column and renames none. *)
Theorem final_dataset_known_columns :
  forall (pad : bool) (raw : Merge.raw_dir) (final_df : DataFrame) (c : string),
    Merge.merge_all_data pad raw = Merge.Saved final_df ->
    In c (names final_df) ->
    (exists l s,
        Merge.cpi raw = Loaded (CPI.Series l) /\ In s l /\
        (c = CPI.col_name (CPI.seriesID s) \/
         c = (CPI.col_name (CPI.seriesID s) ++ "_YoY")%string)) \/
    In c fixed_columns.
Proof.
  intros pad raw final_df c. unfold Merge.merge_all_data.
  destruct (CPI.clean_cpi_data pad (Merge.cpi raw)) as [df1|e] eqn:Hcpi;
    [|discriminate].
  destruct (Energy.clean_energy_data (Merge.energy raw)) as [df2|e] eqn:Hen;
    [|discriminate].
  intros Hrun Hc.
  destruct (merge_frames_names _ _ c Hrun Hc) as (df & Hdf & Hin).
  destruct Hdf as [E|[E|[E|[E|[]]]]].
  - left. subst df1.
    destruct (Merge.cpi raw) as [| | |[| |l]] eqn:Hraw; try discriminate.
    destruct (cpi_names pad l df c Hcpi Hin) as (s & Hs & Hname).
    exists l, s. auto.
  - right. injection E as ->. apply (energy_names _ _ Hen) in Hin.
    unfold fixed_columns. simpl in *. tauto.
  - right. injection E as <-. apply labor_names in Hin.
    unfold fixed_columns. simpl in *. tauto.
  - right. injection E as <-. apply news_names in Hin.
    unfold fixed_columns. simpl in *. tauto.
Qed.

Lemma final_dataset_known_columns_witness :
  exists final_df,
    Merge.merge_all_data true Sample.small_raw = Merge.Saved final_df /\
    ((exists l s,
         Merge.cpi Sample.small_raw = Loaded (CPI.Series l) /\ In s l /\
         ("Gas_Price"%string = CPI.col_name (CPI.seriesID s) \/
          "Gas_Price"%string = (CPI.col_name (CPI.seriesID s) ++ "_YoY")%string)) \/
     In "Gas_Price"%string fixed_columns).
Proof.
  eexists. split; [vm_compute; reflexivity|].
  eapply (final_dataset_known_columns true Sample.small_raw _ "Gas_Price").
  - vm_compute. reflexivity.
  - vm_compute. auto.
Defined.

(** ** The analysis script on the saved dataset *)

Lemma cols_selected (df_columns : list string) (c : string) :
  In c (Analysis.cols df_columns) <-> In c Analysis.target_cols /\ In c df_columns.
Proof.
  unfold Analysis.cols. rewrite filter_In, existsb_exists. split.
  - intros (Ht & x & Hx & E). apply String.eqb_eq in E. subst x. auto.
  - intros (Ht & Hc). split; [exact Ht|]. exists c. split; [exact Hc|].
    apply String.eqb_refl.
Qed.

Lemma mapped_col_name (s : CPI.series) :
  In (CPI.seriesID s) (map fst CPI.series_map) ->
  In (CPI.col_name (CPI.seriesID s))
     ["CPI_Total"; "CPI_Food"; "CPI_Energy"; "CPI_Shelter"]%string.
Proof.
  intros H. simpl in H.
  destruct H as [<-|[<-|[<-|[<-|[]]]]]; vm_compute; auto.
Qed.

(** X21.  The statistics table never covers the count of the keyword
    'high price': the cleaner names that column [News_Count_High_Price]
    while [analyze_basic_stats] asks for [News_Count_HighPrice], a name
    that no column of a saved dataset bears when the CPI file holds the
    series of the series map; the selection drops the name without a
    message.  The column [News_Count_Inflation] is not selected either. *)
Theorem high_price_count_left_out :
  forall (pad : bool) (raw : Merge.raw_dir) (final_df : DataFrame),
    Merge.merge_all_data pad raw = Merge.Saved final_df ->
    (forall l, Merge.cpi raw = Loaded (CPI.Series l) -> mapped_series l) ->
    ~ In "News_Count_HighPrice"%string (names final_df) /\
    ~ In "News_Count_HighPrice"%string (Analysis.cols (names final_df)) /\
    ~ In "News_Count_High_Price"%string (Analysis.cols (names final_df)) /\
    ~ In "News_Count_Inflation"%string (Analysis.cols (names final_df)).
Proof.
  intros pad raw final_df Hrun Hmapped.
  assert (Hno : ~ In "News_Count_HighPrice"%string (names final_df)).
  { intros Hin.
    assert (Hcases :
              (exists l s,
                  Merge.cpi raw = Loaded (CPI.Series l) /\ In s l /\
                  ("News_Count_HighPrice"%string = CPI.col_name (CPI.seriesID s) \/
                   "News_Count_HighPrice"%string
                   = (CPI.col_name (CPI.seriesID s) ++ "_YoY")%string)) \/
              In "News_Count_HighPrice"%string fixed_columns).
    { revert Hrun Hin. unfold Merge.merge_all_data.
      destruct (CPI.clean_cpi_data pad (Merge.cpi raw)) as [df1|e] eqn:Hcpi;
        [|discriminate].
      destruct (Energy.clean_energy_data (Merge.energy raw)) as [df2|e] eqn:Hen;
        [|discriminate].
      intros Hrun Hin.
      destruct (merge_frames_names _ _ _ Hrun Hin) as (df & Hdf & Hc).
      destruct Hdf as [E|[E|[E|[E|[]]]]].
      - left. subst df1.
        destruct (Merge.cpi raw) as [| | |[| |l]] eqn:Hraw; try discriminate.
        destruct (cpi_names pad l df _ Hcpi Hc) as (s & Hs & Hname).
        exists l, s. auto.
      - right. injection E as ->. apply (energy_names _ _ Hen) in Hc.
        unfold fixed_columns. simpl in *. tauto.
      - right. injection E as <-. apply labor_names in Hc.
        unfold fixed_columns. simpl in *. tauto.
      - right. injection E as <-. apply news_names in Hc.
        unfold fixed_columns. simpl in *. tauto. }
    destruct Hcases as [(l & s & Hl & Hs & Hname)|Hfixed].
    - specialize (Hmapped l Hl). unfold mapped_series in Hmapped.
      rewrite Forall_forall in Hmapped.
      pose proof (mapped_col_name s (Hmapped s Hs)) as Hcol.
      assert (Hbad : forall n,
                 In n ["CPI_Total"; "CPI_Food"; "CPI_Energy"; "CPI_Shelter"]%string ->
                 "News_Count_HighPrice"%string <> n /\
                 "News_Count_HighPrice"%string <> (n ++ "_YoY")%string).
      { intros n Hn. simpl in Hn.
        destruct Hn as [<-|[<-|[<-|[<-|[]]]]]; split; simpl; discriminate. }
      destruct (Hbad _ Hcol) as [B1 B2]. destruct Hname; contradiction.
    - unfold fixed_columns in Hfixed. simpl in Hfixed. intuition discriminate. }
  split; [exact Hno|]. split; [|split].
  - intros H. apply cols_selected in H. tauto.
  - intros H. apply cols_selected in H. destruct H as [H _].
    simpl in H. intuition discriminate.
  - intros H. apply cols_selected in H. destruct H as [H _].
    simpl in H. intuition discriminate.
Qed.

Lemma high_price_count_left_out_witness :
  exists final_df,
    Merge.merge_all_data true Sample.small_raw = Merge.Saved final_df /\
    ~ In "News_Count_HighPrice"%string (names final_df) /\
    ~ In "News_Count_HighPrice"%string (Analysis.cols (names final_df)) /\
    ~ In "News_Count_High_Price"%string (Analysis.cols (names final_df)) /\
    ~ In "News_Count_Inflation"%string (Analysis.cols (names final_df)).
Proof.
  eexists. split; [vm_compute; reflexivity|].
  apply (high_price_count_left_out true Sample.small_raw).
  - vm_compute. reflexivity.
  - intros l E. injection E as <-. repeat constructor.
Defined.

Lemma stronger_true (x b : Q) :
  Analysis.stronger (Some x) b = true <-> (Qabs b < Qabs x)%Q.
Proof.
  unfold Analysis.stronger. rewrite negb_true_iff. split.
  - intros H. apply Qnot_le_lt. intros Hle.
    apply Qle_bool_iff in Hle. congruence.
  - intros H. destruct (Qle_bool (Qabs x) (Qabs b)) eqn:E; [|reflexivity].
    apply Qle_bool_iff in E. exfalso. exact (Qlt_not_le _ _ H E).
Qed.

Lemma stronger_false (x b : Q) :
  Analysis.stronger (Some x) b = false <-> (Qabs x <= Qabs b)%Q.
Proof.
  unfold Analysis.stronger. rewrite negb_false_iff. apply Qle_bool_iff.
Qed.

(** What the loop over the lags returns, from any state of the loop. *)
Lemma best_from_spec (corrs : list cell) :
  forall (lag0 bl : nat) (bc : Q),
    let r := Analysis.best_from lag0 corrs bl bc in
    (Qabs bc <= Qabs (snd r))%Q /\
    (forall i x, nth_error corrs i = Some (Some x) -> (Qabs x <= Qabs (snd r))%Q) /\
    (r = (bl, bc) \/
     exists j,
       fst r = lag0 + j /\ nth_error corrs j = Some (Some (snd r)) /\
       (Qabs bc < Qabs (snd r))%Q /\
       (forall i x, i < j -> nth_error corrs i = Some (Some x) ->
                    (Qabs x < Qabs (snd r))%Q)).
Proof.
  induction corrs as [|corr tl IH]; intros lag0 bl bc; cbv zeta.
  - simpl. split; [apply Qle_refl|]. split; [|now left].
    intros i x H. destruct i; discriminate.
  - cbn [Analysis.best_from].
    assert (Hkeep :
              forall (Hhead : forall x, corr = Some x -> (Qabs x <= Qabs bc)%Q),
                let r := Analysis.best_from (S lag0) tl bl bc in
                (Qabs bc <= Qabs (snd r))%Q /\
                (forall i x, nth_error (corr :: tl) i = Some (Some x) ->
                             (Qabs x <= Qabs (snd r))%Q) /\
                (r = (bl, bc) \/
                 exists j,
                   fst r = lag0 + j /\
                   nth_error (corr :: tl) j = Some (Some (snd r)) /\
                   (Qabs bc < Qabs (snd r))%Q /\
                   (forall i x, i < j -> nth_error (corr :: tl) i = Some (Some x) ->
                                (Qabs x < Qabs (snd r))%Q))).
    { intros Hhead. cbv zeta.
      destruct (IH (S lag0) bl bc) as (H1 & H2 & H3).
      split; [exact H1|]. split.
      - intros [|i] x Hx; simpl in Hx.
        + injection Hx as ->. eapply Qle_trans; [now apply Hhead|exact H1].
        + now apply (H2 i).
      - destruct H3 as [H3|(j & Hj & Hn & Hlt & Hbefore)]; [now left|].
        right. exists (S j). split; [lia|]. split; [exact Hn|]. split; [exact Hlt|].
        intros [|i] x Hi Hx; simpl in Hx.
        + injection Hx as ->. eapply Qle_lt_trans; [now apply Hhead|exact Hlt].
        + apply (Hbefore i x); [lia|exact Hx]. }
    destruct corr as [x|].
    + destruct (Analysis.stronger (Some x) bc) eqn:Es.
      * apply stronger_true in Es.
        destruct (IH (S lag0) lag0 x) as (H1 & H2 & H3).
        set (r := Analysis.best_from (S lag0) tl lag0 x) in *.
        split; [apply Qlt_le_weak; eapply Qlt_le_trans; eassumption|]. split.
        -- intros [|i] y Hy; simpl in Hy.
           ++ now injection Hy as ->.
           ++ now apply (H2 i).
        -- right. destruct H3 as [H3|(j & Hj & Hn & Hlt & Hbefore)].
           ++ exists 0. rewrite H3. simpl. split; [lia|]. split; [reflexivity|].
              split; [exact Es|]. intros i y Hi. lia.
           ++ exists (S j). split; [lia|]. split; [exact Hn|].
              split; [eapply Qlt_trans; eassumption|].
              intros [|i] y Hi Hy; simpl in Hy.
              ** now injection Hy as ->.
              ** apply (Hbefore i y); [lia|exact Hy].
      * apply stronger_false in Es. apply Hkeep.
        intros y E. now injection E as <-.
    + apply Hkeep. intros y E. discriminate.
Qed.

(** X22.  The lag that [analyze_causal_chain] reports as strongest is
    the first lag whose correlation is largest in absolute value, lags
    without a correlation (NaN) being passed over; when no lag has a
    correlation other than zero, it reports lag 0 with the correlation
    0, whatever the correlation at lag 0 was. *)
Theorem strongest_lag_is_first_maximum :
  forall corrs : list cell,
    let best_lag := fst (Analysis.strongest corrs) in
    let best_corr := snd (Analysis.strongest corrs) in
    (forall i x, nth_error corrs i = Some (Some x) -> (Qabs x <= Qabs best_corr)%Q) /\
    ((best_lag = 0 /\ best_corr = inject_Z 0 /\
      forall i x, nth_error corrs i = Some (Some x) -> (x == 0)%Q) \/
     (nth_error corrs best_lag = Some (Some best_corr) /\
      ~ (best_corr == 0)%Q /\
      forall i x, i < best_lag -> nth_error corrs i = Some (Some x) ->
                  (Qabs x < Qabs best_corr)%Q)).
Proof.
  intros corrs. cbv zeta. unfold Analysis.strongest.
  destruct (best_from_spec corrs 0 0 (inject_Z 0)) as (H1 & H2 & H3).
  set (r := Analysis.best_from 0 corrs 0 (inject_Z 0)) in *.
  split; [exact H2|].
  destruct H3 as [H3|(j & Hj & Hn & Hlt & Hbefore)].
  - left. rewrite H3. simpl. split; [reflexivity|]. split; [reflexivity|].
    intros i x Hx. specialize (H2 i x Hx). rewrite H3 in H2. simpl in H2.
    change (Qabs (inject_Z 0)) with 0%Q in H2.
    apply Qabs_Qle_condition in H2. destruct H2 as [Ha Hb].
    apply Qle_antisym; [exact Hb|exact Ha].
  - right. simpl in Hj. rewrite Hj. split; [exact Hn|]. split; [|exact Hbefore].
    intros E. rewrite E in Hlt. change (Qabs (inject_Z 0)) with 0%Q in Hlt.
    change (Qabs 0) with 0%Q in Hlt. exact (Qlt_irrefl _ Hlt).
Qed.

Lemma strongest_lag_is_first_maximum_witness :
  Analysis.strongest [None; Some (2 # 10); Some (- 5 # 10); Some (5 # 10)]%Q
  = (2, (- 5 # 10)%Q) /\
  (forall i x,
      nth_error [None; Some (2 # 10); Some (- 5 # 10); Some (5 # 10)]%Q i
      = Some (Some x) ->
      (Qabs x <= Qabs (snd (Analysis.strongest
                              [None; Some (2 # 10); Some (- 5 # 10); Some (5 # 10)]%Q)))%Q).
Proof.
  split; [vm_compute; reflexivity|].
  exact (proj1 (strongest_lag_is_first_maximum
                  [None; Some (2 # 10); Some (- 5 # 10); Some (5 # 10)]%Q)).
Defined.

(** ** The loops of the news collectors *)



Lemma py_range_in (lo hi k : Z) :
  In k (Fetch.py_range lo hi) <-> (lo <= k < hi)%Z.
Proof.
  unfold Fetch.py_range. rewrite in_map_iff. split.
  - intros (i & <- & Hi). apply in_seq in Hi. lia.
  - intros H. exists (Z.to_nat (k - lo)). split; [lia|]. apply in_seq. lia.
Qed.




Lemma fetch_month_not_completed (answers : list Fetch.response) :
  forall all_articles e,
    Fetch.fetch_month answers all_articles = inl e ->
    e = Fetch.Waiting \/ exists saved, e = Fetch.EndOfArchive saved.
Proof.
  induction answers as [|[docs| | |] tl IH]; intros acc e H; simpl in H.
  - injection H as <-. now left.
  - discriminate.
  - now apply (IH acc).
  - injection H as <-. right. eauto.
  - discriminate.
Qed.

Lemma fetch_month_answered (answers : list Fetch.response) :
  forall all_articles,
    ~ In Fetch.Forbidden answers ->
    (exists r, In r answers /\ r <> Fetch.RateLimit) ->
    exists next, Fetch.fetch_month answers all_articles = inr next.
Proof.
  induction answers as [|[docs| | |] tl IH]; intros acc Hno (r & Hr & Hne); simpl.
  - destruct Hr.
  - eauto.
  - apply IH.
    + intros H. apply Hno. now right.
    + destruct Hr as [<-|Hr]; [contradiction|]. eauto.
  - exfalso. apply Hno. now left.
  - eauto.
Qed.

(** The month loop of the current year stops at the first month after
    the current one. *)
Lemma month_loop_current_year (server : Z -> Z -> list Fetch.response)
  (current_year current_month : Z) (months : list Z) :
  forall all_articles,
    (exists month, In month months /\ (month > current_month)%Z) ->
    exists e,
      Fetch.month_loop server current_year current_month current_year months
                       all_articles = inl e /\
      (e = Fetch.FutureReached \/ e = Fetch.Waiting \/
       exists saved, e = Fetch.EndOfArchive saved).
Proof.
  induction months as [|month tl IH]; intros acc (mm & Hin & Hgt); [destruct Hin|].
  cbn [Fetch.month_loop]. rewrite Z.eqb_refl.
  replace (current_year >? current_year)%Z with false
    by (symmetry; rewrite Z.gtb_ltb; apply Z.ltb_irrefl).
  simpl orb. simpl andb.
  destruct (month >? current_month)%Z eqn:Hm; [eauto|].
  destruct Hin as [->|Hin].
  - rewrite Z.gtb_ltb in Hm. apply Z.ltb_ge in Hm. lia.
  - destruct (Fetch.fetch_month (server current_year month) acc) as [e|next] eqn:Ef.
    + exists e. split; [reflexivity|]. right.
      exact (fetch_month_not_completed _ _ _ Ef).
    + apply IH. eauto.
Qed.

Lemma month_loop_endings (server : Z -> Z -> list Fetch.response)
  (current_year current_month year : Z) (months : list Z) :
  forall all_articles e,
    Fetch.month_loop server current_year current_month year months all_articles
    = inl e ->
    e = Fetch.FutureReached \/ e = Fetch.Waiting \/
    exists saved, e = Fetch.EndOfArchive saved.
Proof.
  induction months as [|month tl IH]; intros acc e H; [discriminate|].
  cbn [Fetch.month_loop] in H.
  destruct ((year >? current_year)
            || (year =? current_year) && (month >? current_month))%Z.
  - injection H as <-. now left.
  - destruct (Fetch.fetch_month (server year month) acc) as [e'|next] eqn:Ef.
    + injection H as <-. right. exact (fetch_month_not_completed _ _ _ Ef).
    + now apply (IH next).
Qed.

Lemma year_loop_not_completed (server : Z -> Z -> list Fetch.response)
  (current_year current_month : Z) (years : list Z) :
  (1 <= current_month < 12)%Z ->
  In current_year years ->
  forall all_articles,
    let e := Fetch.year_loop server current_year current_month years all_articles in
    e = Fetch.FutureReached \/ e = Fetch.Waiting \/
    exists saved, e = Fetch.EndOfArchive saved.
Proof.
  intros Hm. induction years as [|year tl IH]; intros Hin acc; [destruct Hin|].
  cbv zeta. cbn [Fetch.year_loop].
  destruct (Z.eq_dec year current_year) as [->|Hne].
  - destruct (month_loop_current_year server current_year current_month
                (Fetch.py_range 1 13) acc) as (e & -> & He).
    + exists 12%Z. split; [apply py_range_in; lia|lia].
    + exact He.
  - destruct Hin as [E|Hin]; [contradiction|].
    destruct (Fetch.month_loop server current_year current_month year
                (Fetch.py_range 1 13) acc) as [e|next] eqn:El.
    + exact (month_loop_endings _ _ _ _ _ _ _ El).
    + exact (IH Hin next).
Qed.

Lemma year_loop_answered (server : Z -> Z -> list Fetch.response)
  (current_year current_month : Z) (years : list Z) :
  (forall year month, ~ In Fetch.Forbidden (server year month)) ->
  (forall year month, exists r, In r (server year month) /\ r <> Fetch.RateLimit) ->
  forall all_articles,
    let e := Fetch.year_loop server current_year current_month years all_articles in
    e = Fetch.FutureReached \/ exists saved, e = Fetch.Completed saved.
Proof.
  intros Hno Hans.
  assert (Hmonths : forall year months acc e,
             Fetch.month_loop server current_year current_month year months acc = inl e ->
             e = Fetch.FutureReached).
  { intros year months. induction months as [|month tl IH]; intros acc e H;
      [discriminate|].
    cbn [Fetch.month_loop] in H.
    destruct ((year >? current_year)
              || (year =? current_year) && (month >? current_month))%Z.
    - now injection H as <-.
    - destruct (fetch_month_answered (server year month) acc (Hno year month)
                  (Hans year month)) as (next & Hnext).
      rewrite Hnext in H. now apply (IH next). }
  induction years as [|year tl IH]; intros acc; cbv zeta; cbn [Fetch.year_loop].
  - right. eauto.
  - destruct (Fetch.month_loop server current_year current_month year
                (Fetch.py_range 1 13) acc) as [e|next] eqn:El.
    + left. exact (Hmonths _ _ _ _ El).
    + exact (IH next).
Qed.

(** X24.  Unless the run takes place in December, the archive collector
    [get_source_d_sentiment] never reaches its final save: the run ends
    by a [return] that writes nothing at the first month after the
    current one, whatever has been collected until then, unless the
    server answered a request with 403 before, which is the only case in
    which articles are written.  When every request is answered in the
    end and none with 403, nothing is written. *)
Theorem archive_run_never_completes :
  forall (server : Z -> Z -> list Fetch.response) (current_year current_month : Z),
    (2016 <= current_year)%Z ->
    (1 <= current_month < 12)%Z ->
    let e := Fetch.get_source_d_sentiment server current_year current_month in
    (forall saved, e <> Fetch.Completed saved) /\
    (e = Fetch.FutureReached \/ e = Fetch.Waiting \/
     exists saved, e = Fetch.EndOfArchive saved) /\
    ((forall year month, ~ In Fetch.Forbidden (server year month)) ->
     (forall year month, exists r, In r (server year month) /\ r <> Fetch.RateLimit) ->
     e = Fetch.FutureReached).
Proof.
  intros server cy cm Hy Hm. cbv zeta.
  assert (H : let e := Fetch.get_source_d_sentiment server cy cm in
              e = Fetch.FutureReached \/ e = Fetch.Waiting \/
              exists saved, e = Fetch.EndOfArchive saved).
  { unfold Fetch.get_source_d_sentiment.
    apply (year_loop_not_completed server cy cm _ Hm).
    apply py_range_in. lia. }
  cbv zeta in H.
  assert (Hnot : forall saved,
             Fetch.get_source_d_sentiment server cy cm <> Fetch.Completed saved).
  { intros saved E. rewrite E in H.
    destruct H as [H|[H|(s & H)]]; discriminate. }
  split; [exact Hnot|]. split; [exact H|].
  intros Hno Hans.
  destruct (year_loop_answered server cy cm (Fetch.py_range 2016 (cy + 1)) Hno Hans [])
    as [E|(saved & E)]; [exact E|].
  exfalso. exact (Hnot saved E).
Qed.

Lemma archive_run_never_completes_witness :
  (forall saved,
      Fetch.get_source_d_sentiment
        (fun _ _ => [Fetch.Docs [Fetch.mkArticle None None None None]]) 2016 1
      <> Fetch.Completed saved) /\
  Fetch.get_source_d_sentiment
    (fun _ _ => [Fetch.Docs [Fetch.mkArticle None None None None]]) 2016 1
  = Fetch.FutureReached.
Proof.
  destruct (archive_run_never_completes
              (fun _ _ => [Fetch.Docs [Fetch.mkArticle None None None None]]) 2016 1)
    as (H1 & _ & H3); try lia.
  split; [exact H1|]. apply H3.
  - intros year month [E|[]]. discriminate.
  - intros year month. eexists. split; [left; reflexivity|discriminate].
Defined.

(** ** When the run is certain to save a dataset *)

Lemma join_outer_ok (A B : DataFrame) :
  (forall x, In x (names A) -> ~ In x (names B)) ->
  exists J, join_outer A B = Ok J /\ names J = (names A ++ names B)%list.
Proof.
  intros H. destruct (join_outer A B) as [J|e] eqn:E.
  - exists J. split; [reflexivity|]. exact (join_outer_names A B J E).
  - unfold join_outer in E. rewrite (overlap_false _ _ H) in E. discriminate.
Qed.

Lemma join_all_ok (rest : list DataFrame) :
  forall first,
    (forall t x, In t rest -> In x (names first) -> ~ In x (names t)) ->
    ForallOrdPairs (fun a b => forall x, In x (names a) -> ~ In x (names b)) rest ->
    exists J, Merge.join_all first rest = Ok J.
Proof.
  induction rest as [|t rest IH]; intros first Hfirst Hpairs; simpl; [eauto|].
  inversion Hpairs as [|? ? Ht Hrest]; subst.
  destruct (join_outer_ok first t) as (J1 & -> & Hnames).
  { intros x Hx. apply (Hfirst t x); [now left|exact Hx]. }
  simpl. apply IH; [|exact Hrest].
  intros t' x Ht' Hx. rewrite Hnames in Hx. apply in_app_or in Hx.
  destruct Hx as [Hx|Hx].
  - apply (Hfirst t' x); [now right|exact Hx].
  - rewrite Forall_forall in Ht. now apply (Ht t').
Qed.

Lemma ordpairs_filter {A : Type} (R : A -> A -> Prop) (p : A -> bool) (l : list A) :
  ForallOrdPairs R l -> ForallOrdPairs R (filter p l).
Proof.
  induction 1 as [|a l Ha Hl IH]; simpl; [constructor|].
  destruct (p a); [|exact IH]. constructor; [|exact IH].
  rewrite Forall_forall in *. intros x Hx. apply filter_In in Hx. now apply Ha.
Qed.

Lemma disjoint_by_lists (A B : DataFrame) (la lb : list string) :
  incl (names A) la -> incl (names B) lb -> overlap la lb = false ->
  forall x, In x (names A) -> ~ In x (names B).
Proof.
  intros Ha Hb Hov x Hx Hx'.
  exact (overlap_sound la lb Hov x (Ha x Hx) (Hb x Hx')).
Qed.

(** X25.  The tables of the four parsers always merge: when the CPI
    parser has returned a table for a file that holds series of the
    series map and the energy parser has returned a table, the merge
    step saves a dataset, whatever the labor files hold and whatever
    table the news parser has returned with columns among its seven:
    the four tables cannot share a column name, so that no join is
    refused, and there is at least the CPI table to merge. *)
Theorem parser_tables_always_merge :
  forall (pad : bool) (l : list CPI.series) (df1 : DataFrame)
         (es : Energy.sources) (df2 : DataFrame)
         (ls : Labor.sources) (df4 : DataFrame),
    mapped_series l ->
    CPI.clean_cpi_data pad (Loaded (CPI.Series l)) = Ok (Frame df1) ->
    Energy.clean_energy_data es = Ok df2 ->
    incl (names df4)
         ["News_Count_Inflation"; "News_Count_Recession"; "News_Count_Crisis";
          "News_Count_High_Price"; "News_Count_Layoff"; "News_Count_Unemployment";
          "News_Total_Counting"]%string ->
    exists final_df,
      Merge.merge_frames [Frame df1; Frame df2;
                          Frame (Labor.clean_labor_data ls); Frame df4]
      = Merge.Saved final_df.
Proof.
  intros pad l df1 es df2 ls df4 Hmapped Hcpi Hen H4.
  set (c8 := ["CPI_Total"; "CPI_Food"; "CPI_Energy"; "CPI_Shelter";
              "CPI_Total_YoY"; "CPI_Food_YoY"; "CPI_Energy_YoY";
              "CPI_Shelter_YoY"]%string).
  set (e3 := ["Gas_Price"; "Diesel_Price"; "Oil_Price"]%string).
  set (l3 := ["Unemp_Total"; "Unemp_Men"; "Unemp_Women"]%string).
  set (n7 := ["News_Count_Inflation"; "News_Count_Recession"; "News_Count_Crisis";
              "News_Count_High_Price"; "News_Count_Layoff"; "News_Count_Unemployment";
              "News_Total_Counting"]%string) in *.
  assert (H1 : incl (names df1) c8).
  { intros c Hc.
    destruct (cpi_names pad l df1 c Hcpi Hc) as (s & Hs & Hname).
    unfold mapped_series in Hmapped. rewrite Forall_forall in Hmapped.
    pose proof (mapped_col_name s (Hmapped s Hs)) as Hcol.
    simpl in Hcol. unfold c8. simpl.
    destruct Hname as [->| ->];
      destruct Hcol as [<-|[<-|[<-|[<-|[]]]]]; simpl; tauto. }
  pose proof (energy_names _ _ Hen) as H2. fold e3 in H2.
  set (df3 := Labor.clean_labor_data ls).
  pose proof (labor_names ls) as H3. fold df3 l3 in H3.
  assert (Hne : df_empty df1 = false) by exact (cpi_frame_not_empty pad _ df1 Hcpi).
  unfold Merge.merge_frames.
  change [Frame df1; Frame df2; Frame df3; Frame df4]
    with (map Frame [df1; df2; df3; df4]).
  rewrite non_empty_filter.
  set (rest := filter (fun t => negb (df_empty t)) [df2; df3; df4]).
  change (filter (fun t => negb (df_empty t)) [df1; df2; df3; df4])
    with (if negb (df_empty df1) then df1 :: rest else rest).
  rewrite Hne. cbn [negb]. cbv beta iota.
  destruct (join_all_ok rest df1) as (J & ->).
  - intros t x Ht Hx. unfold rest in Ht. apply filter_In in Ht.
    destruct Ht as [Ht _]. simpl in Ht.
    destruct Ht as [<-|[<-|[<-|[]]]].
    + exact (disjoint_by_lists df1 df2 c8 e3 H1 H2 eq_refl x Hx).
    + exact (disjoint_by_lists df1 df3 c8 l3 H1 H3 eq_refl x Hx).
    + exact (disjoint_by_lists df1 df4 c8 n7 H1 H4 eq_refl x Hx).
  - apply ordpairs_filter. repeat constructor.
    + exact (disjoint_by_lists df2 df3 e3 l3 H2 H3 eq_refl).
    + exact (disjoint_by_lists df2 df4 e3 n7 H2 H4 eq_refl).
    + exact (disjoint_by_lists df3 df4 l3 n7 H3 H4 eq_refl).
  - eauto.
Qed.

Lemma parser_tables_always_merge_witness :
  exists df1 df2 final_df,
    CPI.clean_cpi_data true (Loaded (CPI.Series Sample.thirteen_months))
    = Ok (Frame df1) /\
    Energy.clean_energy_data Sample.small_energy = Ok df2 /\
    Merge.merge_frames [Frame df1; Frame df2;
                        Frame (Labor.clean_labor_data Sample.two_years);
                        Frame (News.clean_news_data (Some [Loaded [Sample.loud_article]]))]
    = Merge.Saved final_df.
Proof.
  eexists. eexists.
  assert (H1 : CPI.clean_cpi_data true (Loaded (CPI.Series Sample.thirteen_months))
               = Ok (Frame _))
    by (vm_compute; reflexivity).
  assert (H2 : Energy.clean_energy_data Sample.small_energy = Ok _)
    by (vm_compute; reflexivity).
  destruct (parser_tables_always_merge true Sample.thirteen_months _
              Sample.small_energy _ Sample.two_years
              (News.clean_news_data (Some [Loaded [Sample.loud_article]]))
              ltac:(repeat constructor) H1 H2 ltac:(apply incl_refl))
    as (final_df & Hrun).
  exists final_df. split; [exact H1|]. split; [exact H2|exact Hrun].
Defined.

(** ** The last day of the period in the news parser *)





